(** * OTPilot: the code extraction and validation pipeline

    A shallow embedding of [src/utils/validators.js] and
    [src/services/otp-extractor.js], with the properties of the pipeline
    proved over it.

    Strings are lists of code units; a code unit is an [ascii].  The
    embedding is exact on 7-bit text: case conversion acts on the letters
    A-Z and a-z, the classes \s, \d and \w are the ASCII ones, and the
    code units 128-255 are carried through unchanged.

    Regular expressions are kept as syntax trees, written next to the
    source pattern they stand for, and run by a backtracking matcher that
    follows the ECMAScript matching order (leftmost start, alternatives
    left to right, greedy and lazy quantifiers, capture groups,
    back-references, the assertions ^, $ and \b). *)

From Stdlib Require Import List Ascii Bool Arith Lia ZArith.
From Stdlib Require String.
Import ListNotations String.StringSyntax.
Delimit Scope string_scope with string.

Set Implicit Arguments.

(* ================================================================== *)
(** ** Code units and strings *)

Definition str := list ascii.

Definition lit (s : String.string) : str := String.list_ascii_of_string s.
Arguments lit s%_string.

(** The numeric value of a code unit. *)
Definition ord (c : ascii) : nat := nat_of_ascii c.

Definition in_range (lo hi c : ascii) : bool :=
  (ord lo <=? ord c) && (ord c <=? ord hi).

Definition is_digit (c : ascii) : bool := in_range "0" "9" c.
Definition is_upper (c : ascii) : bool := in_range "A" "Z" c.
Definition is_lower (c : ascii) : bool := in_range "a" "z" c.
Definition is_letter (c : ascii) : bool := is_upper c || is_lower c.
Definition is_alnum (c : ascii) : bool := is_letter c || is_digit c.

(** The double quote, code unit 34. *)
Definition dquote : ascii := ascii_of_nat 34.

(** \s on 7-bit text: TAB, LF, VT, FF, CR and SPACE. *)
Definition is_white (c : ascii) : bool :=
  ((9 <=? ord c) && (ord c <=? 13)) || (ord c =? 32).

(** Line terminators, the code units that [.] refuses. *)
Definition is_line_terminator (c : ascii) : bool :=
  (ord c =? 10) || (ord c =? 13).

(** \w, used by \b. *)
Definition is_word (c : ascii) : bool := is_alnum c || (ord c =? 95).

Definition upper (c : ascii) : ascii :=
  if is_lower c then ascii_of_nat (ord c - 32) else c.

Definition lower (c : ascii) : ascii :=
  if is_upper c then ascii_of_nat (ord c + 32) else c.

Definition toUpperCase (s : str) : str := map upper s.
Definition toLowerCase (s : str) : str := map lower s.

Definition is_empty (s : str) : bool :=
  match s with [] => true | _ => false end.

Fixpoint str_eqb (a b : str) : bool :=
  match a, b with
  | [], [] => true
  | x :: a', y :: b' => Ascii.eqb x y && str_eqb a' b'
  | _, _ => false
  end.

(** [prefixb p s]: [p] is a prefix of [s]. *)
Fixpoint prefixb (p s : str) : bool :=
  match p, s with
  | [], _ => true
  | x :: p', y :: s' => Ascii.eqb x y && prefixb p' s'
  | _ :: _, [] => false
  end.

(** String.prototype.indexOf, from offset [i] of the original string. *)
Fixpoint indexOf_from (p s : str) (i : nat) : option nat :=
  if prefixb p s then Some i
  else match s with
       | [] => None
       | _ :: t => indexOf_from p t (S i)
       end.

Definition indexOf (s p : str) : option nat := indexOf_from p s 0.

(** String.prototype.includes. *)
Definition includes (s p : str) : bool :=
  match indexOf s p with Some _ => true | None => false end.

(** String.prototype.substring for [from <= to]. *)
Definition substring (s : str) (from to : nat) : str :=
  firstn (to - from) (skipn from s).

Fixpoint drop_white (s : str) : str :=
  match s with
  | c :: t => if is_white c then drop_white t else s
  | [] => []
  end.

(** String.prototype.trim. *)
Definition trim (s : str) : str := rev (drop_white (rev (drop_white s))).

(* ================================================================== *)
(** ** Regular expressions *)

(** Character classes. *)
Inductive cclass : Type :=
| CDot                          (* .      *)
| CLit (c : ascii)              (* a      *)
| CRange (lo hi : ascii)        (* [a-z]  *)
| CWhite                        (* \s     *)
| CDigit                        (* \d     *)
| COr (a b : cclass)            (* [ab]   *)
| CNot (a : cclass).            (* [^a], \S *)

(** Patterns.  [Rep greedy lo hi r] is [r{lo,hi}] (or [r{lo,}] when [hi]
    is [None]), lazy when [greedy] is false. *)
Inductive regex : Type :=
| Empty
| Char (k : cclass)
| Seq (r1 r2 : regex)
| Alt (r1 r2 : regex)
| Rep (greedy : bool) (lo : nat) (hi : option nat) (r : regex)
| Group (n : nat) (r : regex)
| Backref (n : nat)
| Bol                           (* ^  *)
| Eol                           (* $  *)
| WordB.                        (* \b *)

(** Canonicalize of the ECMAScript /i matching, on 7-bit text. *)
Definition canon (i : bool) (c : ascii) : ascii := if i then upper c else c.

Fixpoint cmatch (i : bool) (k : cclass) (c : ascii) : bool :=
  match k with
  | CDot => negb (is_line_terminator c)
  | CLit a => Ascii.eqb (canon i a) (canon i c)
  | CRange lo hi =>
      in_range lo hi c
      || (i && (in_range lo hi (upper c) || in_range lo hi (lower c)))
  | CWhite => is_white c
  | CDigit => is_digit c
  | COr a b => cmatch i a c || cmatch i b c
  | CNot a => negb (cmatch i a c)
  end.

(** Matcher state: the code units already passed (latest first), the
    code units still ahead, and the capture groups closed so far, each
    with the offset where it starts. *)
Record mstate : Type := MState {
  seen : str;
  rest : str;
  groups : list (nat * (nat * str))
}.

Definition pos (s : mstate) : nat := length (seen s).

Definition subject (s : mstate) : str := rev (seen s) ++ rest s.

Fixpoint lookup (n : nat) (g : list (nat * (nat * str))) : option (nat * str) :=
  match g with
  | [] => None
  | (m, v) :: g' => if n =? m then Some v else lookup n g'
  end.

(** Moves [n] code units ahead. *)
Fixpoint advance (n : nat) (s : mstate) : mstate :=
  match n, rest s with
  | S n', c :: t => advance n' (MState (c :: seen s) t (groups s))
  | _, _ => s
  end.

Definition close_group (n : nat) (s0 s1 : mstate) : mstate :=
  MState (seen s1) (rest s1)
         ((n, (pos s0, firstn (pos s1 - pos s0) (rest s0))) :: groups s1).

(** [p] read off the front of [s] up to case when [i] is set. *)
Fixpoint prefix_canon (i : bool) (p s : str) : bool :=
  match p, s with
  | [], _ => true
  | x :: p', y :: s' => Ascii.eqb (canon i x) (canon i y) && prefix_canon i p' s'
  | _ :: _, [] => false
  end.

Definition cont : Type := mstate -> option mstate.

(** The quantifier loop (RepeatMatcher).  [lo] iterations are still owed,
    at most [n] more may be taken; once nothing is owed, an iteration that
    consumes nothing is refused. *)
Fixpoint rep_loop (body : cont -> cont) (greedy : bool) (k : cont)
    (lo n : nat) (s : mstate) {struct n} : option mstate :=
  match n with
  | 0 => if lo =? 0 then k s else None
  | S n' =>
      let next := fun s' =>
        if (lo =? 0) && (pos s' =? pos s) then None
        else rep_loop body greedy k (pred lo) n' s' in
      if 0 <? lo then body next s
      else if greedy then
        match body next s with Some x => Some x | None => k s end
      else
        match k s with Some x => Some x | None => body next s end
  end.

Definition head_is_word (s : str) : bool :=
  match s with c :: _ => is_word c | [] => false end.

(** The backtracking matcher, in continuation-passing style: [rmatch i r k s]
    matches [r] at [s] and hands every way of doing so, in priority order,
    to [k] until [k] accepts. *)
Fixpoint rmatch (i : bool) (r : regex) (k : cont) (s : mstate) {struct r}
  : option mstate :=
  match r with
  | Empty => k s
  | Char c =>
      match rest s with
      | x :: _ => if cmatch i c x then k (advance 1 s) else None
      | [] => None
      end
  | Seq r1 r2 => rmatch i r1 (rmatch i r2 k) s
  | Alt r1 r2 =>
      match rmatch i r1 k s with Some x => Some x | None => rmatch i r2 k s end
  | Rep g lo hi r1 =>
      let n := match hi with Some h => h | None => lo + length (rest s) end in
      rep_loop (rmatch i r1) g k lo n s
  | Group n r1 => rmatch i r1 (fun s' => k (close_group n s s')) s
  | Backref n =>
      match lookup n (groups s) with
      | None => k s
      | Some (_, v) =>
          if prefix_canon i v (rest s) then k (advance (length v) s) else None
      end
  | Bol => if is_empty (seen s) then k s else None
  | Eol => if is_empty (rest s) then k s else None
  | WordB =>
      if xorb (head_is_word (seen s)) (head_is_word (rest s)) then k s else None
  end.

(** A successful match: where it starts, what it covers, its groups. *)
Record match_result : Type := MatchResult {
  m_index : nat;
  m_text : str;
  m_groups : list (nat * (nat * str))
}.

(** [match\[n\]]: [None] stands for undefined. *)
Definition group (n : nat) (m : match_result) : option str :=
  match lookup n (m_groups m) with
  | Some (_, v) => Some v
  | None => None
  end.

(** Offset in the subject at which group [n] starts. *)
Definition group_start (n : nat) (m : match_result) : option nat :=
  match lookup n (m_groups m) with
  | Some (a, _) => Some a
  | None => None
  end.

(** One attempt at the current offset. *)
Definition match_here (i : bool) (r : regex) (sn rs : str) : option match_result :=
  match rmatch i r Some (MState sn rs []) with
  | Some s' => Some (MatchResult (length sn)
                                 (firstn (pos s' - length sn) rs)
                                 (groups s'))
  | None => None
  end.

(** RegExpBuiltinExec without the g flag: the leftmost offset that
    matches, the end of the string included. *)
Fixpoint search (i : bool) (r : regex) (sn rs : str) : option match_result :=
  match match_here i r sn rs with
  | Some m => Some m
  | None => match rs with
            | [] => None
            | c :: t => search i r (c :: sn) t
            end
  end.

(** [text.match(r)] for [r] without the g flag. *)
Definition js_match (i : bool) (r : regex) (text : str) : option match_result :=
  search i r [] text.

(** [r.test(text)]. *)
Definition test (i : bool) (r : regex) (text : str) : bool :=
  match js_match i r text with Some _ => true | None => false end.

(** All matches of a g-flagged pattern, left to right.  [skip] counts
    the code units still covered by the previous match; after an empty
    match the scan moves one code unit on. *)
Fixpoint scan (i : bool) (r : regex) (sn rs : str) (skip : nat)
  : list match_result :=
  match skip with
  | S k =>
      match rs with
      | [] => []
      | c :: t => scan i r (c :: sn) t k
      end
  | 0 =>
      match match_here i r sn rs with
      | Some m =>
          m :: match rs with
               | [] => []
               | c :: t => scan i r (c :: sn) t (pred (length (m_text m)))
               end
      | None =>
          match rs with
          | [] => []
          | c :: t => scan i r (c :: sn) t 0
          end
      end
  end.

(** [\[...text.matchAll(r)\]]. *)
Definition matchAll (i : bool) (r : regex) (text : str) : list match_result :=
  scan i r [] text 0.

(** [text.match(r)] for a g-flagged [r]: the matched texts; the empty
    list stands for null. *)
Definition match_g (i : bool) (r : regex) (text : str) : list str :=
  map m_text (matchAll i r text).

(** [text.replace(r, by)] for a g-flagged [r] and a constant [by]. *)
Fixpoint replace_from (i : bool) (r : regex) (by_ : str) (sn rs : str)
    (skip : nat) : str :=
  match skip with
  | S k =>
      match rs with
      | [] => []
      | c :: t => replace_from i r by_ (c :: sn) t k
      end
  | 0 =>
      match match_here i r sn rs with
      | Some m =>
          by_ ++ match rs with
                 | [] => []
                 | c :: t =>
                     match length (m_text m) with
                     | 0 => c :: replace_from i r by_ (c :: sn) t 0
                     | S l => replace_from i r by_ (c :: sn) t l
                     end
                 end
      | None =>
          match rs with
          | [] => []
          | c :: t => c :: replace_from i r by_ (c :: sn) t 0
          end
      end
  end.

Definition replace_all (i : bool) (r : regex) (by_ : str) (text : str) : str :=
  replace_from i r by_ [] text 0.

(** *** Pattern notation *)

Definition cat (rs : list regex) : regex := fold_right Seq Empty rs.

Fixpoint alts (rs : list regex) : regex :=
  match rs with
  | [] => Empty
  | [r] => r
  | r :: rs' => Alt r (alts rs')
  end.

Definition txt (s : String.string) : regex := cat (map (fun c => Char (CLit c)) (lit s)).
Arguments txt s%_string.

Definition opt (r : regex) : regex := Rep true 0 (Some 1) r.
Definition star (r : regex) : regex := Rep true 0 None r.
Definition plus (r : regex) : regex := Rep true 1 None r.
Definition times (lo hi : nat) (r : regex) : regex := Rep true lo (Some hi) r.
Definition lazy (lo hi : nat) (r : regex) : regex := Rep false lo (Some hi) r.

Definition ws : regex := Char CWhite.
Definition digit : regex := Char CDigit.
Definition d09 : regex := Char (CRange "0" "9").
Definition any : regex := Char (COr CWhite (CNot CWhite)).

(** [\[abc\]]: the class of the code units of a non-empty list. *)
Fixpoint chars (l : str) : cclass :=
  match l with
  | [] => CNot (COr CWhite (CNot CWhite))
  | [c] => CLit c
  | c :: t => COr (CLit c) (chars t)
  end.

Definition one_of (s : String.string) : regex := Char (chars (lit s)).
Arguments one_of s%_string.

(* ================================================================== *)
(** ** JavaScript values at the exported entry points *)

Inductive value : Type :=
| VUndefined
| VNull
| VBool (b : bool)
| VNumber (z : Z)
| VNaN
| VString (s : str)
| VObject.

(** ToBoolean. *)
Definition truthy (v : value) : bool :=
  match v with
  | VUndefined | VNull | VNaN => false
  | VBool b => b
  | VNumber z => negb (z =? 0)%Z
  | VString s => negb (is_empty s)
  | VObject => true
  end.

(** [typeof v === 'string']. *)
Definition typeof_string (v : value) : bool :=
  match v with VString _ => true | _ => false end.

(** How a call ends: with a value, or with a thrown TypeError (a string
    method called on something that is no string). *)
Inductive completion (A : Type) : Type :=
| Normal (a : A)
| Throw.
Arguments Throw {A}.

(** The receiver of a string method. *)
Definition as_string {A : Type} (v : value) (k : str -> completion A) : completion A :=
  match v with
  | VString s => k s
  | _ => Throw
  end.

(* ================================================================== *)
(** ** src/utils/validators.js *)

Open Scope string_scope.

Definition SEQUENTIAL_PATTERNS : list str := map lit
  [ "0123"; "1234"; "2345"; "3456"; "4567"; "5678"; "6789";
    "9876"; "8765"; "7654"; "6543"; "5432"; "4321"; "3210";
    "012345"; "123456"; "234567"; "345678"; "456789";
    "987654"; "876543"; "765432"; "654321"; "543210" ].

Definition commonColors : list str := map lit
  [ "000000"; "FFFFFF"; "333333"; "666666"; "999999"; "CCCCCC";
    "FF0000"; "00FF00"; "0000FF"; "FFFF00"; "FF00FF"; "00FFFF";
    "808080"; "C0C0C0"; "800000"; "008000"; "000080"; "800080" ].

Close Scope string_scope.

Definition isSequential (code : str) : bool :=
  existsb (fun pattern => includes code pattern) SEQUENTIAL_PATTERNS.

(** /^(.)\1+$/ *)
Definition re_repetitive : regex :=
  cat [Bol; Group 1 (Char CDot); plus (Backref 1); Eol].

Definition isRepetitive (code : str) : bool :=
  if length code <? 2 then false
  else test false re_repetitive code.

(** (0[1-9]|1[0-2]) *)
Definition re_month (n : nat) : regex :=
  Group n (alts [cat [txt "0"; Char (CRange "1" "9")];
                 cat [txt "1"; Char (CRange "0" "2")]]).

(** (0[1-9]|[12]\d|3[01]) *)
Definition re_day (n : nat) : regex :=
  Group n (alts [cat [txt "0"; Char (CRange "1" "9")];
                 cat [one_of "12"; digit];
                 cat [txt "3"; one_of "01"]]).

(** (19|20) *)
Definition re_century (n : nat) : regex :=
  Group n (alts [txt "19"; txt "20"]).

Definition datePatterns : list regex :=
  [ (* MMDDYY *)   cat [Bol; re_month 1; re_day 2; Group 3 (times 2 2 digit); Eol];
    (* DDMMYY *)   cat [Bol; re_day 1; re_month 2; Group 3 (times 2 2 digit); Eol];
    (* YYMMDD *)   cat [Bol; Group 1 (times 2 2 digit); re_month 2; re_day 3; Eol];
    (* MMDDYYYY *) cat [Bol; re_month 1; re_day 2; re_century 3; times 2 2 digit; Eol];
    (* DDMMYYYY *) cat [Bol; re_day 1; re_month 2; re_century 3; times 2 2 digit; Eol];
    (* YYYYMMDD *) cat [Bol; re_century 1; times 2 2 digit; re_month 2; re_day 3; Eol] ].

Definition isDatePattern (code : str) : bool :=
  if negb (length code =? 6) && negb (length code =? 8) then false
  else existsb (fun pattern => test false pattern code) datePatterns.

(** The decimal digits at the front of [s], as a number. *)
Fixpoint leading_digits (s : str) (acc : Z) : Z :=
  match s with
  | c :: t =>
      if is_digit c then leading_digits t (10 * acc + Z.of_nat (ord c - 48))%Z
      else acc
  | [] => acc
  end.

(** [parseInt(s, 10)]; [None] stands for NaN. *)
Definition parseInt (s : str) : option Z :=
  let s1 := drop_white s in
  let '(negative, s2) :=
    match s1 with
    | "-"%char :: t => (true, t)
    | "+"%char :: t => (false, t)
    | _ => (false, s1)
    end in
  match s2 with
  | c :: _ =>
      if is_digit c then
        let v := leading_digits s2 0 in
        Some (if negative then - v else v)%Z
      else None
  | [] => None
  end.

Definition isYearPattern (code : str) : bool :=
  if negb (length code =? 4) then false
  else match parseInt code with
       | Some num => (1900 <=? num)%Z && (num <=? 2100)%Z
       | None => false
       end.

(** /^0+$/ *)
Definition re_zeros : regex := cat [Bol; plus (txt "0"); Eol].

Definition isAllZeros (code : str) : bool := test false re_zeros code.

(** /^\d+(PX|EM|REM|PT|VH|VW|CH|EX|CM|MM|IN|PC)$/i *)
Definition re_css : regex :=
  cat [Bol; plus digit;
       Group 1 (alts [txt "PX"; txt "EM"; txt "REM"; txt "PT"; txt "VH"; txt "VW";
                      txt "CH"; txt "EX"; txt "CM"; txt "MM"; txt "IN"; txt "PC"]);
       Eol].

Definition isCSSValue (code : str) : bool := test true re_css code.

(** [0-9A-F] *)
Definition hex : regex := Char (COr (CRange "0" "9") (CRange "A" "F")).

(** /^[0-9A-F]+$/i *)
Definition re_hex : regex := cat [Bol; plus hex; Eol].

(** /^([0-9A-F]{2})\1\1$/i *)
Definition re_pairs : regex :=
  cat [Bol; Group 1 (times 2 2 hex); Backref 1; Backref 1; Eol].

(** /^([0-9A-F])([0-9A-F])\1\2\1\2$/i *)
Definition re_gray : regex :=
  cat [Bol; Group 1 hex; Group 2 hex;
       Backref 1; Backref 2; Backref 1; Backref 2; Eol].

Definition isLikelyColorCode (code : str) : bool :=
  if negb (length code =? 6) then false
  else if negb (test true re_hex code) then false
  else if test true re_pairs code then true
  else if test true re_gray code then true
  else if existsb (str_eqb (toUpperCase code)) commonColors then true
  else false.

(** /[A-Za-z]/ and /\d/ *)
Definition re_letter : regex := Char (COr (CRange "A" "Z") (CRange "a" "z")).

Definition isValidAlphanumeric (code : str) : bool :=
  let hasLetters := test false re_letter code in
  let hasNumbers := test false digit code in
  if hasLetters && negb hasNumbers then false else true.

(** /[-\s]/g *)
Definition re_dash_space : regex := Char (COr (CLit "-") CWhite).

(** /^[A-Z0-9]+$/ *)
Definition re_alnum : regex :=
  cat [Bol; plus (Char (COr (CRange "A" "Z") (CRange "0" "9"))); Eol].

(** /^\d+$/ *)
Definition re_numeric : regex := cat [Bol; plus digit; Eol].

(** [code.replace(/[-\s]/g, '').toUpperCase()] *)
Definition clean_code (code : str) : str :=
  toUpperCase (replace_all false re_dash_space [] code).

(** The body of isValidOTP once [code] is known to be a string. *)
Definition isValidOTP_str (code : str) : bool :=
  let cleaned := clean_code code in
  if (length cleaned <? 4) || (8 <? length cleaned) then false
  else if negb (test false re_alnum cleaned) then false
  else if isAllZeros cleaned then false
  else if isSequential cleaned then false
  else if isRepetitive cleaned then false
  else if test false re_numeric cleaned && isDatePattern cleaned then false
  else if test false re_numeric cleaned && isYearPattern cleaned then false
  else if negb (isValidAlphanumeric cleaned) then false
  else if isCSSValue cleaned then false
  else if isLikelyColorCode cleaned then false
  else true.

Definition isValidOTP (code : value) : completion bool :=
  if negb (truthy code) || negb (typeof_string code) then Normal false
  else as_string code (fun s => Normal (isValidOTP_str s)).

(** The body of getValidationFailureReason once [code] is known to be a
    string; [None] stands for null. *)
Definition getValidationFailureReason_str (code : str) : option str :=
  let cleaned := clean_code code in
  if length cleaned <? 4 then Some (lit "Too short (min 4 chars)")
  else if 8 <? length cleaned then Some (lit "Too long (max 8 chars)")
  else if negb (test false re_alnum cleaned) then Some (lit "Not alphanumeric")
  else if isAllZeros cleaned then Some (lit "All zeros")
  else if isSequential cleaned then Some (lit "Sequential pattern")
  else if isRepetitive cleaned then Some (lit "Repetitive pattern")
  else if test false re_numeric cleaned && isDatePattern cleaned
    then Some (lit "Date pattern")
  else if test false re_numeric cleaned && isYearPattern cleaned
    then Some (lit "Year pattern")
  else if negb (isValidAlphanumeric cleaned)
    then Some (lit "Invalid alphanumeric mix")
  else if isCSSValue cleaned then Some (lit "CSS value")
  else if isLikelyColorCode cleaned then Some (lit "Likely color code")
  else None.

Definition getValidationFailureReason (code : value) : completion (option str) :=
  if negb (truthy code) || negb (typeof_string code)
  then Normal (Some (lit "Invalid input"))
  else as_string code (fun s => Normal (getValidationFailureReason_str s)).

(* ================================================================== *)
(** ** src/services/otp-extractor.js *)

Open Scope string_scope.

Definition VERIFICATION_KEYWORDS : list str := map lit
  [ "verification"; "verify"; "code"; "pin"; "otp"; "passcode";
    "confirmation"; "confirm"; "security"; "secure"; "authorization";
    "authenticate"; "authentication"; "auth"; "login"; "log in";
    "sign in"; "sign-in"; "2fa"; "two-factor"; "two factor";
    "one-time"; "one time"; "onetime"; "password"; "token";
    "access code"; "temporary code"; "validation" ].

Definition priorityPhrases : list str := map lit
  [ "this code"; "your code"; "the code"; "enter code"; "use code";
    "verification code"; "confirmation code"; "security code";
    "one-time code"; "access code"; "login code"; "otp" ].

Close Scope string_scope.

Definition hasVerificationContext (text : str) : bool :=
  let lowerText := toLowerCase text in
  existsb (fun keyword => includes lowerText keyword) VERIFICATION_KEYWORDS.

(** /<\/?[^>]+(>|$)/g *)
Definition re_tag : regex :=
  cat [txt "<"; opt (txt "/"); plus (Char (CNot (CLit ">")));
       Group 1 (alts [txt ">"; Eol])].

(** /&nbsp;/gi *)
Definition re_nbsp : regex := txt "&nbsp;".

(** /&#\d+;/g *)
Definition re_entity : regex := cat [txt "&#"; plus digit; txt ";"].

(** /\s+/g *)
Definition re_spaces : regex := plus ws.

Definition cleanText (text : str) : str :=
  trim
    (replace_all false re_spaces (lit " ")
      (replace_all false re_entity (lit " ")
        (replace_all true re_nbsp (lit " ")
          (replace_all false re_tag (lit " ") text)))).

(** /[^a-zA-Z0-9]/g and /[^0-9]/g *)
Definition re_not_alnum : regex :=
  Char (CNot (COr (CRange "a" "z") (COr (CRange "A" "Z") (CRange "0" "9")))).
Definition re_not_digit : regex := Char (CNot (CRange "0" "9")).

Definition processCode (codeString : str) : option str :=
  if is_empty codeString then None
  else
    let cleaned := replace_all false re_not_alnum [] codeString in
    let numericOnly := replace_all false re_not_digit [] codeString in
    if (4 <=? length numericOnly) && (length numericOnly <=? 8)
       && isValidOTP_str numericOnly
    then Some numericOnly
    else if (4 <=? length cleaned) && (length cleaned <=? 8)
            && isValidOTP_str cleaned
    then Some (toUpperCase cleaned)
    else None.

Inductive confidence : Type := high | medium | low.
Inductive source : Type := from_subject | from_body.

(** [{ code, confidence }] *)
Record otp : Type := Otp { otp_code : str; otp_confidence : confidence }.

(** [{ code, confidence, source }] *)
Record email_otp : Type := EmailOtp {
  code : str;
  conf : confidence;
  src : source
}.

(** A pattern with its i flag. *)
Definition pattern : Type := (bool * regex)%type.

(** ([0-9]{4,8}) *)
Definition digits48 : regex := Group 1 (times 4 8 d09).

(** \s times, \s plus *)
Definition ws0 : regex := star ws.
Definition ws1 : regex := plus ws.

(** [- ]?  and  [-\s] *)
Definition dash_sp_opt : regex := opt (Char (COr (CLit "-") (CLit " "))).
Definition dash_ws : regex := Char (COr (CLit "-") CWhite).

(** (?:code|otp|pin)  and  (?:code|pin|otp|passcode) *)
Definition code_otp_pin : regex := alts [txt "code"; txt "otp"; txt "pin"].
Definition code_pin_otp_passcode : regex :=
  alts [txt "code"; txt "pin"; txt "otp"; txt "passcode"].

(** Tier 1: explicit labels. *)
Definition explicitPatterns : list pattern :=
  [ (* /(?:verification|confirmation|security|auth(?:entication)?|one[- ]?time|2fa|two[- ]?factor|temporary)\s*code\s*(?:is|:|=|:)\s*([0-9]{4,8})/i *)
    (true, cat [alts [txt "verification"; txt "confirmation"; txt "security";
                      cat [txt "auth"; opt (txt "entication")];
                      cat [txt "one"; dash_sp_opt; txt "time"];
                      txt "2fa";
                      cat [txt "two"; dash_sp_opt; txt "factor"];
                      txt "temporary"];
                ws0; txt "code"; ws0;
                alts [txt "is"; txt ":"; txt "="; txt ":"];
                ws0; digits48]);
    (* /(?:your|the)\s+(?:verification\s+|security\s+|one[- ]?time\s+)?(?:code|otp|pin|passcode)\s*(?:is|:|=)\s*([0-9]{4,8})/i *)
    (true, cat [alts [txt "your"; txt "the"]; ws1;
                opt (alts [cat [txt "verification"; ws1];
                           cat [txt "security"; ws1];
                           cat [txt "one"; dash_sp_opt; txt "time"; ws1]]);
                alts [txt "code"; txt "otp"; txt "pin"; txt "passcode"];
                ws0; alts [txt "is"; txt ":"; txt "="]; ws0; digits48]);
    (* /\b(?:code|pin|otp|passcode)\s*[:=]\s*([0-9]{4,8})\b/i *)
    (true, cat [WordB; code_pin_otp_passcode; ws0; one_of ":="; ws0;
                digits48; WordB]);
    (* /(?:use|enter|input|type)\s+(?:this\s+|the\s+)?(?:code|otp|pin)\s*[:=]?\s*([0-9]{4,8})/i *)
    (true, cat [alts [txt "use"; txt "enter"; txt "input"; txt "type"]; ws1;
                opt (alts [cat [txt "this"; ws1]; cat [txt "the"; ws1]]);
                code_otp_pin; ws0; opt (one_of ":="); ws0; digits48]);
    (* /\b([0-9]{4,8})\s+is\s+your\s+(?:verification\s+|security\s+)?(?:code|otp|pin)/i *)
    (true, cat [WordB; digits48; ws1; txt "is"; ws1; txt "your"; ws1;
                opt (alts [cat [txt "verification"; ws1];
                           cat [txt "security"; ws1]]);
                code_otp_pin]);
    (* /here\s+is\s+(?:your\s+)?(?:code|otp|pin)\s*[:=]?\s*([0-9]{4,8})/i *)
    (true, cat [txt "here"; ws1; txt "is"; ws1; opt (cat [txt "your"; ws1]);
                code_otp_pin; ws0; opt (one_of ":="); ws0; digits48]);
    (* /code\s+to\s+(?:verify|confirm|complete|access)\s*[:=]?\s*([0-9]{4,8})/i *)
    (true, cat [txt "code"; ws1; txt "to"; ws1;
                alts [txt "verify"; txt "confirm"; txt "complete"; txt "access"];
                ws0; opt (one_of ":="); ws0; digits48]) ].

(** Tier 2: formatted codes with labels. *)
Definition formattedPatterns : list pattern :=
  [ (* /\b(?:code|pin|otp|passcode)\s*[:=]?\s*([0-9]{3}[-\s][0-9]{3})\b/i *)
    (true, cat [WordB; code_pin_otp_passcode; ws0; opt (one_of ":="); ws0;
                Group 1 (cat [times 3 3 d09; dash_ws; times 3 3 d09]); WordB]);
    (* /\b(?:code|pin|otp|passcode)\s*[:=]?\s*([0-9]{2}[-\s][0-9]{2}[-\s][0-9]{2})\b/i *)
    (true, cat [WordB; code_pin_otp_passcode; ws0; opt (one_of ":="); ws0;
                Group 1 (cat [times 2 2 d09; dash_ws; times 2 2 d09; dash_ws;
                              times 2 2 d09]); WordB]) ].

(** Tier 3: quoted or emphasized codes. *)
Definition quotedPatterns : list pattern :=
  [ (* /[Q']([0-9]{4,8})[Q']/ with Q the double quote *)
    (false, cat [Char (COr (CLit dquote) (CLit "'")); digits48;
                 Char (COr (CLit dquote) (CLit "'"))]);
    (* /\*+([0-9]{4,8})\*+/ *)
    (false, cat [plus (txt "*"); digits48; plus (txt "*")]);
    (* /(?:code|otp|pin|verification)[^0-9]{0,30}\[([0-9]{4,8})\]/i *)
    (true, cat [alts [txt "code"; txt "otp"; txt "pin"; txt "verification"];
                times 0 30 (Char (CNot (CRange "0" "9")));
                txt "["; digits48; txt "]"]) ].

(** The context phrases of tier 4. *)
Definition ctx_this_code : regex :=       (* (?:use\s+)?this\s+code *)
  cat [opt (cat [txt "use"; ws1]); txt "this"; ws1; txt "code"].
Definition ctx_enter_code : regex :=      (* enter\s+(?:the\s+)?(?:following\s+)?code *)
  cat [txt "enter"; ws1; opt (cat [txt "the"; ws1]);
       opt (cat [txt "following"; ws1]); txt "code"].
Definition ctx_will_expire : regex :=     (* (?:will\s+)?expire *)
  cat [opt (cat [txt "will"; ws1]); txt "expire"].
Definition ctx_expire : regex := txt "expire".
Definition ctx_sign_in : regex :=         (* sign\s*(?:in|up) *)
  cat [txt "sign"; ws0; alts [txt "in"; txt "up"]].
Definition ctx_log_in : regex :=          (* log\s*in *)
  cat [txt "log"; ws0; txt "in"].
Definition ctx_verification : regex := txt "verification".
Definition ctx_one_time : regex :=        (* one[- ]?time *)
  cat [txt "one"; dash_sp_opt; txt "time"].
Definition ctx_code : regex :=            (* \bcode\b *)
  cat [WordB; txt "code"; WordB].

(** \b([0-9]{4,8})\b *)
Definition token : list regex := [WordB; digits48; WordB].

(** Tier 4: context proximity. *)
Definition contextPatterns : list pattern :=
  [ (* /(?:use\s+)?this\s+code[\s\S]{1,300}?\b([0-9]{4,8})\b/i *)
    (true, cat (ctx_this_code :: lazy 1 300 any :: token));
    (* /enter\s+(?:the\s+)?(?:following\s+)?code[\s\S]{1,300}?\b([0-9]{4,8})\b/i *)
    (true, cat (ctx_enter_code :: lazy 1 300 any :: token));
    (* /\b([0-9]{4,8})\b[\s\S]{1,100}?(?:will\s+)?expire/i *)
    (true, cat (token ++ [lazy 1 100 any; ctx_will_expire]));
    (* /expire[\s\S]{1,100}?\b([0-9]{4,8})\b/i *)
    (true, cat (ctx_expire :: lazy 1 100 any :: token));
    (* /sign\s*(?:in|up)[\s\S]{1,250}?\b([0-9]{4,8})\b/i *)
    (true, cat (ctx_sign_in :: lazy 1 250 any :: token));
    (* /log\s*in[\s\S]{1,250}?\b([0-9]{4,8})\b/i *)
    (true, cat (ctx_log_in :: lazy 1 250 any :: token));
    (* /verification[\s\S]{1,200}?\b([0-9]{4,8})\b/i *)
    (true, cat (ctx_verification :: lazy 1 200 any :: token));
    (* /one[- ]?time[\s\S]{1,150}?\b([0-9]{4,8})\b/i *)
    (true, cat (ctx_one_time :: lazy 1 150 any :: token));
    (* /\bcode\b[^0-9]{1,50}([0-9]{4,8})\b/i *)
    (true, cat [ctx_code; times 1 50 (Char (CNot (CRange "0" "9")));
                digits48; WordB]) ].

(** Tier 5: standalone formatted codes. *)
Definition standaloneFormatted : list pattern :=
  [ (* /\b([0-9]{3}[-\s][0-9]{3})\b/ *)
    (false, cat [WordB; Group 1 (cat [times 3 3 d09; dash_ws; times 3 3 d09]);
                 WordB]);
    (* /\b([0-9]{2}[-\s][0-9]{2}[-\s][0-9]{2})\b/ *)
    (false, cat [WordB; Group 1 (cat [times 2 2 d09; dash_ws; times 2 2 d09;
                                      dash_ws; times 2 2 d09]); WordB]);
    (* /\b([0-9]{4}[-\s][0-9]{4})\b/ *)
    (false, cat [WordB; Group 1 (cat [times 4 4 d09; dash_ws; times 4 4 d09]);
                 WordB]) ].

(** Tier 7: [new RegExp(`\b([0-9]{${len}})\b`, 'g')] *)
Definition fallbackLengths : list nat := [6; 4; 5; 8].
Definition fallbackPattern (len : nat) : regex :=
  cat [WordB; Group 1 (times len len d09); WordB].

(** The loop shared by tiers 1 to 5:
    [for (const pattern of patterns) { const match = clean.match(pattern);
       if (match && match\[1\]) { const code = processCode(match\[1\]);
                                  if (code) return ... } }] *)
Fixpoint try_patterns (clean : str) (patterns : list pattern) : option str :=
  match patterns with
  | [] => None
  | (i, p) :: ps =>
      match js_match i p clean with
      | Some m =>
          match group 1 m with
          | Some g =>
              if is_empty g then try_patterns clean ps
              else match processCode g with
                   | Some c => if is_empty c then try_patterns clean ps else Some c
                   | None => try_patterns clean ps
                   end
          | None => try_patterns clean ps
          end
      | None => try_patterns clean ps
      end
  end.

(** [for (const match of matches) { const code = processCode(match);
       if (code) return ... }] *)
Fixpoint first_code (candidates : list str) : option str :=
  match candidates with
  | [] => None
  | m :: ms =>
      match processCode m with
      | Some c => if is_empty c then first_code ms else Some c
      | None => first_code ms
      end
  end.

(** Tier 6: the window after each priority phrase. *)
Fixpoint smartContext (clean lowerClean : str) (phrases : list str) : option str :=
  match phrases with
  | [] => None
  | phrase :: ps =>
      match indexOf lowerClean phrase with
      | Some index =>
          let searchWindow :=
            substring clean index (Nat.min (length clean) (index + 400)) in
          let matches := match_g false (cat token) searchWindow in
          match first_code matches with
          | Some c => Some c
          | None => smartContext clean lowerClean ps
          end
      | None => smartContext clean lowerClean ps
      end
  end.

(** The groups 1 of the matches of tier 7 that are set and not empty. *)
Definition group1_of (m : match_result) : list str :=
  match group 1 m with
  | Some g => if is_empty g then [] else [g]
  | None => []
  end.

(** Tier 7: generic fallback by length priority. *)
Fixpoint fallback (clean : str) (lengths : list nat) : option str :=
  match lengths with
  | [] => None
  | len :: ls =>
      let matches := matchAll false (fallbackPattern len) clean in
      match first_code (flat_map group1_of matches) with
      | Some c => Some c
      | None => fallback clean ls
      end
  end.

(** extractOTP once [text] is known to be a non-empty string. *)
Definition extractOTP_str (text : str) : option otp :=
  let clean := cleanText text in
  if negb (hasVerificationContext clean) then None
  else match try_patterns clean explicitPatterns with
  | Some c => Some (Otp c high) | None =>
  match try_patterns clean formattedPatterns with
  | Some c => Some (Otp c high) | None =>
  match try_patterns clean quotedPatterns with
  | Some c => Some (Otp c high) | None =>
  match try_patterns clean contextPatterns with
  | Some c => Some (Otp c medium) | None =>
  match try_patterns clean standaloneFormatted with
  | Some c => Some (Otp c medium) | None =>
  match smartContext clean (toLowerCase clean) priorityPhrases with
  | Some c => Some (Otp c medium) | None =>
  match fallback clean fallbackLengths with
  | Some c => Some (Otp c low) | None => None
  end end end end end end end.

(** [None] stands for null. *)
Definition extractOTP (text : value) : completion (option otp) :=
  if negb (truthy text) || negb (typeof_string text) then Normal None
  else as_string text (fun s => Normal (extractOTP_str s)).

Definition tag (s : source) (r : otp) : email_otp :=
  EmailOtp (otp_code r) (otp_confidence r) s.

Definition extractOTPFromEmail (subject body : value)
  : completion (option email_otp) :=
  let try_body :=
    if truthy body then
      match extractOTP body with
      | Normal (Some bodyResult) => Normal (Some (tag from_body bodyResult))
      | Normal None => Normal None
      | Throw => Throw
      end
    else Normal None in
  if truthy subject then
    match extractOTP subject with
    | Normal (Some subjectResult) => Normal (Some (tag from_subject subjectResult))
    | Normal None => try_body
    | Throw => Throw
    end
  else try_body.

(** *** The popup script

    formatCode prepares the current code for display. *)

(** [None] stands for null and undefined, the state of a popup that has
    no code yet. *)
Definition formatCode (code : option str) : str :=
  match code with
  | None => []
  | Some code =>
      if is_empty code then []
      else if length code =? 6 then firstn 3 code ++ lit " " ++ skipn 3 code
      else code
  end.

(* ================================================================== *)
(** ** Vocabulary of the statements *)

(** [p] occurs in [s] as a substring. *)
Definition occurs (p s : str) : Prop := exists a b, s = a ++ p ++ b.

(** The digit-only and the alphanumeric-only form of a candidate. *)
Definition digits_only (s : str) : str := filter is_digit s.
Definition alnum_only (s : str) : str := filter is_alnum s.

(** Neither a dash nor white space. *)
Definition not_dash_space (c : ascii) : bool :=
  negb (Ascii.eqb "-" c || is_white c).

(** Length 4 to 8. *)
Definition len48 (s : str) : bool := (4 <=? length s) && (length s <=? 8).

(** The string [s] passes the Validator. *)
Definition passes (s : str) : bool :=
  match isValidOTP (VString s) with
  | Normal b => b
  | Throw => false
  end.

(** A code unit of [A-Z0-9]. *)
Definition is_code_char (c : ascii) : bool := is_upper c || is_digit c.

(** The rules of the Validator in the order in which isValidOTP applies
    them, each with the name the diagnostic entry point gives it.
    [rejects] is the test made on the cleaned code. *)
Record rule : Type := Rule { rule_name : str; rejects : str -> bool }.

Definition rule_order : list rule :=
  [ Rule (lit "Too short (min 4 chars)") (fun c => length c <? 4);
    Rule (lit "Too long (max 8 chars)") (fun c => 8 <? length c);
    Rule (lit "Not alphanumeric") (fun c => negb (test false re_alnum c));
    Rule (lit "All zeros") isAllZeros;
    Rule (lit "Sequential pattern") isSequential;
    Rule (lit "Repetitive pattern") isRepetitive;
    Rule (lit "Date pattern") (fun c => test false re_numeric c && isDatePattern c);
    Rule (lit "Year pattern") (fun c => test false re_numeric c && isYearPattern c);
    Rule (lit "Invalid alphanumeric mix") (fun c => negb (isValidAlphanumeric c));
    Rule (lit "CSS value") isCSSValue;
    Rule (lit "Likely color code") isLikelyColorCode ].

(** The name of the first rule of [rs] that rejects [cleaned]. *)
Fixpoint first_rejecting (rs : list rule) (cleaned : str) : option str :=
  match rs with
  | [] => None
  | r :: rs' =>
      if rejects r cleaned then Some (rule_name r)
      else first_rejecting rs' cleaned
  end.

(** The input guard both entry points start with. *)
Definition usable (v : value) : bool := truthy v && typeof_string v.

(** What the diagnostic entry point has to answer: the guard first, then
    the first rejecting rule on the cleaned code. *)
Definition first_failure (v : value) : option str :=
  match v with
  | VString s =>
      if is_empty s then Some (lit "Invalid input")
      else first_rejecting rule_order (clean_code s)
  | _ => Some (lit "Invalid input")
  end.

(** The digit [n] as a code unit, and the runs of consecutive digits. *)
Definition digit_char (n : nat) : ascii := ascii_of_nat (48 + n).
Definition ascending (len start : nat) : str := map digit_char (seq start len).
Definition descending (len start : nat) : str :=
  map (fun k => digit_char (start - k)) (seq 0 len).

(** No verification keyword occurs in the lower-cased text. *)
Definition no_keyword (text : str) : Prop :=
  forall keyword, In keyword VERIFICATION_KEYWORDS ->
                  ~ occurs keyword (toLowerCase text).

(** What the full pipeline produces on an optional text. *)
Definition pipeline (v : value) : option otp :=
  match extractOTP v with
  | Normal r => r
  | Throw => None
  end.

(** Scenario B. *)
Definition newsletter_subject : str := lit "Newsletter".
Definition sign_in_body : str :=
  lit "Thanks for signing in. Your verification code: 58-19-02".

(** *** What a pattern matches *)

(** [mrel i r s s']: the pattern [r] can take the matcher from [s] to
    [s'].  The relation leaves the priorities of the matcher out; every
    match that [rmatch] finds satisfies it. *)
Inductive mrel (i : bool) : regex -> mstate -> mstate -> Prop :=
| M_empty s : mrel i Empty s s
| M_char k x s :
    hd_error (rest s) = Some x -> cmatch i k x = true ->
    mrel i (Char k) s (advance 1 s)
| M_seq r1 r2 s s1 s2 :
    mrel i r1 s s1 -> mrel i r2 s1 s2 -> mrel i (Seq r1 r2) s s2
| M_alt_l r1 r2 s s' : mrel i r1 s s' -> mrel i (Alt r1 r2) s s'
| M_alt_r r1 r2 s s' : mrel i r2 s s' -> mrel i (Alt r1 r2) s s'
| M_rep_stop g hi r s : mrel i (Rep g 0 hi r) s s
| M_rep_iter g lo hi r s s1 s2 :
    hi <> Some 0 ->
    mrel i r s s1 ->
    mrel i (Rep g (pred lo) (option_map pred hi) r) s1 s2 ->
    mrel i (Rep g lo hi r) s s2
| M_group n r s s' : mrel i r s s' -> mrel i (Group n r) s (close_group n s s')
| M_backref_unset n s : lookup n (groups s) = None -> mrel i (Backref n) s s
| M_backref n a v s :
    lookup n (groups s) = Some (a, v) ->
    prefix_canon i v (rest s) = true ->
    mrel i (Backref n) s (advance (length v) s)
| M_bol s : seen s = [] -> mrel i Bol s s
| M_eol s : rest s = [] -> mrel i Eol s s
| M_wordb s :
    xorb (head_is_word (seen s)) (head_is_word (rest s)) = true ->
    mrel i WordB s s.

(** [w] is what lies between [s] and [s']. *)
Definition passed (s : mstate) (w : str) (s' : mstate) : Prop :=
  rest s = w ++ rest s' /\ seen s' = rev w ++ seen s.

(** The 256 code units. *)
Definition all_ascii : list ascii := map ascii_of_nat (seq 0 256).

(** Every code unit of the class [k] satisfies [P]. *)
Definition within (i : bool) (P : ascii -> bool) (k : cclass) : bool :=
  forallb (fun c => implb (cmatch i k c) (P c)) all_ascii.

(** [r] reads code units satisfying [P] only. *)
Fixpoint only (i : bool) (P : ascii -> bool) (r : regex) : bool :=
  match r with
  | Empty | Bol | Eol | WordB => true
  | Char k => within i P k
  | Seq a b | Alt a b => only i P a && only i P b
  | Rep _ _ _ a => only i P a
  | Group _ a => only i P a
  | Backref _ => false
  end.

(** Group [n] of [r] reads code units satisfying [P] only. *)
Fixpoint group_only (i : bool) (P : ascii -> bool) (n : nat) (r : regex) : bool :=
  match r with
  | Group m a => if n =? m then only i P a else group_only i P n a
  | Seq a b | Alt a b => group_only i P n a && group_only i P n b
  | Rep _ _ _ a => group_only i P n a
  | _ => true
  end.

(** Every code unit of [w] satisfies [P]. *)
Definition all_are (P : ascii -> bool) (w : str) : Prop :=
  Forall (fun c => P c = true) w.

(** Group [n], when set, holds code units satisfying [P] only. *)
Definition caps_ok (P : ascii -> bool) (n : nat) (g : list (nat * (nat * str))) : Prop :=
  match lookup n g with
  | Some (_, v) => all_are P v
  | None => True
  end.

(** No letter. *)
Definition no_letter (c : ascii) : bool := negb (is_letter c).

(** A digit, a dash or white space. *)
Definition digit_dash_space (c : ascii) : bool :=
  is_digit c || Ascii.eqb "-" c || is_white c.

(** A code of 4 to 8 digits. *)
Definition numeric_code (c : str) : bool := len48 c && forallb is_digit c.

(** Group 1 of the pattern reads digits, dashes and white space only. *)
Definition plain_group (p : pattern) : bool :=
  group_only (fst p) digit_dash_space 1 (snd p).

(** The patterns of tiers 1 to 5. *)
Definition tier_1_to_5 : list pattern :=
  explicitPatterns ++ formattedPatterns ++ quotedPatterns
  ++ contextPatterns ++ standaloneFormatted.

(** *** Tier 4 *)

(** The pattern [r] matches the part of [text] between the offsets [b]
    and [e]. *)
Definition spans (i : bool) (r : regex) (text : str) (b e : nat) : Prop :=
  exists s s', mrel i r s s' /\ subject s = text /\ pos s = b /\ pos s' = e.

(** The context phrase of each tier-4 pattern, in the order of
    [contextPatterns]. *)
Definition phrase_of (n : nat) : regex :=
  nth n [ctx_this_code; ctx_enter_code; ctx_will_expire; ctx_expire;
         ctx_sign_in; ctx_log_in; ctx_verification; ctx_one_time; ctx_code]
      Empty.

(** The largest distance each tier-4 pattern allows between its phrase
    and its token. *)
Definition window_of (n : nat) : nat :=
  nth n [300; 300; 100; 100; 250; 250; 200; 150; 50] 0.

(** [g] is a run of 4 to 8 digits that lies at offset [a] of [text]. *)
Definition token_at (text : str) (a : nat) (g : str) : Prop :=
  4 <= length g <= 8
  /\ all_are is_digit g
  /\ firstn (length g) (skipn a text) = g.

(** [r] has a group numbered [n]. *)
Fixpoint has_group (n : nat) (r : regex) : bool :=
  match r with
  | Group m a => (n =? m) || has_group n a
  | Seq a b | Alt a b => has_group n a || has_group n b
  | Rep _ _ _ a => has_group n a
  | _ => false
  end.

(** The tier-4 window as the specification words it: the token starts
    after the end of an occurrence of the context phrase, at most 300
    code units later. *)
Definition tier4_claim_as_stated : Prop :=
  forall text n p m a g,
    nth_error contextPatterns n = Some p ->
    js_match (fst p) (snd p) text = Some m ->
    lookup 1 (m_groups m) = Some (a, g) ->
    exists b e, spans true (phrase_of n) text b e /\ e < a <= e + 300.

(** A text in which the token comes before the phrase. *)
Definition text_before_phrase : str := lit "Your code 482915 will expire".

(** *** Notions used to evaluate the replacements of cleanText *)

(** Length of the longest prefix of [rs] made of code units in [p]. *)
Fixpoint run (p : ascii -> bool) (rs : str) : nat :=
  match rs with
  | x :: t => if p x then S (run p t) else 0
  | [] => 0
  end.

(** The greedy loop over one class, written on the text itself. *)
Fixpoint greedy (p : ascii -> bool) (k : cont) (lo : nat) (sn rs : str)
    (g : list (nat * (nat * str))) : option mstate :=
  match rs with
  | x :: t =>
      if p x then
        match greedy p k (pred lo) (x :: sn) t g with
        | Some r => Some r
        | None => if lo =? 0 then k (MState sn rs g) else None
        end
      else if lo =? 0 then k (MState sn rs g) else None
  | [] => if lo =? 0 then k (MState sn rs g) else None
  end.

(** The length of the text matched at offset [length sn]. *)
Definition match_len (i : bool) (r : regex) (sn rs : str) : option nat :=
  match match_here i r sn rs with
  | Some m => Some (length (m_text m))
  | None => None
  end.

(** [replace_from] for a matcher that only looks ahead. *)
Fixpoint rewrite (f : str -> option nat) (by_ : str) (rs : str) (skip : nat) : str :=
  match skip with
  | S k =>
      match rs with
      | [] => []
      | c :: t => rewrite f by_ t k
      end
  | 0 =>
      match f rs with
      | Some len =>
          by_ ++ match rs with
                 | [] => []
                 | c :: t =>
                     match len with
                     | 0 => c :: rewrite f by_ t 0
                     | S l => rewrite f by_ t l
                     end
                 end
      | None =>
          match rs with
          | [] => []
          | c :: t => c :: rewrite f by_ t 0
          end
      end
  end.

(** The space. *)
Definition sp : ascii := " "%char.

(** [cut K h y z]: [z] is [y] with some segments replaced by one space
    each; a replaced segment starts with a code unit in [h], and [K]
    holds of the rest of [y] at each code unit that is kept. *)
Inductive cut (K : str -> Prop) (h : ascii -> bool) : str -> str -> Prop :=
| cut_nil : cut K h [] []
| cut_keep c y z : K (c :: y) -> cut K h y z -> cut K h (c :: y) (c :: z)
| cut_seg c m y z :
    h c = true -> cut K h y z -> cut K h (c :: m ++ y) (sp :: z).

(** No match of [g] starts anywhere in [y]. *)
Definition clear (g : str -> option nat) (y : str) : Prop :=
  forall a rs, y = a ++ rs -> g rs = None.

(** [g] finds at the head of a text the words of [L], which are not
    empty and hold no space. *)
Record recognises (g : str -> option nat) (L : str -> Prop) : Prop := {
  rec_sound : forall z len, g z = Some len -> exists w t, z = w ++ t /\ L w;
  rec_complete : forall w t, L w -> g (w ++ t) <> None;
  rec_word : forall w, L w -> w <> [] /\ ~ In sp w
}.

(** Every [<] is the last code unit or is followed by [>]. *)
Fixpoint tagfree (y : str) : bool :=
  match y with
  | c :: t =>
      (if Ascii.eqb c "<"
       then match t with
            | d :: _ => Ascii.eqb d ">"
            | [] => true
            end
       else true) && tagfree t
  | [] => true
  end.

(** The text starts with white space. *)
Definition head_white (y : str) : bool :=
  match y with c :: _ => is_white c | [] => false end.

(** White space occurs only as single spaces. *)
Fixpoint norm_ws (y : str) : bool :=
  match y with
  | c :: t =>
      (if is_white c then Ascii.eqb c sp && negb (head_white t) else true)
      && norm_ws t
  | [] => true
  end.

(** Any code unit but [>]. *)
Definition not_gt (c : ascii) : bool := negb (Ascii.eqb ">" c).

(** The length of the match of /\s+/ at the head of [rs]. *)
Definition f_spaces (rs : str) : option nat :=
  if 1 <=? run is_white rs then Some (run is_white rs) else None.

(** The length of the match of /&nbsp;/i at the head of [rs]. *)
Definition f_nbsp (rs : str) : option nat :=
  if prefix_canon true (lit "&nbsp;") rs then Some 6 else None.

(** The length of the match of /&#\d+;/ at the head of [rs]. *)
Definition f_entity (rs : str) : option nat :=
  match rs with
  | a :: b :: t =>
      if Ascii.eqb "&" a && Ascii.eqb "#" b then
        if (1 <=? run is_digit t) && prefixb (lit ";") (skipn (run is_digit t) t)
        then Some (run is_digit t + 3) else None
      else None
  | _ => None
  end.

(** The texts /&nbsp;/i matches. *)
Definition L_nbsp (w : str) : Prop :=
  length w = 6 /\ prefix_canon true (lit "&nbsp;") w = true.

(** The texts /&#\d+;/ matches. *)
Definition L_entity (w : str) : Prop :=
  exists ds, ds <> [] /\ all_are is_digit ds
             /\ w = "&"%char :: "#"%char :: ds ++ [";"%char].

(** A [<] followed by a code unit other than [>]. *)
Definition taggy (rs : str) : Prop :=
  exists c t, rs = "<"%char :: c :: t /\ c <> ">"%char.

(** What cleanText leaves: no tag, no entity, single spaces only, and
    none of them at either end. *)
Definition normalized (y : str) : Prop :=
  tagfree y = true /\ clear f_nbsp y /\ clear f_entity y
  /\ norm_ws y = true /\ trim y = y.

(** *** Notions used for the single rules, for the provenance of a code
    and for the labelled patterns *)

(** The matcher answers with a match. *)
Definition found (r : option mstate) : bool :=
  match r with Some _ => true | None => false end.

(** The number a string of digits spells. *)
Definition decimal (s : str) : nat :=
  fold_left (fun acc c => 10 * acc + (ord c - 48)) s 0.

(** A month, a day of the month, the first half of a year 19xx or 20xx. *)
Definition is_month (n : nat) : bool := (1 <=? n) && (n <=? 12).
Definition is_day (n : nat) : bool := (1 <=? n) && (n <=? 31).
Definition is_century (n : nat) : bool := (n =? 19) || (n =? 20).

(** The ten digits. *)
Definition digits : list ascii := lit "0123456789".

(** [r] takes the next two code units when [P] holds of them and fails
    otherwise; [pair_group] says the same of [r] as group [n]. *)
Definition pair_step (r : regex) (P : ascii -> ascii -> bool) : Prop :=
  forall (k : cont) sn a b t g,
    rmatch false r k (MState sn (a :: b :: t) g) =
    if P a b then k (MState (b :: a :: sn) t g) else None.

Definition pair_group (n : nat) (r : regex) (P : ascii -> ascii -> bool) : Prop :=
  forall (k : cont) sn a b t g,
    rmatch false (Group n r) k (MState sn (a :: b :: t) g) =
    if P a b then k (MState (b :: a :: sn) t ((n, (length sn, [a; b])) :: g))
    else None.

(** Two code units as (0[1-9]|1[0-2]), as (0[1-9]|[12]\d|3[01]), as
    (19|20) and as \d{2} read them. *)
Definition mm (a b : ascii) : bool :=
  (Ascii.eqb "0" a && in_range "1" "9" b) || (Ascii.eqb "1" a && in_range "0" "2" b).
Definition dd (a b : ascii) : bool :=
  (Ascii.eqb "0" a && in_range "1" "9" b)
  || ((Ascii.eqb "1" a || Ascii.eqb "2" a) && is_digit b)
  || (Ascii.eqb "3" a && (Ascii.eqb "0" b || Ascii.eqb "1" b)).
Definition cc (a b : ascii) : bool :=
  (Ascii.eqb "1" a && Ascii.eqb "9" b) || (Ascii.eqb "2" a && Ascii.eqb "0" b).
Definition yy (a b : ascii) : bool := is_digit a && is_digit b.

(** The three patterns of six and the three patterns of eight code
    units, pair by pair. *)
Definition date_shapes6 (a b c d e f : ascii) : bool :=
  (mm a b && dd c d && yy e f) || (dd a b && mm c d && yy e f)
  || (yy a b && mm c d && dd e f).

Definition date_shapes8 (a b c d e f g h : ascii) : bool :=
  (mm a b && dd c d && cc e f && yy g h) || (dd a b && mm c d && cc e f && yy g h)
  || (cc a b && yy c d && mm e f && dd g h).

Open Scope string_scope.
(** The units of isCSSValue. *)
Definition css_units : list str := map lit
  [ "PX"; "EM"; "REM"; "PT"; "VH"; "VW"; "CH"; "EX"; "CM"; "MM"; "IN"; "PC" ].
Close Scope string_scope.

(** The pattern of a literal word. *)
Definition word (w : str) : regex := cat (map (fun c => Char (CLit c)) w).

(** [w] is the whole of [u], up to case when [i] is set. *)
Definition whole (i : bool) (u w : str) : bool :=
  prefix_canon i w u && is_empty (skipn (length w) u).

(** The same code unit up to case. *)
Definition same (a b : ascii) : bool := Ascii.eqb (upper a) (upper b).

(** A hexadecimal digit, in either case. *)
Definition is_hex (c : ascii) : bool :=
  is_digit c || in_range "A" "F" c || in_range "a" "f" c.

(** xyxyxy up to case, x and y hexadecimal digits. *)
Definition pairs3 (code : str) : bool :=
  match code with
  | [a; b; c; d; e; f] =>
      is_hex a && is_hex b && same a c && same b d && same a e && same b f
  | _ => false
  end.

(** Group [n], when set, holds a segment of [text]. *)
Definition caps_in (text : str) (n : nat) (g : list (nat * (nat * str))) : Prop :=
  match lookup n g with
  | Some (_, v) => occurs v text
  | None => True
  end.

(** [c] is what the Resolver makes of a segment of [clean] that holds
    digits, dashes and white space only. *)
Definition from_text (clean c : str) : Prop :=
  exists g, occurs g clean /\ all_are digit_dash_space g /\ processCode g = Some c.

(** The word a pattern made of literals spells. *)
Fixpoint literal (r : regex) : option str :=
  match r with
  | Empty => Some []
  | Char (CLit c) => Some [c]
  | Seq a b =>
      match literal a, literal b with
      | Some x, Some y => Some (x ++ y)
      | _, _ => None
      end
  | _ => None
  end.

(** Every text [r] matches holds a verification keyword. *)
Fixpoint names_keyword (r : regex) : bool :=
  match literal r with
  | Some w => hasVerificationContext w
  | None =>
      match r with
      | Seq a b => names_keyword a || names_keyword b
      | Alt a b => names_keyword a && names_keyword b
      | Group _ a => names_keyword a
      | Rep _ lo _ a => (0 <? lo) && names_keyword a
      | _ => false
      end
  end.

(** The patterns of tiers 1 and 2. *)
Definition labelled : list pattern := explicitPatterns ++ formattedPatterns.

(** The ascending and the descending runs of four digits. *)
Definition runs_of_four : list str := firstn 14 SEQUENTIAL_PATTERNS.

(** A sentence that carries the code [c] under an explicit label. *)
Definition labelled_sentence (c : str) : str :=
  lit "Your verification code is " ++ c.

(** The first pattern of tier 1 without its last two pieces. *)
Definition explicit_head : regex :=
  cat [alts [txt "verification"; txt "confirmation"; txt "security";
             cat [txt "auth"; opt (txt "entication")];
             cat [txt "one"; dash_sp_opt; txt "time"];
             txt "2fa";
             cat [txt "two"; dash_sp_opt; txt "factor"];
             txt "temporary"];
       ws0; txt "code"; ws0;
       alts [txt "is"; txt ":"; txt "="; txt ":"]].

(** Its last two pieces. *)
Definition explicit_tail : regex := cat [ws0; digits48].

Definition first_explicit : regex := snd (nth 0 explicitPatterns (true, Empty)).

(* ================================================================== *)
(** ** Code units: facts checked on all 256 of them *)

Ltac each_ascii c :=
  destruct c as [[] [] [] [] [] [] [] []]; vm_compute; try reflexivity; try discriminate.

Lemma upper_idem (c : ascii) : upper (upper c) = upper c.
Proof. each_ascii c. Qed.

Lemma upper_white (c : ascii) : is_white (upper c) = is_white c.
Proof. each_ascii c. Qed.

Lemma upper_dash (c : ascii) : Ascii.eqb "-" (upper c) = Ascii.eqb "-" c.
Proof. each_ascii c. Qed.

Lemma upper_alnum (c : ascii) :
  is_alnum c = true -> is_upper (upper c) || is_digit (upper c) = true.
Proof. each_ascii c. Qed.

Lemma digit_alnum (c : ascii) : is_digit c = true -> is_alnum c = true.
Proof. each_ascii c. Qed.

Lemma digit_not_letter (c : ascii) : is_digit c = true -> is_letter c = false.
Proof. each_ascii c. Qed.

Lemma alnum_split (c : ascii) : is_alnum c = is_letter c || is_digit c.
Proof. reflexivity. Qed.

(* ================================================================== *)
(** ** Strings *)

Lemma prefixb_app (p b : str) : prefixb p (p ++ b) = true.
Proof.
  induction p as [|x p IH]; simpl; [reflexivity|].
  now rewrite Ascii.eqb_refl, IH.
Qed.

Lemma prefixb_true (p s : str) : prefixb p s = true -> exists b, s = p ++ b.
Proof.
  revert s; induction p as [|x p IH]; intros s H.
  - now exists s.
  - destruct s as [|y s]; simpl in H; [discriminate|].
    apply andb_true_iff in H as [Hxy Hp].
    apply Ascii.eqb_eq in Hxy; subst y.
    destruct (IH _ Hp) as [b ->]. now exists b.
Qed.

Lemma indexOf_from_occurs (p s : str) (i j : nat) :
  indexOf_from p s i = Some j -> occurs p s.
Proof.
  revert i; induction s as [|c s IH]; intros i H; simpl in H.
  - destruct (prefixb p []) eqn:E; [|discriminate].
    destruct (prefixb_true _ _ E) as [b Hb]. exists [], b. exact Hb.
  - destruct (prefixb p (c :: s)) eqn:E.
    + destruct (prefixb_true _ _ E) as [b Hb]. exists [], b. exact Hb.
    + destruct (IH _ H) as (a & b & ->). exists (c :: a), b. reflexivity.
Qed.

Lemma occurs_indexOf_from (p a b : str) (i : nat) :
  indexOf_from p (a ++ p ++ b) i <> None.
Proof.
  revert i; induction a as [|c a IH]; intros i.
  - simpl. destruct (p ++ b) eqn:E; simpl;
      rewrite <- E, prefixb_app; discriminate.
  - simpl. destruct (prefixb p (c :: a ++ p ++ b)); [discriminate|]. apply IH.
Qed.

(** [includes] decides [occurs]. *)
Lemma includes_occurs (s p : str) : includes s p = true <-> occurs p s.
Proof.
  unfold includes, indexOf. split.
  - destruct (indexOf_from p s 0) eqn:E; [|discriminate].
    intros _. eapply indexOf_from_occurs; eauto.
  - intros (a & b & ->).
    destruct (indexOf_from p (a ++ p ++ b) 0) eqn:E; [reflexivity|].
    now apply occurs_indexOf_from in E.
Qed.

(* ================================================================== *)
(** ** Replacing a one-character pattern is filtering *)

Lemma match_here_char (i : bool) (k : cclass) (sn rs : str) :
  match_here i (Char k) sn rs =
  match rs with
  | x :: _ => if cmatch i k x then Some (MatchResult (length sn) [x] []) else None
  | [] => None
  end.
Proof.
  unfold match_here; cbn [rmatch rest]. destruct rs as [|x t]; [reflexivity|].
  destruct (cmatch i k x); [|reflexivity].
  cbn [advance rest seen groups]. unfold pos; cbn [seen length].
  replace (S (length sn) - length sn) with 1 by lia. reflexivity.
Qed.

Lemma replace_from_char (i : bool) (k : cclass) (sn rs : str) :
  replace_from i (Char k) [] sn rs 0 = filter (fun c => negb (cmatch i k c)) rs.
Proof.
  revert sn; induction rs as [|x t IH]; intros sn.
  - cbn [replace_from]. now rewrite match_here_char.
  - cbn [replace_from]. rewrite match_here_char.
    destruct (cmatch i k x) eqn:E; cbn [m_text length app]; rewrite IH;
      simpl; now rewrite E.
Qed.

Lemma replace_all_char (i : bool) (k : cclass) (s : str) :
  replace_all i (Char k) [] s = filter (fun c => negb (cmatch i k c)) s.
Proof. apply replace_from_char. Qed.

Lemma strip_non_digits (s : str) :
  replace_all false re_not_digit [] s = digits_only s.
Proof.
  unfold re_not_digit. rewrite replace_all_char. apply filter_ext.
  intros c; simpl. rewrite orb_false_r. apply negb_involutive.
Qed.

Lemma strip_non_alnum (s : str) :
  replace_all false re_not_alnum [] s = alnum_only s.
Proof.
  unfold re_not_alnum. rewrite replace_all_char. apply filter_ext.
  intros c; simpl. rewrite !orb_false_r, negb_involutive.
  unfold is_alnum, is_letter, is_lower, is_upper, is_digit.
  destruct (in_range "a" "z" c), (in_range "A" "Z" c), (in_range "0" "9" c);
    reflexivity.
Qed.

Lemma clean_code_filter (s : str) :
  clean_code s = toUpperCase (filter not_dash_space s).
Proof.
  unfold clean_code, re_dash_space. rewrite replace_all_char. reflexivity.
Qed.

Lemma filter_map_upper (s : str) :
  filter not_dash_space (map upper s) = map upper (filter not_dash_space s).
Proof.
  induction s as [|c s IH]; [reflexivity|].
  cbn [map filter].
  replace (not_dash_space (upper c)) with (not_dash_space c)
    by (unfold not_dash_space; now rewrite upper_dash, upper_white).
  destruct (not_dash_space c); cbn [map]; now rewrite IH.
Qed.

Lemma clean_code_upper (s : str) : clean_code (toUpperCase s) = clean_code s.
Proof.
  rewrite !clean_code_filter. unfold toUpperCase.
  rewrite filter_map_upper, map_map. apply map_ext, upper_idem.
Qed.

Lemma isValidOTP_str_upper (s : str) :
  isValidOTP_str (toUpperCase s) = isValidOTP_str s.
Proof. unfold isValidOTP_str. now rewrite clean_code_upper. Qed.

(** On a string the exported predicate is its body: the guard only
    answers early for the empty string, which the length rule refuses
    too. *)
Lemma isValidOTP_string (s : str) :
  isValidOTP (VString s) = Normal (isValidOTP_str s).
Proof.
  unfold isValidOTP; simpl. destruct s; reflexivity.
Qed.

Lemma passes_body (s : str) : passes s = isValidOTP_str s.
Proof. unfold passes. now rewrite isValidOTP_string. Qed.

(* ================================================================== *)
(** ** The Candidate Resolver *)

Lemma digits_only_code_chars (s : str) :
  Forall (fun c => is_code_char c = true) (digits_only s).
Proof.
  apply Forall_forall. intros c Hc. apply filter_In in Hc as [_ Hd].
  unfold is_code_char. now rewrite Hd, orb_true_r.
Qed.

Lemma upper_alnum_code_chars (s : str) :
  Forall (fun c => is_code_char c = true) (toUpperCase (alnum_only s)).
Proof.
  apply Forall_forall. intros c Hc. apply in_map_iff in Hc as (x & <- & Hx).
  apply filter_In in Hx as [_ Hx]. now apply upper_alnum.
Qed.

Lemma processCode_eq (candidate : str) :
  processCode candidate =
    if len48 (digits_only candidate) && passes (digits_only candidate)
    then Some (digits_only candidate)
    else if len48 (toUpperCase (alnum_only candidate))
            && passes (toUpperCase (alnum_only candidate))
    then Some (toUpperCase (alnum_only candidate))
    else None.
Proof.
  rewrite !passes_body. unfold processCode.
  destruct candidate as [|c t]; [reflexivity|]. cbn [is_empty].
  rewrite strip_non_digits, strip_non_alnum, isValidOTP_str_upper.
  unfold len48, toUpperCase. rewrite length_map. reflexivity.
Qed.

(** C1.  The Candidate Resolver returns the digit-only form of the
    candidate when that form has length 4 to 8 and passes the Validator;
    otherwise the upper-cased alphanumeric-only form when that form has
    length 4 to 8 and passes the Validator; otherwise nothing.  Every code
    it returns has length 4 to 8, is made of A-Z and 0-9 only, and is
    accepted by isValidOTP. *)
Theorem processCode_resolves (candidate : str) :
  processCode candidate =
    (if len48 (digits_only candidate) && passes (digits_only candidate)
     then Some (digits_only candidate)
     else if len48 (toUpperCase (alnum_only candidate))
             && passes (toUpperCase (alnum_only candidate))
     then Some (toUpperCase (alnum_only candidate))
     else None)
  /\ (forall resolved, processCode candidate = Some resolved ->
        4 <= length resolved <= 8
        /\ Forall (fun c => is_code_char c = true) resolved
        /\ isValidOTP (VString resolved) = Normal true).
Proof.
  split; [apply processCode_eq|].
  intros resolved. rewrite processCode_eq.
  destruct (len48 (digits_only candidate) && passes (digits_only candidate)) eqn:E1.
  - intros [= <-]. apply andb_true_iff in E1 as [L V].
    unfold len48 in L. apply andb_true_iff in L as [L1 L2].
    apply Nat.leb_le in L1, L2. rewrite passes_body in V.
    repeat split; try assumption.
    + apply digits_only_code_chars.
    + now rewrite isValidOTP_string, V.
  - destruct (len48 (toUpperCase (alnum_only candidate))
              && passes (toUpperCase (alnum_only candidate))) eqn:E2;
      [|discriminate].
    intros [= <-]. apply andb_true_iff in E2 as [L V].
    unfold len48 in L. apply andb_true_iff in L as [L1 L2].
    apply Nat.leb_le in L1, L2. rewrite passes_body in V.
    repeat split; try assumption.
    + apply upper_alnum_code_chars.
    + now rewrite isValidOTP_string, V.
Qed.

(* ================================================================== *)
(** ** The Validator and its diagnostic entry point *)

Lemma reason_first_rejecting (s : str) :
  getValidationFailureReason_str s = first_rejecting rule_order (clean_code s).
Proof.
  unfold getValidationFailureReason_str, rule_order, first_rejecting.
  cbn [rejects rule_name].
  repeat match goal with
         | |- context [if ?b then _ else _] => destruct b; try reflexivity
         end.
Qed.

Lemma valid_no_rejecting (s : str) :
  isValidOTP_str s =
  match first_rejecting rule_order (clean_code s) with
  | None => true
  | Some _ => false
  end.
Proof.
  unfold isValidOTP_str, rule_order, first_rejecting.
  cbn [rejects rule_name].
  destruct (length (clean_code s) <? 4); [reflexivity|]. cbn [orb].
  repeat match goal with
         | |- context [if ?b then _ else _] => destruct b; try reflexivity
         end.
Qed.

(** C2.  On every input, a string or not, empty or not, the diagnostic
    entry point answers null exactly when isValidOTP answers true; and
    the reason it gives is "Invalid input" when the guard refuses the
    input, and otherwise the name of the first rule, in the order in which
    isValidOTP applies the rules, that rejects the cleaned code. *)
Theorem reason_matches_predicate (v : value) :
  (getValidationFailureReason v = Normal None <-> isValidOTP v = Normal true)
  /\ getValidationFailureReason v = Normal (first_failure v)
  /\ isValidOTP v =
       Normal (match first_failure v with None => true | Some _ => false end).
Proof.
  assert (R : getValidationFailureReason v = Normal (first_failure v)).
  { unfold getValidationFailureReason.
    destruct v as [| | b | z | | s |]; cbn [truthy typeof_string negb orb];
      rewrite ?orb_true_r; try reflexivity.
    destruct s as [|c t]; [reflexivity|].
    cbn. now rewrite reason_first_rejecting. }
  assert (P : isValidOTP v =
              Normal (match first_failure v with None => true | Some _ => false end)).
  { unfold isValidOTP.
    destruct v as [| | b | z | | s |]; cbn [truthy typeof_string negb orb];
      rewrite ?orb_true_r; try reflexivity.
    destruct s as [|c t]; [reflexivity|].
    cbn -[isValidOTP_str clean_code rule_order].
    now rewrite valid_no_rejecting. }
  split; [|split; assumption].
  rewrite R, P. destruct (first_failure v); split; intros H; try discriminate;
    reflexivity.
Qed.

Lemma isSequential_occurs (cleaned run : str) :
  In run SEQUENTIAL_PATTERNS -> occurs run cleaned -> isSequential cleaned = true.
Proof.
  intros Hin Hocc. unfold isSequential. apply existsb_exists.
  exists run. split; [assumption|]. now apply includes_occurs.
Qed.

(** The fixed runs are the ascending and the descending runs of four and
    of six consecutive digits. *)
Lemma sequential_patterns_runs :
  SEQUENTIAL_PATTERNS =
    map (ascending 4) [0; 1; 2; 3; 4; 5; 6]
    ++ map (descending 4) [9; 8; 7; 6; 5; 4; 3]
    ++ map (ascending 6) [0; 1; 2; 3; 4]
    ++ map (descending 6) [9; 8; 7; 6; 5].
Proof. reflexivity. Qed.

(** Scenarios A, C, D, E and F. *)
Example scenario_A :
  extractOTPFromEmail (VString (lit "Your OTP is 294817")) (VString [])
  = Normal (Some (EmailOtp (lit "294817") high from_subject)).
Proof. vm_compute. reflexivity. Qed.

Example scenarios_C_to_F :
  map (fun s => isValidOTP (VString s))
      [lit "123456"; lit "123123"; lit "393939"; lit "A1B2C3"]
  = [Normal false; Normal false; Normal false; Normal true]
  /\ map (fun s => getValidationFailureReason (VString s))
         [lit "123456"; lit "123123"; lit "393939"; lit "A1B2C3"]
     = [Normal (Some (lit "Sequential pattern"));
        Normal (Some (lit "Date pattern"));
        Normal (Some (lit "Likely color code"));
        Normal None].
Proof. vm_compute. split; reflexivity. Qed.

(** C4.  A string whose cleaned form contains one of the fixed ascending
    or descending runs anywhere is refused by isValidOTP. *)
Theorem sequential_run_rejected (s run : str) :
  In run SEQUENTIAL_PATTERNS ->
  occurs run (clean_code s) ->
  isValidOTP (VString s) = Normal false.
Proof.
  intros Hin Hocc. rewrite isValidOTP_string. f_equal.
  unfold isValidOTP_str. rewrite (isSequential_occurs Hin Hocc).
  repeat match goal with
         | |- context [if ?b then _ else _] => destruct b; try reflexivity
         end.
Qed.

(** "123456" is one of the runs, and "961234" embeds the run "1234":
    both are refused. *)
Lemma sequential_run_rejected_witness :
  isValidOTP (VString (lit "123456")) = Normal false
  /\ isValidOTP (VString (lit "961234")) = Normal false.
Proof.
  split.
  - apply (@sequential_run_rejected (lit "123456") (lit "123456")).
    + vm_compute. do 15 right. left. reflexivity.
    + exists [], []. reflexivity.
  - apply (@sequential_run_rejected (lit "961234") (lit "1234")).
    + vm_compute. right. left. reflexivity.
    + exists (lit "96"), []. reflexivity.
Defined.

(* ================================================================== *)
(** ** The Source Selector and the Context Gate *)

Lemma extractOTP_total (v : value) : extractOTP v = Normal (pipeline v).
Proof.
  unfold pipeline, extractOTP.
  destruct v as [| | b | z | | s |]; cbn [truthy typeof_string negb orb];
    rewrite ?orb_true_r; try reflexivity.
  destruct s; reflexivity.
Qed.

Lemma pipeline_falsy (v : value) : truthy v = false -> pipeline v = None.
Proof.
  intros H. unfold pipeline, extractOTP. now rewrite H.
Qed.

Lemma email_result (subject body : value) :
  extractOTPFromEmail subject body =
  Normal match pipeline subject with
         | Some subjectResult => Some (tag from_subject subjectResult)
         | None =>
             match pipeline body with
             | Some bodyResult => Some (tag from_body bodyResult)
             | None => None
             end
         end.
Proof.
  unfold extractOTPFromEmail.
  assert (B : (if truthy body
               then match extractOTP body with
                    | Normal (Some bodyResult) =>
                        Normal (Some (tag from_body bodyResult))
                    | Normal None => Normal None
                    | Throw => Throw
                    end
               else Normal None) =
              Normal match pipeline body with
                     | Some bodyResult => Some (tag from_body bodyResult)
                     | None => None
                     end).
  { destruct (truthy body) eqn:T.
    - rewrite extractOTP_total. now destruct (pipeline body).
    - now rewrite (pipeline_falsy _ T). }
  rewrite B. destruct (truthy subject) eqn:T.
  - rewrite extractOTP_total. now destruct (pipeline subject).
  - now rewrite (pipeline_falsy _ T).
Qed.

(** C6.  extractOTPFromEmail answers with the code of the subject, tagged
    "subject", whenever the pipeline finds one there, whatever the body
    is; otherwise with the code of the body, tagged "body", when the
    pipeline finds one there; otherwise with null.  No case throws. *)
Theorem subject_then_body (subject body : value) :
  extractOTP subject = Normal (pipeline subject)
  /\ extractOTP body = Normal (pipeline body)
  /\ extractOTPFromEmail subject body =
     Normal match pipeline subject with
            | Some subjectResult => Some (tag from_subject subjectResult)
            | None =>
                match pipeline body with
                | Some bodyResult => Some (tag from_body bodyResult)
                | None => None
                end
            end.
Proof.
  split; [apply extractOTP_total|]. split; [apply extractOTP_total|].
  apply email_result.
Qed.

Lemma gate_closed (text : str) :
  no_keyword text -> hasVerificationContext text = false.
Proof.
  intros H. unfold hasVerificationContext.
  destruct (existsb _ _) eqn:E; [|reflexivity].
  apply existsb_exists in E as (keyword & Hin & Hinc).
  apply includes_occurs in Hinc. now apply H in Hinc.
Qed.

Lemma gate_closed_inv (text : str) :
  hasVerificationContext text = false -> no_keyword text.
Proof.
  unfold hasVerificationContext. intros H keyword Hin Hocc.
  apply includes_occurs in Hocc.
  assert (E : existsb (fun keyword => includes (toLowerCase text) keyword)
                      VERIFICATION_KEYWORDS = true)
    by (apply existsb_exists; eauto).
  congruence.
Qed.

(** C7.  When no verification keyword occurs in the normalized text, up
    to case, extractOTP answers null. *)
Theorem no_context_no_code (text : str) :
  no_keyword (cleanText text) -> extractOTP (VString text) = Normal None.
Proof.
  intros H. unfold extractOTP. cbn [truthy typeof_string negb orb as_string].
  rewrite orb_false_r. destruct text as [|c t]; [reflexivity|].
  cbn [is_empty negb]. unfold extractOTP_str.
  now rewrite (gate_closed H).
Qed.

(** A text without any keyword that carries a six-digit number the
    Validator accepts: nothing is extracted. *)
Lemma no_context_no_code_witness :
  no_keyword (cleanText (lit "Order 294817 shipped"))
  /\ occurs (lit "294817") (lit "Order 294817 shipped")
  /\ isValidOTP (VString (lit "294817")) = Normal true
  /\ extractOTP (VString (lit "Order 294817 shipped")) = Normal None.
Proof.
  assert (H : no_keyword (cleanText (lit "Order 294817 shipped")))
    by (apply gate_closed_inv; vm_compute; reflexivity).
  split; [exact H|]. split; [exists (lit "Order "), (lit " shipped"); reflexivity|].
  split; [vm_compute; reflexivity|].
  apply (no_context_no_code (lit "Order 294817 shipped") H).
Defined.

(** C9.  An input that is absent, no string, or the empty string makes
    extractOTP answer null and isValidOTP answer false, and two such
    inputs make extractOTPFromEmail answer null: each call completes
    normally. *)
Theorem unusable_input_no_match (v w : value) :
  usable v = false -> usable w = false ->
  extractOTP v = Normal None
  /\ isValidOTP v = Normal false
  /\ extractOTPFromEmail v w = Normal None.
Proof.
  assert (G : forall u, usable u = false ->
                        negb (truthy u) || negb (typeof_string u) = true).
  { intros u. unfold usable.
    destruct (truthy u), (typeof_string u); simpl; congruence. }
  assert (P : forall u, usable u = false -> pipeline u = None).
  { intros u Hu. unfold pipeline, extractOTP. now rewrite (G u Hu). }
  intros Hv Hw. repeat split.
  - unfold extractOTP. now rewrite (G v Hv).
  - unfold isValidOTP. now rewrite (G v Hv).
  - rewrite email_result, (P v Hv), (P w Hw). reflexivity.
Qed.

Lemma unusable_input_no_match_witness :
  extractOTP VNull = Normal None
  /\ isValidOTP VNull = Normal false
  /\ extractOTPFromEmail VNull VUndefined = Normal None.
Proof.
  apply (@unusable_input_no_match VNull VUndefined); reflexivity.
Defined.

(** C5.  Scenario B: the subject fails the Context Gate, every tier-1
    pattern fails on the body, the first tier-2 pattern fails and the
    second captures "58-19-02", the Resolver answers with its digit-only
    form, and the result is the code "581902" with confidence high and
    source body. *)
Theorem scenario_B :
  extractOTPFromEmail (VString newsletter_subject) (VString sign_in_body)
    = Normal (Some (EmailOtp (lit "581902") high from_body))
  /\ hasVerificationContext (cleanText newsletter_subject) = false
  /\ try_patterns (cleanText sign_in_body) explicitPatterns = None
  /\ map (fun p => option_map (group 1)
                     (js_match (fst p) (snd p) (cleanText sign_in_body)))
         formattedPatterns
     = [None; Some (Some (lit "58-19-02"))]
  /\ digits_only (lit "58-19-02") = lit "581902"
  /\ passes (lit "581902") = true
  /\ processCode (lit "58-19-02") = Some (lit "581902").
Proof. vm_compute. repeat split. Qed.

(* ================================================================== *)
(** ** Every match of the matcher is a match of the pattern *)

Lemma rep_loop_sound (i : bool) (r : regex) (g : bool) (k : cont) :
  (forall k s res, rmatch i r k s = Some res ->
                   exists s', mrel i r s s' /\ k s' = Some res) ->
  forall n lo s res,
    rep_loop (rmatch i r) g k lo n s = Some res ->
    exists s', mrel i (Rep g lo (Some n) r) s s' /\ k s' = Some res.
Proof.
  intros Hr. induction n as [|n IH]; intros lo s res H; cbn [rep_loop] in H.
  - destruct (lo =? 0) eqn:E; [|discriminate].
    apply Nat.eqb_eq in E; subst lo. exists s. split; [constructor|assumption].
  - assert (Iter : forall res',
      rmatch i r (fun s' => if (lo =? 0) && (pos s' =? pos s) then None
                            else rep_loop (rmatch i r) g k (pred lo) n s') s
        = Some res' ->
      exists s', mrel i (Rep g lo (Some (S n)) r) s s' /\ k s' = Some res').
    { intros res' H'. apply Hr in H' as (s1 & M1 & H1).
      destruct ((lo =? 0) && (pos s1 =? pos s)); [discriminate|].
      apply IH in H1 as (s2 & M2 & H2).
      exists s2. split; [|assumption].
      eapply M_rep_iter; [discriminate|eassumption|exact M2]. }
    assert (Stop : lo = 0 -> k s = Some res ->
      exists s', mrel i (Rep g lo (Some (S n)) r) s s' /\ k s' = Some res).
    { intros -> Hk. exists s. split; [constructor|assumption]. }
    destruct (0 <? lo) eqn:L.
    + now apply Iter.
    + apply Nat.ltb_ge in L. assert (lo = 0) by lia.
      destruct g.
      * destruct (rmatch i r _ s) eqn:E.
        -- injection H as <-. now apply Iter.
        -- now apply Stop.
      * destruct (k s) eqn:E.
        -- injection H as <-. now apply Stop.
        -- now apply Iter.
Qed.

Lemma rep_unbounded (i : bool) (r : regex) (g : bool) :
  forall n lo s s',
    mrel i (Rep g lo (Some n) r) s s' -> mrel i (Rep g lo None r) s s'.
Proof.
  induction n as [|n IH]; intros lo s s' H; inversion H; subst.
  - constructor.
  - congruence.
  - constructor.
  - eapply M_rep_iter; [discriminate|eassumption|]. apply IH. assumption.
Qed.

Theorem rmatch_sound (i : bool) (r : regex) :
  forall k s res, rmatch i r k s = Some res ->
                  exists s', mrel i r s s' /\ k s' = Some res.
Proof.
  induction r as [|c|r1 IH1 r2 IH2|r1 IH1 r2 IH2|g lo hi r IH|n r IH|n| | |];
    intros k s res H; cbn [rmatch] in H.
  - exists s. split; [constructor|assumption].
  - destruct (rest s) as [|x t] eqn:E; [discriminate|].
    destruct (cmatch i c x) eqn:C; [|discriminate].
    exists (advance 1 s). split; [|assumption].
    apply M_char with (x := x); [now rewrite E|assumption].
  - apply IH1 in H as (s1 & M1 & H). apply IH2 in H as (s2 & M2 & H).
    exists s2. split; [econstructor; eassumption|assumption].
  - destruct (rmatch i r1 k s) eqn:E.
    + injection H as <-. apply IH1 in E as (s1 & M1 & H).
      exists s1. split; [now apply M_alt_l|assumption].
    + apply IH2 in H as (s1 & M1 & H).
      exists s1. split; [now apply M_alt_r|assumption].
  - eapply rep_loop_sound in H as (s' & M & H); [|exact IH].
    exists s'. split; [|assumption].
    destruct hi as [h|]; [assumption|]. eapply rep_unbounded; eassumption.
  - apply IH in H as (s1 & M1 & H).
    exists (close_group n s s1). split; [now constructor|assumption].
  - destruct (lookup n (groups s)) as [[a v]|] eqn:E.
    + destruct (prefix_canon i v (rest s)) eqn:P; [|discriminate].
      exists (advance (length v) s). split; [|assumption].
      eapply M_backref; eassumption.
    + exists s. split; [now apply M_backref_unset|assumption].
  - destruct (is_empty (seen s)) eqn:E; [|discriminate].
    exists s. split; [|assumption]. constructor. now destruct (seen s).
  - destruct (is_empty (rest s)) eqn:E; [|discriminate].
    exists s. split; [|assumption]. constructor. now destruct (rest s).
  - destruct (xorb _ _) eqn:E; [|discriminate].
    exists s. split; [|assumption]. now constructor.
Qed.

Lemma passed_refl s : passed s [] s.
Proof. split; reflexivity. Qed.

Lemma passed_trans s w1 s1 w2 s2 :
  passed s w1 s1 -> passed s1 w2 s2 -> passed s (w1 ++ w2) s2.
Proof.
  intros [R1 S1] [R2 S2]. split.
  - now rewrite R1, R2, app_assoc.
  - now rewrite S2, S1, rev_app_distr, app_assoc.
Qed.

Lemma passed_unique s w w' s' : passed s w s' -> passed s w' s' -> w = w'.
Proof.
  intros [_ S1] [_ S2]. rewrite S1 in S2. apply app_inv_tail in S2.
  rewrite <- (rev_involutive w), S2. apply rev_involutive.
Qed.

Lemma passed_pos s w s' : passed s w s' -> pos s' = length w + pos s.
Proof.
  intros [_ S]. unfold pos. now rewrite S, length_app, length_rev.
Qed.

Lemma passed_firstn s w s' :
  passed s w s' -> firstn (pos s' - pos s) (rest s) = w.
Proof.
  intros H. rewrite (passed_pos H). destruct H as [R _]. rewrite R.
  replace (length w + pos s - pos s) with (length w + 0) by lia.
  now rewrite firstn_app_2, firstn_O, app_nil_r.
Qed.

Lemma advance_passed n s :
  exists w, passed s w (advance n s)
            /\ groups (advance n s) = groups s
            /\ w = firstn n (rest s).
Proof.
  revert s; induction n as [|n IH]; intros s.
  - exists []. repeat split.
  - cbn [advance]. destruct (rest s) as [|x t] eqn:E.
    + exists []. repeat split; simpl; now rewrite ?E.
    + destruct (IH (MState (x :: seen s) t (groups s))) as (w & [R S] & G & W).
      cbn [rest seen groups] in *. exists (x :: w). repeat split.
      * cbn [rest]. rewrite E. simpl. now f_equal.
      * rewrite S. simpl. now rewrite <- app_assoc.
      * assumption.
      * simpl. now f_equal.
Qed.

Lemma mrel_passed i r s s' : mrel i r s s' -> exists w, passed s w s'.
Proof.
  induction 1;
    try (now (exists []; apply passed_refl)).
  - destruct (advance_passed 1 s) as (w & P & _). now exists w.
  - destruct IHmrel1 as [w1 P1], IHmrel2 as [w2 P2].
    exists (w1 ++ w2). eapply passed_trans; eassumption.
  - assumption.
  - assumption.
  - destruct IHmrel1 as [w1 P1], IHmrel2 as [w2 P2].
    exists (w1 ++ w2). eapply passed_trans; eassumption.
  - destruct IHmrel as [w P]. now exists w.
  - destruct (advance_passed (length v) s) as (w & P & _). now exists w.
Qed.

Lemma mrel_subject i r s s' : mrel i r s s' -> subject s' = subject s.
Proof.
  intros H. destruct (mrel_passed H) as (w & R & S).
  unfold subject. now rewrite S, R, rev_app_distr, rev_involutive, <- app_assoc.
Qed.

Lemma in_all_ascii (c : ascii) : In c all_ascii.
Proof.
  unfold all_ascii. apply in_map_iff. exists (nat_of_ascii c). split.
  - apply ascii_nat_embedding.
  - apply in_seq. pose proof (nat_ascii_bounded c). lia.
Qed.

Lemma within_sound i P k c :
  within i P k = true -> cmatch i k c = true -> P c = true.
Proof.
  unfold within. intros H C. rewrite forallb_forall in H.
  specialize (H c (in_all_ascii c)). now rewrite C in H.
Qed.

Lemma mrel_only i P r s s' :
  mrel i r s s' -> only i P r = true ->
  exists w, passed s w s' /\ all_are P w.
Proof.
  induction 1; cbn [only]; intros O;
    try (now (exists []; split; [apply passed_refl|constructor])).
  - destruct (rest s) as [|y t] eqn:E; [discriminate|].
    cbn in H. injection H as ->.
    exists [x]. split.
    + cbn [advance]. rewrite E. split; cbn [rest seen]; [now rewrite E|reflexivity].
    + repeat constructor. eapply within_sound; eassumption.
  - apply andb_true_iff in O as [O1 O2].
    destruct (IHmrel1 O1) as (w1 & P1 & A1), (IHmrel2 O2) as (w2 & P2 & A2).
    exists (w1 ++ w2). split; [eapply passed_trans; eassumption|].
    apply Forall_app. now split.
  - apply andb_true_iff in O as [O1 O2]. auto.
  - apply andb_true_iff in O as [O1 O2]. auto.
  - destruct (IHmrel1 O) as (w1 & P1 & A1), (IHmrel2 O) as (w2 & P2 & A2).
    exists (w1 ++ w2). split; [eapply passed_trans; eassumption|].
    apply Forall_app. now split.
  - destruct (IHmrel O) as (w & Pw & A). now exists w.
  - discriminate.
Qed.

Lemma mrel_group_only i P n r s s' :
  mrel i r s s' -> group_only i P n r = true ->
  caps_ok P n (groups s) -> caps_ok P n (groups s').
Proof.
  induction 1; cbn [group_only]; intros O C; try assumption.
  - destruct (advance_passed 1 s) as (w & _ & G & _). now rewrite G.
  - apply andb_true_iff in O as [O1 O2]. auto.
  - apply andb_true_iff in O as [O1 O2]. auto.
  - apply andb_true_iff in O as [O1 O2]. auto.
  - auto.
  - unfold caps_ok, close_group. cbn [groups lookup].
    destruct (n =? n0) eqn:E.
    + destruct (mrel_only P H O) as (w & Pw & A).
      now rewrite (passed_firstn Pw).
    + apply IHmrel; assumption.
  - destruct (advance_passed (length v) s) as (w & _ & G & _). now rewrite G.
Qed.

Lemma match_here_sound i r sn rs m :
  match_here i r sn rs = Some m ->
  exists s', mrel i r (MState sn rs []) s'
             /\ m = MatchResult (length sn) (firstn (pos s' - length sn) rs) (groups s').
Proof.
  unfold match_here. destruct (rmatch i r Some (MState sn rs [])) as [s'|] eqn:E;
    [|discriminate].
  intros [= <-]. apply rmatch_sound in E as (s1 & M & [= ->]).
  exists s'. now split.
Qed.

Lemma search_sound i r rs : forall sn m,
  search i r sn rs = Some m ->
  exists sn' rs', rev sn' ++ rs' = rev sn ++ rs /\ match_here i r sn' rs' = Some m.
Proof.
  induction rs as [|c t IH]; intros sn m H; cbn [search] in H.
  - destruct (match_here i r sn []) eqn:E; [|discriminate].
    injection H as ->. now exists sn, [].
  - destruct (match_here i r sn (c :: t)) eqn:E.
    + injection H as ->. now exists sn, (c :: t).
    + apply IH in H as (sn' & rs' & Hs & Hm). exists sn', rs'. split; [|assumption].
      rewrite Hs. simpl. now rewrite <- app_assoc.
Qed.

Lemma scan_sound i r rs : forall sn skip m,
  In m (scan i r sn rs skip) ->
  exists sn' rs', rev sn' ++ rs' = rev sn ++ rs /\ match_here i r sn' rs' = Some m.
Proof.
  assert (Step : forall c (t sn sn' rs' : str),
             rev sn' ++ rs' = rev (c :: sn) ++ t ->
             rev sn' ++ rs' = rev sn ++ c :: t).
  { intros c t sn sn' rs' ->. simpl. now rewrite <- app_assoc. }
  induction rs as [|c t IH]; intros sn skip m H.
  - destruct skip; cbn [scan] in H; [|contradiction].
    destruct (match_here i r sn []) eqn:E; [|contradiction].
    destruct H as [<-|[]]. now exists sn, [].
  - destruct skip; cbn [scan] in H.
    + destruct (match_here i r sn (c :: t)) eqn:E.
      * destruct H as [<-|H]; [now exists sn, (c :: t)|].
        apply IH in H as (sn' & rs' & Hs & Hm). exists sn', rs'. split; auto.
      * apply IH in H as (sn' & rs' & Hs & Hm). exists sn', rs'. split; auto.
    + apply IH in H as (sn' & rs' & Hs & Hm). exists sn', rs'. split; auto.
Qed.

Lemma match_here_group_only i P n r sn rs m g :
  match_here i r sn rs = Some m ->
  group_only i P n r = true ->
  group n m = Some g -> all_are P g.
Proof.
  intros H O G. apply match_here_sound in H as (s' & M & ->).
  pose proof (mrel_group_only P n M O) as C. cbn [groups] in C.
  specialize (C I). unfold caps_ok in C. unfold group in G. cbn [m_groups] in G.
  destruct (lookup n (groups s')) as [[a v]|]; [|discriminate].
  now injection G as <-.
Qed.

Lemma match_here_only i P r sn rs m :
  match_here i r sn rs = Some m ->
  only i P r = true -> all_are P (m_text m).
Proof.
  intros H O. apply match_here_sound in H as (s' & M & ->).
  destruct (mrel_only P M O) as (w & Pw & A). cbn [m_text].
  pose proof (passed_firstn Pw) as F. unfold pos at 2 in F. cbn [seen rest] in F.
  now rewrite F.
Qed.

Lemma upper_digit (c : ascii) : is_digit c = true -> upper c = c.
Proof. each_ascii c. Qed.

Lemma digit_dash_space_no_letter (c : ascii) :
  digit_dash_space c = true -> no_letter c = true.
Proof. each_ascii c. Qed.

Lemma digit_is_plain (c : ascii) : is_digit c = true -> digit_dash_space c = true.
Proof. each_ascii c. Qed.

Lemma all_are_weaken (P Q : ascii -> bool) (w : str) :
  (forall c, P c = true -> Q c = true) -> all_are P w -> all_are Q w.
Proof. intros H. apply Forall_impl. exact H. Qed.

Lemma plain_letter_free (w : str) : all_are digit_dash_space w -> all_are no_letter w.
Proof. apply all_are_weaken, digit_dash_space_no_letter. Qed.

Lemma digits_letter_free (w : str) : all_are is_digit w -> all_are no_letter w.
Proof.
  intros H. apply plain_letter_free. revert H. apply all_are_weaken, digit_is_plain.
Qed.

Lemma letter_free_alnum (g : str) :
  all_are no_letter g -> toUpperCase (alnum_only g) = digits_only g.
Proof.
  unfold all_are, no_letter, toUpperCase, alnum_only, digits_only.
  induction 1 as [|c g Hc Hg IH]; [reflexivity|].
  cbn [filter]. rewrite alnum_split.
  apply negb_true_iff in Hc. rewrite Hc. cbn [orb].
  destruct (is_digit c) eqn:D; [|assumption].
  cbn [map]. now rewrite IH, (upper_digit _ D).
Qed.

Lemma processCode_letter_free (g c : str) :
  all_are no_letter g -> processCode g = Some c ->
  c = digits_only g /\ numeric_code c = true.
Proof.
  intros L. rewrite processCode_eq, (letter_free_alnum L).
  destruct (len48 (digits_only g) && passes (digits_only g)) eqn:E; [|discriminate].
  intros [= <-]. split; [reflexivity|].
  apply andb_true_iff in E as [E _]. unfold numeric_code. rewrite E.
  apply forallb_forall. intros x Hx. now apply filter_In in Hx.
Qed.

Lemma first_code_numeric (cands : list str) (c : str) :
  Forall (all_are no_letter) cands -> first_code cands = Some c ->
  numeric_code c = true.
Proof.
  induction 1 as [|g cands Hg Hc IH]; cbn [first_code]; [discriminate|].
  destruct (processCode g) as [c'|] eqn:E; [|assumption].
  destruct (is_empty c'); [assumption|]. intros [= <-].
  now destruct (processCode_letter_free Hg E).
Qed.

Lemma try_patterns_numeric (clean : str) (ps : list pattern) (c : str) :
  forallb plain_group ps = true -> try_patterns clean ps = Some c ->
  numeric_code c = true.
Proof.
  induction ps as [|[i p] ps IH]; cbn [try_patterns forallb]; [discriminate|].
  intros H. apply andb_true_iff in H as [Hp Hps]. specialize (IH Hps).
  destruct (js_match i p clean) as [m|] eqn:M; [|assumption].
  destruct (group 1 m) as [g|] eqn:G; [|assumption].
  destruct (is_empty g); [assumption|].
  destruct (processCode g) as [c'|] eqn:E; [|assumption].
  destruct (is_empty c'); [assumption|]. intros [= <-].
  apply search_sound in M as (sn' & rs' & _ & M).
  assert (L : all_are no_letter g).
  { apply plain_letter_free.
    eapply match_here_group_only; [exact M|exact Hp|exact G]. }
  now destruct (processCode_letter_free L E).
Qed.

Lemma smartContext_numeric (clean lowerClean : str) (phrases : list str) (c : str) :
  smartContext clean lowerClean phrases = Some c -> numeric_code c = true.
Proof.
  induction phrases as [|ph phs IH]; cbn [smartContext]; [discriminate|].
  destruct (indexOf lowerClean ph) as [index|]; [|assumption].
  destruct (first_code _) as [c'|] eqn:E; [|assumption].
  intros [= <-]. apply first_code_numeric in E; [assumption|].
  apply Forall_forall. intros g Hg. unfold match_g in Hg.
  apply in_map_iff in Hg as (m & <- & Hm).
  apply scan_sound in Hm as (sn' & rs' & _ & M).
  apply digits_letter_free.
  eapply match_here_only; [exact M|]. vm_compute. reflexivity.
Qed.

Lemma fallback_numeric (clean : str) (lengths : list nat) (c : str) :
  fallback clean lengths = Some c -> numeric_code c = true.
Proof.
  induction lengths as [|len ls IH]; cbn [fallback]; [discriminate|].
  destruct (first_code _) as [c'|] eqn:E; [|assumption].
  intros [= <-]. apply first_code_numeric in E; [assumption|].
  apply Forall_forall. intros g Hg.
  apply in_flat_map in Hg as (m & Hm & Hg). unfold group1_of in Hg.
  destruct (group 1 m) as [g'|] eqn:G; [|contradiction].
  destruct (is_empty g'); [contradiction|]. destruct Hg as [<-|[]].
  apply scan_sound in Hm as (sn' & rs' & _ & M).
  apply digits_letter_free.
  eapply match_here_group_only; [exact M| |exact G].
  vm_compute. reflexivity.
Qed.

Lemma extractOTP_str_numeric (text : str) (r : otp) :
  extractOTP_str text = Some r -> numeric_code (otp_code r) = true.
Proof.
  unfold extractOTP_str.
  destruct (negb (hasVerificationContext (cleanText text))); [discriminate|].
  repeat match goal with
  | |- context [try_patterns ?c ?ps] =>
      let E := fresh "E" in
      destruct (try_patterns c ps) eqn:E;
      [intros [= <-]; apply try_patterns_numeric in E; [exact E|vm_compute; reflexivity]|]
  end.
  destruct (smartContext _ _ _) eqn:E6;
    [intros [= <-]; now apply smartContext_numeric in E6|].
  destruct (fallback _ _) eqn:E7; [|discriminate].
  intros [= <-]. now apply fallback_numeric in E7.
Qed.


Lemma pipeline_numeric (v : value) (r : otp) :
  pipeline v = Some r -> numeric_code (otp_code r) = true.
Proof.
  unfold pipeline, extractOTP.
  destruct (negb (truthy v) || negb (typeof_string v)); [discriminate|].
  destruct v as [| | b | z | | s |]; try discriminate.
  cbn [as_string]. apply extractOTP_str_numeric.
Qed.

Lemma plain_groups : forallb plain_group tier_1_to_5 = true.
Proof. vm_compute. reflexivity. Qed.

Lemma processCode_plain (g : str) :
  all_are digit_dash_space g ->
  processCode g =
    if len48 (digits_only g) && passes (digits_only g)
    then Some (digits_only g) else None.
Proof.
  intros L. rewrite processCode_eq, (letter_free_alnum (plain_letter_free L)).
  now destruct (len48 (digits_only g) && passes (digits_only g)).
Qed.

(** C10.  Every code that extractOTP or extractOTPFromEmail returns is
    made of 4 to 8 digits.  The reason: group 1 of every pattern of tiers
    1 to 5 holds digits, dashes and white space only, and the candidates
    of tiers 6 and 7 hold digits only, so that the Resolver answers with
    the digit-only form or with nothing, never with its upper-cased
    alphanumeric form.  "A1B2C3" passes the Validator and is never
    extracted. *)
Theorem extraction_is_numeric :
  (forall text r,
      extractOTP text = Normal (Some r) -> numeric_code (otp_code r) = true)
  /\ (forall subject body e,
      extractOTPFromEmail subject body = Normal (Some e) ->
      numeric_code (code e) = true)
  /\ (forall p clean m g,
      In p tier_1_to_5 -> js_match (fst p) (snd p) clean = Some m ->
      group 1 m = Some g -> all_are digit_dash_space g)
  /\ (forall window g,
      In g (match_g false (cat token) window) -> all_are is_digit g)
  /\ (forall len clean m g,
      In m (matchAll false (fallbackPattern len) clean) ->
      group 1 m = Some g -> all_are is_digit g)
  /\ (forall g,
      all_are digit_dash_space g ->
      processCode g =
        if len48 (digits_only g) && passes (digits_only g)
        then Some (digits_only g) else None)
  /\ passes (lit "A1B2C3") = true
  /\ (forall text r,
      extractOTP text = Normal (Some r) -> otp_code r <> lit "A1B2C3").
Proof.
  assert (N : forall text r,
             extractOTP text = Normal (Some r) -> numeric_code (otp_code r) = true).
  { intros text r H. apply pipeline_numeric with (v := text).
    rewrite extractOTP_total in H. congruence. }
  split; [exact N|]. split; [|split; [|split; [|split; [|split; [|split]]]]].
  - intros subject body e. rewrite email_result.
    destruct (pipeline subject) as [r|] eqn:S.
    + intros [= <-]. apply (pipeline_numeric _ S).
    + destruct (pipeline body) as [r|] eqn:B; [|discriminate].
      intros [= <-]. apply (pipeline_numeric _ B).
  - intros p clean m g Hp M G.
    pose proof plain_groups as F. rewrite forallb_forall in F.
    apply search_sound in M as (sn' & rs' & _ & M).
    eapply match_here_group_only; [exact M|exact (F p Hp)|exact G].
  - intros window g Hg. unfold match_g in Hg.
    apply in_map_iff in Hg as (m & <- & Hm).
    apply scan_sound in Hm as (sn' & rs' & _ & M).
    eapply match_here_only; [exact M|]. vm_compute. reflexivity.
  - intros len clean m g Hm G.
    apply scan_sound in Hm as (sn' & rs' & _ & M).
    eapply match_here_group_only; [exact M| |exact G]. vm_compute. reflexivity.
  - exact processCode_plain.
  - vm_compute. reflexivity.
  - intros text r H E. apply N in H. rewrite E in H. vm_compute in H.
    discriminate.
Qed.

(** Scenario A: the code found in "Your OTP is 294817" is numeric. *)
Lemma extraction_is_numeric_witness :
  extractOTP (VString (lit "Your OTP is 294817"))
    = Normal (Some (Otp (lit "294817") high))
  /\ numeric_code (lit "294817") = true.
Proof.
  split; [vm_compute; reflexivity|].
  apply (proj1 extraction_is_numeric
               (VString (lit "Your OTP is 294817")) (Otp (lit "294817") high)).
  vm_compute. reflexivity.
Defined.

(* ================================================================== *)
(** ** Tier 4: where the token lies *)

Ltac inv H := inversion H; subst; clear H.
Ltac splits := repeat match goal with |- _ /\ _ => split end.

Lemma rest_skipn (s : mstate) : rest s = skipn (pos s) (subject s).
Proof.
  unfold pos, subject. rewrite <- length_rev.
  now rewrite skipn_app, skipn_all, Nat.sub_diag.
Qed.

Lemma passed_subject s w s' : passed s w s' -> subject s' = subject s.
Proof.
  intros [R S]. unfold subject.
  now rewrite S, R, rev_app_distr, rev_involutive, <- app_assoc.
Qed.

Lemma passed_token s g s' :
  passed s g s' -> firstn (length g) (skipn (pos s) (subject s)) = g.
Proof.
  intros [R _]. rewrite <- rest_skipn, R.
  replace (length g) with (length g + 0) by lia.
  now rewrite firstn_app_2, firstn_O, app_nil_r.
Qed.

Lemma mrel_other_group i n r s s' :
  mrel i r s s' -> has_group n r = false ->
  lookup n (groups s') = lookup n (groups s).
Proof.
  induction 1; cbn [has_group]; intros O; try reflexivity.
  - destruct (advance_passed 1 s) as (w & _ & G & _). now rewrite G.
  - apply orb_false_iff in O as [O1 O2]. now rewrite IHmrel2, IHmrel1.
  - apply orb_false_iff in O as [O1 O2]. auto.
  - apply orb_false_iff in O as [O1 O2]. auto.
  - now rewrite IHmrel2, IHmrel1.
  - apply orb_false_iff in O as [O1 O2]. unfold close_group. cbn [groups lookup].
    rewrite O1. auto.
  - destruct (advance_passed (length v) s) as (w & _ & G & _). now rewrite G.
Qed.

Lemma mrel_char_inv i k s s' :
  mrel i (Char k) s s' ->
  exists x t, rest s = x :: t /\ cmatch i k x = true
              /\ s' = MState (x :: seen s) t (groups s).
Proof.
  intros H. inv H. destruct (rest s) as [|y t] eqn:E; [discriminate|].
  match goal with H : hd_error _ = Some _ |- _ => cbn in H; injection H as -> end.
  exists x, t. repeat split; try assumption.
  cbn [advance]. now rewrite E.
Qed.

Lemma mrel_seq_inv i r1 r2 s s' :
  mrel i (Seq r1 r2) s s' -> exists s1, mrel i r1 s s1 /\ mrel i r2 s1 s'.
Proof. intros H. inv H. eauto. Qed.

Lemma mrel_empty_inv i s s' : mrel i Empty s s' -> s' = s.
Proof. intros H. now inv H. Qed.

Lemma mrel_wordb_inv i s s' : mrel i WordB s s' -> s' = s.
Proof. intros H. now inv H. Qed.

Lemma mrel_group_inv i n r s s' :
  mrel i (Group n r) s s' -> exists s1, mrel i r s s1 /\ s' = close_group n s s1.
Proof. intros H. inv H. eauto. Qed.

Lemma mrel_rep_inv i g lo hi r s s' :
  mrel i (Rep g lo hi r) s s' ->
  (lo = 0 /\ s' = s)
  \/ (hi <> Some 0 /\
      exists s1, mrel i r s s1
                 /\ mrel i (Rep g (pred lo) (option_map pred hi) r) s1 s').
Proof. intros H. inv H; [now left|right; eauto]. Qed.

(** A bounded repetition of one class: between [lo] and [hi] code units
    of the class, and the groups untouched. *)
Lemma rep_char i g k : forall hi lo s s',
  mrel i (Rep g lo (Some hi) (Char k)) s s' ->
  exists w, passed s w s' /\ lo <= length w <= hi
            /\ all_are (cmatch i k) w /\ groups s' = groups s.
Proof.
  assert (Stop : forall lo hi s, lo = 0 ->
            exists w, passed s w s /\ lo <= length w <= hi
                      /\ all_are (cmatch i k) w /\ groups s = groups s).
  { intros lo hi s ->. exists []. split; [apply passed_refl|].
    split; [cbn; lia|]. split; [constructor|reflexivity]. }
  induction hi as [|hi IH]; intros lo s s' H;
    apply mrel_rep_inv in H as [[-> ->]|[Hhi (s1 & M1 & M2)]];
    try (now apply Stop); [congruence|].
  cbn [option_map pred] in M2. apply IH in M2 as (w & Pw & L & A & G).
  apply mrel_char_inv in M1 as (x & t & E & C & ->).
  assert (P1 : passed s [x] (MState (x :: seen s) t (groups s))).
  { split; cbn [rest seen]; [now rewrite E|reflexivity]. }
  exists ([x] ++ w). split; [apply (passed_trans P1 Pw)|].
  split; [cbn; lia|]. split; [constructor; assumption|exact G].
Qed.

Lemma d09_digit i c : cmatch i (CRange "0" "9") c = true -> is_digit c = true.
Proof.
  apply within_sound. destruct i; vm_compute; reflexivity.
Qed.

(** The token ([0-9]{4,8}) as group 1. *)
Lemma digits48_token i s s' :
  mrel i digits48 s s' ->
  exists g, passed s g s' /\ 4 <= length g <= 8 /\ all_are is_digit g
            /\ groups s' = (1, (pos s, g)) :: groups s.
Proof.
  intros H. apply mrel_group_inv in H as (s1 & M & ->).
  apply rep_char in M as (w & Pw & L & A & G).
  exists w. repeat split; try apply Pw; try lia.
  - revert A. apply all_are_weaken, d09_digit.
  - unfold close_group. cbn [groups]. now rewrite (passed_firstn Pw), G.
Qed.

Lemma js_match_sound i r text m :
  js_match i r text = Some m ->
  exists s0 s', mrel i r s0 s' /\ subject s0 = text /\ groups s0 = []
                /\ m = MatchResult (pos s0) (firstn (pos s' - pos s0) (rest s0))
                                   (groups s').
Proof.
  intros H. apply search_sound in H as (sn & rs & Hs & H).
  apply match_here_sound in H as (s' & M & ->).
  exists (MState sn rs []), s'. splits; try assumption; reflexivity.
Qed.

Lemma token_after i (ph gap : regex) s0 s' :
  mrel i (cat (ph :: gap :: token)) s0 s' ->
  exists s1 s2 g,
    mrel i ph s0 s1 /\ mrel i gap s1 s2 /\ passed s2 g s'
    /\ 4 <= length g <= 8 /\ all_are is_digit g
    /\ lookup 1 (groups s') = Some (pos s2, g).
Proof.
  cbn [cat fold_right token]. intros H.
  apply mrel_seq_inv in H as (s1 & Mph & H).
  apply mrel_seq_inv in H as (s2 & Mgap & H).
  apply mrel_seq_inv in H as (s3 & Mb & H). apply mrel_wordb_inv in Mb as ->.
  apply mrel_seq_inv in H as (s4 & Mg & H).
  apply mrel_seq_inv in H as (s5 & Mb & H). apply mrel_wordb_inv in Mb as ->.
  apply mrel_empty_inv in H as ->.
  apply digits48_token in Mg as (g & Pg & Lg & Ag & G).
  exists s1, s2, g. splits; try assumption; try lia.
  rewrite G. reflexivity.
Qed.

Lemma token_at_passed text s g s' :
  subject s = text -> passed s g s' -> 4 <= length g <= 8 ->
  all_are is_digit g -> token_at text (pos s) g.
Proof.
  intros <- P L A. unfold token_at. splits; try assumption; try lia.
  apply (passed_token P).
Qed.

(** The patterns "phrase, 1 to W code units, token". *)
Lemma tier4_after (ph : regex) (W : nat) text m a g :
  js_match true (cat (ph :: lazy 1 W any :: token)) text = Some m ->
  lookup 1 (m_groups m) = Some (a, g) ->
  token_at text a g
  /\ exists b e, spans true ph text b e /\ e < a <= e + W.
Proof.
  intros H G. apply js_match_sound in H as (s0 & s' & M & S0 & _ & ->).
  cbn [m_groups] in G.
  apply token_after in M as (s1 & s2 & g' & Mph & Mgap & Pg & Lg & Ag & G').
  rewrite G' in G. injection G as <- <-.
  apply rep_char in Mgap as (w & Pw & Lw & _ & _).
  assert (S2 : subject s2 = text)
    by (now rewrite (passed_subject Pw), (mrel_subject Mph)).
  split; [eapply token_at_passed; [exact S2|exact Pg|exact Lg|exact Ag]|].
  exists (pos s0), (pos s1). split; [now exists s0, s1|].
  rewrite (passed_pos Pw). lia.
Qed.

(** The generic pattern: "code", 1 to 50 non-digits, token. *)
Lemma tier4_generic text m a g :
  js_match true (cat [ctx_code; times 1 50 (Char (CNot (CRange "0" "9")));
                      digits48; WordB]) text = Some m ->
  lookup 1 (m_groups m) = Some (a, g) ->
  token_at text a g
  /\ exists b e, spans true ctx_code text b e /\ e < a <= e + 50.
Proof.
  intros H G. apply js_match_sound in H as (s0 & s' & M & S0 & _ & ->).
  cbn [m_groups] in G. cbn [cat fold_right] in M.
  apply mrel_seq_inv in M as (s1 & Mph & M).
  apply mrel_seq_inv in M as (s2 & Mgap & M).
  apply mrel_seq_inv in M as (s3 & Mg & M).
  apply mrel_seq_inv in M as (s4 & Mb & M). apply mrel_wordb_inv in Mb as ->.
  apply mrel_empty_inv in M as ->.
  apply digits48_token in Mg as (g' & Pg & Lg & Ag & G').
  rewrite G' in G. cbn in G. injection G as <- <-.
  apply rep_char in Mgap as (w & Pw & Lw & _ & _).
  assert (S2 : subject s2 = text)
    by (now rewrite (passed_subject Pw), (mrel_subject Mph)).
  split; [eapply token_at_passed; [exact S2|exact Pg|exact Lg|exact Ag]|].
  exists (pos s0), (pos s1). split; [now exists s0, s1|].
  rewrite (passed_pos Pw). lia.
Qed.

(** The pattern "token, 1 to 100 code units, (will )expire": the phrase
    comes after the token. *)
Lemma tier4_before text m a g :
  js_match true (cat (token ++ [lazy 1 100 any; ctx_will_expire])) text = Some m ->
  lookup 1 (m_groups m) = Some (a, g) ->
  token_at text a g
  /\ exists b e, spans true ctx_will_expire text b e
                 /\ a + length g < b <= a + length g + 100.
Proof.
  intros H G. apply js_match_sound in H as (s0 & s' & M & S0 & _ & ->).
  cbn [m_groups] in G. cbn [cat fold_right token app] in M.
  apply mrel_seq_inv in M as (s1 & Mb & M). apply mrel_wordb_inv in Mb as ->.
  apply mrel_seq_inv in M as (s2 & Mg & M).
  apply mrel_seq_inv in M as (s3 & Mb & M). apply mrel_wordb_inv in Mb as ->.
  apply mrel_seq_inv in M as (s4 & Mgap & M).
  apply mrel_seq_inv in M as (s5 & Mph & M).
  apply mrel_empty_inv in M as ->.
  apply digits48_token in Mg as (g' & Pg & Lg & Ag & G').
  apply rep_char in Mgap as (w & Pw & Lw & _ & G4).
  rewrite (mrel_other_group 1 Mph), G4, G' in G by reflexivity.
  cbn in G. injection G as <- <-.
  split; [eapply token_at_passed; [exact S0|exact Pg|exact Lg|exact Ag]|].
  exists (pos s4), (pos s5). split.
  - exists s4, s5. splits; try assumption; try reflexivity.
    now rewrite (passed_subject Pw), (passed_subject Pg).
  - rewrite (passed_pos Pw), (passed_pos Pg). lia.
Qed.

(** C3, as amended.  A candidate of a tier-4 pattern is a run of 4 to 8
    digits of the text, next to an occurrence of the pattern's context
    phrase.  For the third pattern, "token ... (will) expire", the phrase
    starts 1 to 100 code units after the end of the token.  For the
    eight others the token starts after the end of the phrase, at a
    distance of 1 to W code units, W being 300, 300, 100, 250, 250, 200,
    150 and, for the generic "code" pattern, 50. *)
Theorem tier4_window (text : str) (n : nat) (p : pattern) (m : match_result)
    (a : nat) (g : str) :
  nth_error contextPatterns n = Some p ->
  js_match (fst p) (snd p) text = Some m ->
  lookup 1 (m_groups m) = Some (a, g) ->
  token_at text a g
  /\ exists b e,
       spans true (phrase_of n) text b e
       /\ if n =? 2 then a + length g < b <= a + length g + 100
          else e < a <= e + window_of n.
Proof.
  intros Hn.
  destruct n as [|[|[|[|[|[|[|[|[|n]]]]]]]]];
    try (injection Hn as <-;
         first [apply tier4_after|apply tier4_generic|apply tier4_before]).
  destruct n; discriminate.
Qed.

Lemma lits_inv i (p : str) : forall s s',
  mrel i (cat (map (fun c => Char (CLit c)) p)) s s' ->
  prefix_canon i p (rest s) = true /\ pos s' = pos s + length p.
Proof.
  induction p as [|c p IH]; intros s s' H; cbn [map cat fold_right] in H.
  - apply mrel_empty_inv in H as ->. split; [reflexivity|cbn; lia].
  - apply mrel_seq_inv in H as (s1 & Mc & H).
    apply mrel_char_inv in Mc as (x & t & E & C & ->).
    apply IH in H as [Hp Hpos]. cbn [rest] in Hp. split.
    + rewrite E. cbn [prefix_canon]. cbn [cmatch] in C. now rewrite C.
    + rewrite Hpos. unfold pos. cbn [seen length]. lia.
Qed.

(** Where the phrase (will )expire ends, "expire" is read, up to case. *)
Lemma will_expire_end text b e :
  spans true ctx_will_expire text b e ->
  6 <= e /\ prefix_canon true (lit "expire") (skipn (e - 6) text) = true.
Proof.
  intros (s & s' & M & S & _ & E). unfold ctx_will_expire in M.
  cbn [cat fold_right] in M.
  apply mrel_seq_inv in M as (s1 & Mo & M).
  apply mrel_seq_inv in M as (s2 & Mt & M).
  apply mrel_empty_inv in M as ->.
  pose proof (mrel_subject Mo) as S1.
  unfold txt in Mt. apply lits_inv in Mt as [Hp Hpos].
  rewrite rest_skipn, S1, S in Hp. cbn [lit String.list_ascii_of_string length] in Hpos.
  subst e. rewrite Hpos. split; [lia|].
  now replace (pos s1 + 6 - 6) with (pos s1) by lia.
Qed.

Lemma no_phrase_before_token (b e : nat) :
  spans true ctx_will_expire text_before_phrase b e -> 10 <= e.
Proof.
  intros Sp. apply will_expire_end in Sp as [L6 Hp].
  destruct (Nat.le_gt_cases 10 e) as [|Hlt]; [assumption|exfalso].
  assert (Cases : e = 6 \/ e = 7 \/ e = 8 \/ e = 9) by lia.
  destruct Cases as [ -> | [ -> | [ -> | -> ] ] ]; vm_compute in Hp; discriminate.
Qed.

(** C3, as stated, fails on "Your code 482915 will expire": extractOTP
    returns 482915 with confidence medium, the third tier-4 pattern
    captures it at offset 10, and no occurrence of the phrase
    "(will) expire" ends before offset 10. *)
Lemma tier4_token_precedes_phrase :
  extractOTP (VString text_before_phrase)
    = Normal (Some (Otp (lit "482915") medium))
  /\ option_map (fun p => js_match (fst p) (snd p) text_before_phrase)
                (nth_error contextPatterns 2)
     = Some (Some (MatchResult 10 (lit "482915 will expire")
                               [(1, (10, lit "482915"))]))
  /\ (forall b e, spans true (phrase_of 2) text_before_phrase b e -> 10 <= e)
  /\ ~ tier4_claim_as_stated.
Proof.
  split; [vm_compute; reflexivity|]. split; [vm_compute; reflexivity|].
  split; [exact no_phrase_before_token|].
  intros C.
  destruct (C text_before_phrase 2
              (true, cat (token ++ [lazy 1 100 any; ctx_will_expire]))
              (MatchResult 10 (lit "482915 will expire") [(1, (10, lit "482915"))])
              10 (lit "482915"))
    as (b & e & Sp & Hlt & _); try (vm_compute; reflexivity).
  apply no_phrase_before_token in Sp. lia.
Qed.

(** The window of the generic "code" pattern is 50 code units: a token
    50 code units after "code" is captured, one 51 code units after it is
    not. *)
Lemma generic_window_tight :
  option_map
    (fun p => option_map (group_start 1)
                (js_match (fst p) (snd p)
                   (lit "code" ++ repeat "."%char 50 ++ lit "482915")))
    (nth_error contextPatterns 8)
  = Some (Some (Some 54))
  /\ option_map
       (fun p => js_match (fst p) (snd p)
                   (lit "code" ++ repeat "."%char 51 ++ lit "482915"))
       (nth_error contextPatterns 8)
     = Some None.
Proof. vm_compute. split; reflexivity. Qed.

(** The first tier-4 pattern on "Use this code to sign in: 884172". *)
Lemma tier4_window_witness :
  token_at (lit "Use this code to sign in: 884172") 26 (lit "884172")
  /\ exists b e,
       spans true ctx_this_code (lit "Use this code to sign in: 884172") b e
       /\ e < 26 <= e + 300.
Proof.
  eapply (@tier4_window (lit "Use this code to sign in: 884172") 0);
    [reflexivity | vm_compute; reflexivity | reflexivity].
Defined.

(* ================================================================== *)
(** ** The Text Normalizer is idempotent *)

Lemma replace_from_rewrite i r f by_ :
  (forall sn rs, match_len i r sn rs = f rs) ->
  forall rs sn skip, replace_from i r by_ sn rs skip = rewrite f by_ rs skip.
Proof.
  intros H. induction rs as [|c t IH]; intros sn skip.
  - destruct skip; cbn [replace_from rewrite]; [|reflexivity].
    rewrite <- (H sn []). unfold match_len.
    now destruct (match_here i r sn []).
  - destruct skip; cbn [replace_from rewrite]; [|apply IH].
    rewrite <- (H sn (c :: t)). unfold match_len.
    destruct (match_here i r sn (c :: t)) as [m|].
    + f_equal. destruct (length (m_text m)); now rewrite IH.
    + now rewrite IH.
Qed.

(** *** Evaluating the matcher *)

Lemma advance_cons n x t sn g :
  advance (S n) (MState sn (x :: t) g) = advance n (MState (x :: sn) t g).
Proof. reflexivity. Qed.

Lemma rmatch_lits i (p : str) : forall k s,
  rmatch i (cat (map (fun c => Char (CLit c)) p)) k s =
  if prefix_canon i p (rest s) then k (advance (length p) s) else None.
Proof.
  induction p as [|c p IH]; intros k s; cbn [map cat fold_right rmatch].
  - now destruct s.
  - fold (cat (map (fun c => Char (CLit c)) p)).
    destruct s as [sn [|x t] g]; cbn [rest]; [reflexivity|].
    cbn [prefix_canon cmatch]. destruct (Ascii.eqb (canon i c) (canon i x)); [|reflexivity].
    cbn [andb advance rest seen groups]. rewrite IH. cbn [rest length].
    reflexivity.
Qed.

Lemma rmatch_txt i (w : String.string) k s :
  rmatch i (txt w) k s =
  if prefix_canon i (lit w) (rest s) then k (advance (length (lit w)) s) else None.
Proof. apply rmatch_lits. Qed.

Lemma rep_loop_greedy i c k : forall n lo sn rs g,
  lo + length rs <= n ->
  rep_loop (rmatch i (Char c)) true k lo n (MState sn rs g)
  = greedy (cmatch i c) k lo sn rs g.
Proof.
  induction n as [|n IH]; intros lo sn rs g Hn.
  - assert (lo = 0) by lia. subst lo. destruct rs; [reflexivity|cbn in Hn; lia].
  - destruct rs as [|x t]; cbn [rep_loop rmatch rest greedy].
    + destruct lo; reflexivity.
    + destruct (cmatch i c x) eqn:C.
      * cbn [advance rest seen groups].
        assert (E : (pos (MState (x :: sn) t g) =? pos (MState sn (x :: t) g))
                    = false)
          by (apply Nat.eqb_neq; unfold pos; cbn; lia).
        rewrite E, andb_false_r, IH by (cbn in Hn |- *; lia).
        destruct lo; [reflexivity|].
        cbn [Nat.ltb Nat.leb Nat.eqb pred].
        now destruct (greedy (cmatch i c) k lo (x :: sn) t g).
      * destruct lo; reflexivity.
Qed.

Lemma rmatch_plus i c k sn rs g :
  rmatch i (plus (Char c)) k (MState sn rs g) = greedy (cmatch i c) k 1 sn rs g.
Proof.
  unfold plus. cbn [rmatch rest]. apply rep_loop_greedy. lia.
Qed.

(** When the continuation refuses every position inside the run, the
    greedy loop stops exactly at the end of the run. *)
Lemma greedy_end p k : forall rs lo sn g,
  (forall sn' x t, p x = true -> k (MState sn' (x :: t) g) = None) ->
  greedy p k lo sn rs g =
  if lo <=? run p rs then k (advance (run p rs) (MState sn rs g)) else None.
Proof.
  intros rs lo sn g Hk. revert lo sn.
  induction rs as [|x t IH]; intros lo sn; cbn [greedy run].
  - destruct lo; reflexivity.
  - destruct (p x) eqn:P.
    + rewrite IH. rewrite advance_cons.
      destruct lo as [|lo]; cbn [pred Nat.leb Nat.eqb].
      * destruct (k (advance (run p t) (MState (x :: sn) t g))); [reflexivity|].
        now apply Hk.
      * destruct (lo <=? run p t); [|reflexivity].
        now destruct (k (advance (run p t) (MState (x :: sn) t g))).
    + destruct lo; reflexivity.
Qed.

(** With the accepting continuation the greedy loop takes the whole run. *)
Lemma greedy_all p : forall rs lo sn g,
  greedy p Some lo sn rs g =
  if lo <=? run p rs then Some (advance (run p rs) (MState sn rs g)) else None.
Proof.
  induction rs as [|x t IH]; intros lo sn g; cbn [greedy run].
  - destruct lo; reflexivity.
  - destruct (p x) eqn:P.
    + rewrite IH, advance_cons.
      destruct lo as [|lo]; cbn [pred Nat.leb Nat.eqb]; [reflexivity|].
      now destruct (lo <=? run p t).
    + destruct lo; reflexivity.
Qed.

(** *** Replacing segments by a space *)

Lemma tagfree_app_r (a y : str) : tagfree (a ++ y) = true -> tagfree y = true.
Proof.
  induction a as [|x a IH]; [trivial|]. cbn [app tagfree]. intros T.
  apply andb_true_iff in T as [_ T]. auto.
Qed.

Section Cut.
Variables (K : str -> Prop) (h : ascii -> bool).

Lemma clear_app_r g a y : clear g (a ++ y) -> clear g y.
Proof.
  intros H b rs ->. apply (H (a ++ b) rs). now rewrite app_assoc.
Qed.

Lemma clear_cons g c y : clear g (c :: y) -> clear g y.
Proof. apply (@clear_app_r g [c] y). Qed.

Lemma clear_head g y : clear g y -> g y = None.
Proof. intros H. now apply (H [] y). Qed.

Lemma cut_prefix y z :
  cut K h y z ->
  forall w t, z = w ++ t -> ~ In sp w -> exists t', y = w ++ t'.
Proof.
  induction 1 as [|c y z Hk Hc IH|c m y z Hh Hc IH]; intros w t E N.
  - exists []. destruct w; [reflexivity|discriminate].
  - destruct w as [|x w]; [now exists (c :: y)|].
    injection E as <- E. destruct (IH w t E) as [t' ->].
    + intros I. apply N. now right.
    + now exists t'.
  - destruct w as [|x w]; [now exists (c :: m ++ y)|].
    injection E as <- E. exfalso. apply N. now left.
Qed.

Lemma cut_weaken (K' : str -> Prop) y z :
  cut K h y z -> (forall a rs, y = a ++ rs -> K' rs) -> cut K' h y z.
Proof.
  induction 1 as [|c y z Hk Hc IH|c m y z Hh Hc IH]; intros H.
  - constructor.
  - constructor; [now apply (H [])|].
    apply IH. intros a rs ->. now apply (H (c :: a)).
  - constructor; [assumption|].
    apply IH. intros a rs ->. apply (H (c :: m ++ a)).
    cbn [app]. now rewrite app_assoc.
Qed.

Lemma cut_tagfree y z :
  (forall c, h c = true -> c <> ">"%char) ->
  cut K h y z -> tagfree y = true -> tagfree z = true.
Proof.
  intros Hh. induction 1 as [|c y z Hk Hc IH|c m y z Hc Hcut IH]; intros T.
  - reflexivity.
  - cbn [tagfree] in T |- *. apply andb_true_iff in T as [T1 T2].
    rewrite (IH T2), andb_true_r.
    destruct (Ascii.eqb c "<"); [|reflexivity].
    inversion Hc as [|d y' z' Hk' Hc' E1 E2|d m' y' z' Hd Hc' E1 E2]; subst.
    + reflexivity.
    + exact T1.
    + apply Ascii.eqb_eq in T1. now apply Hh in Hd.
  - cbn [tagfree]. replace (Ascii.eqb sp "<") with false by reflexivity.
    cbn [andb]. apply IH. apply (tagfree_app_r (c :: m) y T).
Qed.
End Cut.

Section Recognise.
Variables (g : str -> option nat) (L : str -> Prop).
Hypothesis R : recognises g L.

Lemma rec_nil : g [] = None.
Proof.
  destruct (g []) as [len|] eqn:E; [|reflexivity].
  destruct (rec_sound R _ E) as (w & t & Hw & Lw).
  destruct (rec_word R _ Lw) as [Hne _].
  symmetry in Hw. apply app_eq_nil in Hw as [-> _]. contradiction.
Qed.

Lemma rec_no_space z : g (sp :: z) = None.
Proof.
  destruct (g (sp :: z)) as [len|] eqn:E; [|reflexivity].
  destruct (rec_sound R _ E) as (w & t & Hw & Lw).
  destruct (rec_word R _ Lw) as [Hne Hsp].
  destruct w as [|x w]; [contradiction|]. injection Hw as <- _.
  exfalso. apply Hsp. now left.
Qed.

Lemma cut_clear h y z : cut (fun rs => g rs = None) h y z -> clear g z.
Proof.
  induction 1 as [|c y z Hk Hc IH|c m y z Hh Hc IH]; intros a rs E.
  - symmetry in E. apply app_eq_nil in E as [_ ->]. apply rec_nil.
  - destruct a as [|x a].
    + cbn in E. subst rs.
      destruct (g (c :: z)) as [len|] eqn:G; [|reflexivity]. exfalso.
      destruct (rec_sound R _ G) as (w & t & Hw & Lw).
      destruct (rec_word R _ Lw) as [Hne Hsp].
      destruct w as [|x w]; [contradiction|]. injection Hw as <- Hw.
      destruct (cut_prefix Hc _ _ Hw) as [t' ->].
      * intros I. apply Hsp. now right.
      * apply (rec_complete R (c :: w) t' Lw). exact Hk.
    + injection E as _ E. now apply (IH a rs).
  - destruct a as [|x a].
    + cbn in E. subst rs. apply rec_no_space.
    + injection E as _ E. now apply (IH a rs).
Qed.

Lemma cut_clear_other K h y z : cut K h y z -> clear g y -> clear g z.
Proof.
  intros C H. apply cut_clear with (h := h) (y := y).
  eapply cut_weaken; [exact C|exact H].
Qed.

Lemma clear_mid a z b : clear g (a ++ z ++ b) -> clear g z.
Proof.
  intros H a' rs ->.
  destruct (g rs) as [len|] eqn:G; [|reflexivity]. exfalso.
  destruct (rec_sound R _ G) as (w & t & -> & Lw).
  apply (rec_complete R w (t ++ b) Lw).
  apply (H (a ++ a')). now rewrite <- !app_assoc.
Qed.
End Recognise.

Section Rewrite.
Variables (f : str -> option nat) (h : ascii -> bool).
Hypothesis f_nil : f [] = None.
Hypothesis f_len : forall rs len, f rs = Some len ->
  0 < len <= length rs /\ exists c t, rs = c :: t /\ h c = true.

Lemma rewrite_cut : forall rs skip,
  skip <= length rs ->
  cut (fun rs => f rs = None) h (skipn skip rs) (rewrite f [sp] rs skip).
Proof.
  induction rs as [|c t IH]; intros skip Hs.
  - assert (skip = 0) by (cbn in Hs; lia). subst skip.
    cbn [rewrite skipn]. rewrite f_nil. constructor.
  - destruct skip as [|k]; cbn [rewrite skipn].
    + destruct (f (c :: t)) as [len|] eqn:F.
      * destruct (f_len F) as ([L1 L2] & c' & t' & E & Hc).
        injection E as <- <-.
        destruct len as [|l]; [lia|]. cbn [app].
        rewrite <- (firstn_skipn l t) at 1.
        constructor; [assumption|]. apply IH. cbn in L2. lia.
      * constructor; [assumption|]. apply (IH 0). lia.
    + apply IH. cbn in Hs. lia.
Qed.

Lemma rewrite_id : forall y, clear f y -> rewrite f [sp] y 0 = y.
Proof.
  induction y as [|c t IH]; intros H; cbn [rewrite].
  - now rewrite f_nil.
  - rewrite (clear_head H). f_equal. apply IH. eapply clear_cons, H.
Qed.
End Rewrite.

(** *** The matches of the entity and white-space patterns *)

Lemma run_le p rs : run p rs <= length rs.
Proof.
  induction rs as [|x t IH]; cbn; [lia|]. destruct (p x); lia.
Qed.

Lemma pos_advance : forall n sn rs g,
  n <= length rs -> pos (advance n (MState sn rs g)) = length sn + n.
Proof.
  induction n as [|n IH]; intros sn rs g H.
  - cbn. unfold pos. cbn. lia.
  - destruct rs as [|x t]; [cbn in H; lia|].
    rewrite advance_cons, IH by (cbn in H; lia). cbn. lia.
Qed.

Lemma rest_advance : forall n sn rs g,
  rest (advance n (MState sn rs g)) = skipn n rs.
Proof.
  induction n as [|n IH]; intros sn rs g; [reflexivity|].
  destruct rs as [|x t]; [reflexivity|]. now rewrite advance_cons, IH.
Qed.

Lemma match_len_some i r sn rs s' n :
  rmatch i r Some (MState sn rs []) = Some s' ->
  pos s' = length sn + n -> n <= length rs ->
  match_len i r sn rs = Some n.
Proof.
  intros H P L. unfold match_len, match_here. rewrite H. cbn [m_text].
  rewrite P. replace (length sn + n - length sn) with n by lia.
  now rewrite length_firstn, Nat.min_l.
Qed.

Lemma match_len_none i r sn rs :
  rmatch i r Some (MState sn rs []) = None -> match_len i r sn rs = None.
Proof. intros H. unfold match_len, match_here. now rewrite H. Qed.

Lemma prefix_canon_len i (p : str) : forall rs,
  prefix_canon i p rs = true -> length p <= length rs.
Proof.
  induction p as [|c p IH]; intros rs H; [cbn; lia|].
  destruct rs as [|x t]; [discriminate|]. cbn in H |- *.
  apply andb_true_iff in H as [_ H]. apply IH in H. lia.
Qed.

Lemma prefix_canon_false (p : str) : forall rs,
  prefix_canon false p rs = prefixb p rs.
Proof.
  induction p as [|c p IH]; intros rs; [reflexivity|].
  destruct rs as [|x t]; [reflexivity|]. cbn. now rewrite IH.
Qed.

Lemma match_len_spaces sn rs : match_len false re_spaces sn rs = f_spaces rs.
Proof.
  unfold f_spaces.
  assert (E : rmatch false re_spaces Some (MState sn rs []) =
              if 1 <=? run is_white rs
              then Some (advance (run is_white rs) (MState sn rs []))
              else None).
  { unfold re_spaces, ws. rewrite rmatch_plus. apply greedy_all. }
  destruct (1 <=? run is_white rs).
  - eapply match_len_some; [exact E| |apply run_le].
    apply pos_advance, run_le.
  - now apply match_len_none.
Qed.

Lemma match_len_nbsp sn rs : match_len true re_nbsp sn rs = f_nbsp rs.
Proof.
  unfold f_nbsp.
  assert (E : rmatch true re_nbsp Some (MState sn rs []) =
              if prefix_canon true (lit "&nbsp;") rs
              then Some (advance 6 (MState sn rs []))
              else None).
  { unfold re_nbsp. now rewrite rmatch_txt. }
  destruct (prefix_canon true (lit "&nbsp;") rs) eqn:P.
  - apply prefix_canon_len in P. cbn in P.
    eapply match_len_some; [exact E| |exact P]. now apply pos_advance.
  - now apply match_len_none.
Qed.

Lemma digit_not_semicolon (c : ascii) : is_digit c = true -> Ascii.eqb ";" c = false.
Proof. each_ascii c. Qed.

Lemma advance_add : forall n m s, advance m (advance n s) = advance (n + m) s.
Proof.
  induction n as [|n IH]; intros m s; [reflexivity|].
  destruct s as [sn [|x t] g].
  - cbn. now destruct m.
  - cbn [Nat.add]. now rewrite !advance_cons, IH.
Qed.

Lemma f_entity_len rs n : f_entity rs = Some n -> 0 < n <= length rs.
Proof.
  destruct rs as [|a [|b t]]; try discriminate. cbn [f_entity].
  destruct (Ascii.eqb "&" a && Ascii.eqb "#" b); [|discriminate].
  destruct (1 <=? run is_digit t) eqn:N; [|discriminate]. cbn [andb].
  destruct (skipn (run is_digit t) t) as [|x r] eqn:S; [discriminate|].
  destruct (prefixb _ _); [|discriminate]. intros [= <-].
  apply (f_equal (@length ascii)) in S. rewrite length_skipn in S.
  cbn in S |- *. lia.
Qed.

Lemma rmatch_entity sn rs :
  rmatch false re_entity Some (MState sn rs []) =
  match f_entity rs with
  | Some n => Some (advance n (MState sn rs []))
  | None => None
  end.
Proof.
  unfold re_entity. cbn [cat fold_right rmatch].
  rewrite rmatch_txt. cbn [rest]. rewrite prefix_canon_false.
  destruct rs as [|a [|b t]]; try reflexivity.
  - cbn [prefixb lit String.list_ascii_of_string f_entity].
    now rewrite andb_false_r.
  - change (prefixb (lit "&#") (a :: b :: t))
      with (Ascii.eqb "&" a && (Ascii.eqb "#" b && true)).
    cbn [f_entity]. rewrite andb_true_r.
    destruct (Ascii.eqb "&" a && Ascii.eqb "#" b); [|reflexivity].
    change (advance (length (lit "&#")) (MState sn (a :: b :: t) []))
      with (MState (b :: a :: sn) t []).
    unfold digit. rewrite rmatch_plus, greedy_end.
    + change (cmatch false CDigit) with is_digit.
      destruct (1 <=? run is_digit t); [|reflexivity]. cbn [andb].
      rewrite rmatch_txt, prefix_canon_false, rest_advance.
      destruct (prefixb (lit ";") (skipn (run is_digit t) t)); [|reflexivity].
      cbn [rmatch]. rewrite advance_add.
      replace (run is_digit t + 3) with (S (S (run is_digit t + length (lit ";"))))
        by (cbn; lia).
      now rewrite !advance_cons.
    + intros sn' x t' D. rewrite rmatch_txt, prefix_canon_false.
      change (cmatch false CDigit x) with (is_digit x) in D.
      cbn [rest].
      change (prefixb (lit ";") (x :: t')) with (Ascii.eqb ";" x && true).
      now rewrite (digit_not_semicolon _ D).
Qed.

Lemma match_len_entity sn rs : match_len false re_entity sn rs = f_entity rs.
Proof.
  pose proof (rmatch_entity sn rs) as E.
  destruct (f_entity rs) as [n|] eqn:F; [|now apply match_len_none].
  apply f_entity_len in F.
  eapply match_len_some; [exact E| |lia]. apply pos_advance. lia.
Qed.

(** *** The languages of the two entity patterns *)

Lemma prefix_canon_firstn i (p : str) : forall z,
  prefix_canon i p z = true -> prefix_canon i p (firstn (length p) z) = true.
Proof.
  induction p as [|c p IH]; intros z H; [reflexivity|].
  destruct z as [|x z]; [discriminate|]. cbn in H |- *.
  apply andb_true_iff in H as [H1 H2]. now rewrite H1, IH.
Qed.

Lemma prefix_canon_app i (p : str) : forall w t,
  prefix_canon i p w = true -> prefix_canon i p (w ++ t) = true.
Proof.
  induction p as [|c p IH]; intros w t H; [reflexivity|].
  destruct w as [|x w]; [discriminate|]. cbn in H |- *.
  apply andb_true_iff in H as [H1 H2]. now rewrite H1, IH.
Qed.

Lemma nbsp_no_space (w : str) : L_nbsp w -> ~ In sp w.
Proof.
  intros [Hl Hp] I.
  do 7 (destruct w as [|? w]; try discriminate).
  cbn in Hp. repeat (apply andb_true_iff in Hp as [? Hp]).
  cbn in I.
  repeat (destruct I as [I|I]; [subst; vm_compute in *; discriminate|]).
  exact I.
Qed.

Lemma nbsp_recognised : recognises f_nbsp L_nbsp.
Proof.
  split.
  - intros z len H. unfold f_nbsp in H.
    destruct (prefix_canon true (lit "&nbsp;") z) eqn:P; [|discriminate].
    exists (firstn 6 z), (skipn 6 z). split; [now rewrite firstn_skipn|].
    split.
    + apply prefix_canon_len in P. cbn in P. rewrite length_firstn. lia.
    + now apply (prefix_canon_firstn true (lit "&nbsp;")).
  - intros w t [_ P]. unfold f_nbsp. now rewrite (prefix_canon_app _ _ _ t P).
  - intros w H. split; [|now apply nbsp_no_space].
    destruct H as [Hl _]. now destruct w.
Qed.

Lemma run_app_stop p (ds : str) c t :
  all_are p ds -> p c = false -> run p (ds ++ c :: t) = length ds.
Proof.
  intros A C. induction A as [|x ds Hx A IH]; cbn; [now rewrite C|].
  now rewrite Hx, IH.
Qed.

Lemma run_firstn_all p : forall t, all_are p (firstn (run p t) t).
Proof.
  induction t as [|x t IH]; cbn; [constructor|].
  destruct (p x) eqn:P; cbn; constructor; assumption.
Qed.

Lemma digit_not_space (c : ascii) : is_digit c = true -> c <> sp.
Proof. intros H ->. discriminate. Qed.

Lemma entity_recognised : recognises f_entity L_entity.
Proof.
  split.
  - intros z len H. destruct z as [|a [|b t]]; try discriminate.
    cbn [f_entity] in H.
    destruct (Ascii.eqb "&" a && Ascii.eqb "#" b) eqn:AB; [|discriminate].
    apply andb_true_iff in AB as [A B].
    apply Ascii.eqb_eq in A, B. subst a b.
    destruct (1 <=? run is_digit t) eqn:N; [|discriminate]. cbn [andb] in H.
    destruct (skipn (run is_digit t) t) as [|x r] eqn:S;
      cbn [prefixb lit String.list_ascii_of_string] in H; [discriminate|].
    destruct (Ascii.eqb ";" x) eqn:X; [|discriminate].
    apply Ascii.eqb_eq in X. subst x.
    exists ("&"%char :: "#"%char :: firstn (run is_digit t) t ++ [";"%char]), r.
    split.
    + cbn. f_equal. f_equal. rewrite <- app_assoc. cbn.
      now rewrite <- S, firstn_skipn.
    + exists (firstn (run is_digit t) t). split; [|split; [|reflexivity]].
      * apply Nat.leb_le in N. intros E.
        apply (f_equal (@length ascii)) in E.
        pose proof (run_le is_digit t).
        rewrite length_firstn in E. cbn in E. lia.
      * apply run_firstn_all.
  - intros w t (ds & Hne & A & ->). cbn [app f_entity].
    replace (Ascii.eqb "&" "&" && Ascii.eqb "#" "#") with true by reflexivity.
    rewrite <- app_assoc. cbn [app].
    rewrite (run_app_stop ";" t A) by reflexivity.
    replace (skipn (length ds) (ds ++ ";"%char :: t)) with (";"%char :: t).
    2:{ rewrite skipn_app, skipn_all, Nat.sub_diag. reflexivity. }
    destruct ds; [contradiction|]. cbn. discriminate.
  - intros w (ds & Hne & A & ->). split; [discriminate|].
    intros [E|[E|I]]; try discriminate.
    apply in_app_iff in I as [I|[E|[]]]; [|discriminate].
    unfold all_are in A. rewrite Forall_forall in A.
    now apply (digit_not_space (A _ I)).
Qed.

(** *** What the three patterns replace starts with no [>] *)

Lemma white_not_gt (c : ascii) : is_white c = true -> not_gt c = true.
Proof. each_ascii c. Qed.

Lemma f_spaces_len rs len :
  f_spaces rs = Some len ->
  0 < len <= length rs /\ exists c t, rs = c :: t /\ not_gt c = true.
Proof.
  unfold f_spaces. destruct (1 <=? run is_white rs) eqn:N; [|discriminate].
  intros [= <-]. apply Nat.leb_le in N. pose proof (run_le is_white rs).
  split; [lia|]. destruct rs as [|c t]; [cbn in N; lia|].
  exists c, t. split; [reflexivity|]. cbn in N.
  destruct (is_white c) eqn:W; [|lia]. now apply white_not_gt.
Qed.

Lemma f_nbsp_len rs len :
  f_nbsp rs = Some len ->
  0 < len <= length rs /\ exists c t, rs = c :: t /\ not_gt c = true.
Proof.
  unfold f_nbsp. destruct (prefix_canon true (lit "&nbsp;") rs) eqn:P; [|discriminate].
  intros [= <-]. pose proof (prefix_canon_len _ _ _ P) as L. cbn in L.
  split; [lia|]. destruct rs as [|c t]; [discriminate|].
  exists c, t. split; [reflexivity|]. cbn in P.
  apply andb_true_iff in P as [P _]. apply Ascii.eqb_eq in P.
  unfold not_gt. destruct (Ascii.eqb ">" c) eqn:G; [|reflexivity].
  apply Ascii.eqb_eq in G. subst c. discriminate.
Qed.

Lemma f_entity_head rs len :
  f_entity rs = Some len ->
  0 < len <= length rs /\ exists c t, rs = c :: t /\ not_gt c = true.
Proof.
  intros H. split; [now apply f_entity_len|].
  destruct rs as [|a [|b t]]; try discriminate. cbn [f_entity] in H.
  exists a, (b :: t). split; [reflexivity|].
  destruct (Ascii.eqb "&" a) eqn:A; [|discriminate].
  apply Ascii.eqb_eq in A. now subst a.
Qed.

(** *** Collapsing white space *)

Lemma f_spaces_white c t :
  is_white c = true -> f_spaces (c :: t) = Some (S (run is_white t)).
Proof. intros W. unfold f_spaces. cbn [run]. now rewrite W. Qed.

Lemma f_spaces_other c t : is_white c = false -> f_spaces (c :: t) = None.
Proof. intros W. unfold f_spaces. cbn [run]. now rewrite W. Qed.

Lemma rewrite_spaces_head : forall rs,
  head_white (rewrite f_spaces [sp] rs (run is_white rs)) = false.
Proof.
  induction rs as [|c t IH]; [reflexivity|].
  cbn [run]. destruct (is_white c) eqn:W; [exact IH|].
  cbn [rewrite]. rewrite f_spaces_other by exact W. exact W.
Qed.

Lemma rewrite_spaces_norm : forall rs skip,
  skip = 0 \/ skip = run is_white rs ->
  norm_ws (rewrite f_spaces [sp] rs skip) = true.
Proof.
  induction rs as [|c t IH]; intros skip Hs.
  - assert (skip = 0) by (destruct Hs; assumption). now subst skip.
  - destruct (is_white c) eqn:W.
    + assert (R : run is_white (c :: t) = S (run is_white t))
        by (cbn [run]; now rewrite W).
      destruct Hs as [-> | ->].
      * cbn [rewrite]. rewrite f_spaces_white by exact W. cbn [app norm_ws].
        rewrite rewrite_spaces_head, IH by now right. reflexivity.
      * rewrite R. cbn [rewrite]. apply IH. now right.
    + assert (R : run is_white (c :: t) = 0) by (cbn [run]; now rewrite W).
      assert (skip = 0) by (destruct Hs; congruence). subst skip.
      cbn [rewrite]. rewrite f_spaces_other by exact W. cbn [norm_ws].
      rewrite W, IH by now left. reflexivity.
Qed.

Lemma head_white_run rs : head_white rs = false -> run is_white rs = 0.
Proof. destruct rs as [|c t]; [reflexivity|]. cbn. now intros ->. Qed.

Lemma rewrite_spaces_id : forall y,
  norm_ws y = true -> rewrite f_spaces [sp] y 0 = y.
Proof.
  induction y as [|c t IH]; intros N; [reflexivity|].
  cbn [norm_ws] in N. apply andb_true_iff in N as [N1 N2].
  cbn [rewrite]. destruct (is_white c) eqn:W.
  - apply andb_true_iff in N1 as [E H]. apply Ascii.eqb_eq in E. subst c.
    apply negb_true_iff in H.
    rewrite f_spaces_white by exact W. rewrite (head_white_run _ H).
    cbn [app]. now rewrite (IH N2).
  - rewrite f_spaces_other by exact W. now rewrite (IH N2).
Qed.

(** *** Removing tags *)

Lemma not_gt_true c : not_gt c = true <-> c <> ">"%char.
Proof.
  unfold not_gt. rewrite negb_true_iff. split.
  - intros H ->. discriminate.
  - intros H. destruct (Ascii.eqb ">" c) eqn:E; [|reflexivity].
    apply Ascii.eqb_eq in E. now subst c.
Qed.

Lemma tag_sound sn rs m :
  match_here false re_tag sn rs = Some m -> taggy rs /\ 1 <= length (m_text m).
Proof.
  intros H. apply match_here_sound in H as (s' & M & ->).
  unfold re_tag in M. cbn [cat fold_right] in M.
  apply mrel_seq_inv in M as (s1 & M1 & M).
  unfold txt in M1. cbn [lit String.list_ascii_of_string map cat fold_right] in M1.
  apply mrel_seq_inv in M1 as (s1' & Mc & Me).
  apply mrel_empty_inv in Me as ->.
  apply mrel_char_inv in Mc as (x & t & E & C & ->).
  cbn [rest seen groups] in E. subst rs.
  cbn [cmatch canon] in C. apply Ascii.eqb_eq in C. subst x.
  pose proof (mrel_passed M) as [w Pw]. apply passed_pos in Pw.
  unfold pos at 2 in Pw. cbn [seen length] in Pw.
  split.
  - apply mrel_seq_inv in M as (s2 & Mo & M).
    apply mrel_seq_inv in M as (s3 & Mp & _).
    assert (Hp : forall s, mrel false (plus (Char (CNot (CLit ">")))) s s3 ->
                           exists c r, rest s = c :: r /\ c <> ">"%char).
    { intros s Hs. apply mrel_rep_inv in Hs as [[Hlo _]|[_ (s4 & Mc & _)]];
        [discriminate|].
      apply mrel_char_inv in Mc as (c & r & E & C & _).
      exists c, r. split; [assumption|]. now apply not_gt_true. }
    apply mrel_rep_inv in Mo as [[_ ->]|[_ (s4 & Ms & _)]].
    + destruct (Hp _ Mp) as (c & r & E & C). cbn [rest] in E. subst t.
      now exists c, r.
    + unfold txt in Ms.
      cbn [lit String.list_ascii_of_string map cat fold_right] in Ms.
      apply mrel_seq_inv in Ms as (s5 & Mc & _).
      apply mrel_char_inv in Mc as (c & r & E & C & _).
      cbn [rest] in E. subst t. cbn [cmatch canon] in C.
      apply Ascii.eqb_eq in C. subst c. exists "/"%char, r.
      split; [reflexivity|discriminate].
  - cbn [m_text]. rewrite Pw.
    replace (length w + S (length sn) - length sn) with (S (length w)) by lia.
    cbn. lia.
Qed.

Lemma run_stop p : forall t,
  skipn (run p t) t = [] \/ exists x r, skipn (run p t) t = x :: r /\ p x = false.
Proof.
  induction t as [|x t IH]; [now left|]. cbn [run].
  destruct (p x) eqn:P; [exact IH|]. right. now exists x, t.
Qed.

Lemma tag_complete sn rs : taggy rs -> match_here false re_tag sn rs <> None.
Proof.
  intros (c & t & -> & Hc). apply not_gt_true in Hc.
  unfold match_here.
  assert (E : rmatch false re_tag Some (MState sn ("<"%char :: c :: t) []) <> None);
    [|now destruct (rmatch false re_tag Some _)].
  unfold re_tag. cbn [cat fold_right rmatch].
  rewrite rmatch_txt, prefix_canon_false. cbn [rest].
  change (prefixb (lit "<") ("<"%char :: c :: t)) with true. cbv iota.
  change (advance (length (lit "<")) (MState sn ("<"%char :: c :: t) []))
    with (MState ("<"%char :: sn) (c :: t) []).
  unfold opt. cbn [rmatch rep_loop Nat.ltb Nat.leb].
  match goal with
  | |- match ?a with Some x => Some x | None => ?b end <> None =>
      assert (B : b <> None); [|now destruct a]
  end.
  rewrite rmatch_plus, greedy_end.
  - change (cmatch false (CNot (CLit ">"))) with not_gt.
    cbn [run]. rewrite Hc. cbn [Nat.leb].
    set (s := advance _ _).
    assert (R : rest s = [] \/ exists r, rest s = ">"%char :: r).
    { unfold s. rewrite rest_advance.
      replace (S (run not_gt t)) with (run not_gt (c :: t))
        by (cbn [run]; now rewrite Hc).
      destruct (run_stop not_gt (c :: t)) as [->|(x & r & -> & X)]; [now left|].
      right. exists r. f_equal. unfold not_gt in X.
      apply negb_false_iff, Ascii.eqb_eq in X. now subst x. }
    cbn [alts rmatch]. rewrite rmatch_txt, prefix_canon_false.
    destruct R as [-> | [r ->]]; cbn; discriminate.
  - intros sn' x t' X. change (cmatch false (CNot (CLit ">")) x) with (not_gt x) in X.
    cbn [alts rmatch]. rewrite rmatch_txt, prefix_canon_false. cbn [rest].
    change (prefixb (lit ">") (x :: t')) with (Ascii.eqb ">" x && true).
    unfold not_gt in X. apply negb_true_iff in X. rewrite X. reflexivity.
Qed.

Lemma tag_none sn rs : ~ taggy rs -> match_here false re_tag sn rs = None.
Proof.
  intros H. destruct (match_here false re_tag sn rs) eqn:E; [|reflexivity].
  now apply tag_sound in E as [T _].
Qed.

Lemma strip_tags_tagfree : forall rs sn skip,
  tagfree (replace_from false re_tag [sp] sn rs skip) = true.
Proof.
  induction rs as [|c t IH]; intros sn skip.
  - destruct skip; cbn [replace_from]; [|reflexivity].
    rewrite tag_none; [reflexivity|]. intros (c & t & E & _). discriminate.
  - destruct skip as [|k]; cbn [replace_from]; [|apply IH].
    destruct (match_here false re_tag sn (c :: t)) as [m|] eqn:E.
    + apply tag_sound in E as [_ L].
      destruct (length (m_text m)) as [|l]; [lia|].
      cbn [app tagfree]. now rewrite IH.
    + cbn [tagfree]. rewrite IH, andb_true_r.
      destruct (Ascii.eqb c "<") eqn:C; [|reflexivity].
      apply Ascii.eqb_eq in C. subst c.
      destruct t as [|d t'].
      * cbn [replace_from]. rewrite tag_none; [reflexivity|].
        intros (c & t & E' & _). discriminate.
      * destruct (Ascii.eqb d ">") eqn:D.
        -- apply Ascii.eqb_eq in D. subst d. cbn [replace_from].
           rewrite tag_none; [reflexivity|].
           intros (c & t & E' & _). discriminate.
        -- exfalso. apply (@tag_complete sn ("<"%char :: d :: t')); [|exact E].
           exists d, t'. split; [reflexivity|]. intros ->. discriminate.
Qed.

Lemma tagfree_not_taggy y a rs :
  tagfree y = true -> y = a ++ rs -> ~ taggy rs.
Proof.
  intros T -> (c & t & -> & Hc). apply tagfree_app_r in T.
  cbn in T. apply andb_true_iff in T as [T _].
  apply Ascii.eqb_eq in T. contradiction.
Qed.

Lemma replace_none i r by_ : forall rs sn,
  (forall a rs' sn', rs = a ++ rs' -> match_here i r sn' rs' = None) ->
  replace_from i r by_ sn rs 0 = rs.
Proof.
  induction rs as [|c t IH]; intros sn H; cbn [replace_from].
  - now rewrite (H [] [] sn).
  - rewrite (H [] (c :: t) sn) by reflexivity. f_equal. apply IH.
    intros a rs' sn' ->. now apply (H (c :: a)).
Qed.

Lemma strip_tags_id y :
  tagfree y = true -> replace_all false re_tag [sp] y = y.
Proof.
  intros T. apply replace_none. intros a rs' sn' E.
  apply tag_none. eapply tagfree_not_taggy; eassumption.
Qed.

(** *** Trimming *)

Lemma drop_white_split y :
  exists a, y = a ++ drop_white y /\ head_white (drop_white y) = false.
Proof.
  induction y as [|c t (a & E & H)]; [now exists []|].
  cbn [drop_white]. destruct (is_white c) eqn:W.
  - exists (c :: a). split; [cbn; now f_equal|assumption].
  - exists []. split; [reflexivity|]. exact W.
Qed.

Lemma drop_white_id y : head_white y = false -> drop_white y = y.
Proof. destruct y as [|c t]; [reflexivity|]. cbn. now intros ->. Qed.

Lemma trim_split y :
  exists a b, y = a ++ trim y ++ b
              /\ head_white (trim y) = false
              /\ head_white (rev (trim y)) = false.
Proof.
  unfold trim.
  destruct (drop_white_split y) as (a & Ea & Ha).
  destruct (drop_white_split (rev (drop_white y))) as (b & Eb & Hb).
  set (u := drop_white y) in *. set (v := drop_white (rev u)) in *.
  assert (Eu : u = rev v ++ rev b).
  { rewrite <- (rev_involutive u), Eb. apply rev_app_distr. }
  exists a, (rev b). split; [|split].
  - now rewrite <- Eu.
  - destruct (rev v) as [|x r] eqn:R; [reflexivity|].
    rewrite Eu in Ha. exact Ha.
  - now rewrite rev_involutive.
Qed.

Lemma trim_id y :
  head_white y = false -> head_white (rev y) = false -> trim y = y.
Proof.
  intros H1 H2. unfold trim.
  now rewrite (drop_white_id _ H1), (drop_white_id _ H2), rev_involutive.
Qed.

Lemma trim_trim y : trim (trim y) = trim y.
Proof.
  destruct (trim_split y) as (a & b & _ & H1 & H2). now apply trim_id.
Qed.

Lemma tagfree_app_l (a b : str) : tagfree (a ++ b) = true -> tagfree a = true.
Proof.
  induction a as [|x a IH]; [reflexivity|]. cbn [app tagfree]. intros T.
  apply andb_true_iff in T as [T1 T2]. rewrite (IH T2), andb_true_r.
  destruct (Ascii.eqb x "<"); [|reflexivity].
  destruct a; [reflexivity|exact T1].
Qed.

Lemma norm_ws_app_r (a b : str) : norm_ws (a ++ b) = true -> norm_ws b = true.
Proof.
  induction a as [|x a IH]; [trivial|]. cbn [app norm_ws]. intros T.
  apply andb_true_iff in T as [_ T]. auto.
Qed.

Lemma norm_ws_app_l (a b : str) : norm_ws (a ++ b) = true -> norm_ws a = true.
Proof.
  induction a as [|x a IH]; [reflexivity|]. cbn [app norm_ws]. intros T.
  apply andb_true_iff in T as [T1 T2]. rewrite (IH T2), andb_true_r.
  destruct (is_white x); [|reflexivity].
  apply andb_true_iff in T1 as [E H]. rewrite E. cbn [andb].
  destruct a; [reflexivity|exact H].
Qed.

(** *** The normal form of cleanText *)

Lemma replace_nbsp y : replace_all true re_nbsp [sp] y = rewrite f_nbsp [sp] y 0.
Proof. apply replace_from_rewrite. exact match_len_nbsp. Qed.

Lemma replace_entity y :
  replace_all false re_entity [sp] y = rewrite f_entity [sp] y 0.
Proof. apply replace_from_rewrite. exact match_len_entity. Qed.

Lemma replace_spaces y :
  replace_all false re_spaces [sp] y = rewrite f_spaces [sp] y 0.
Proof. apply replace_from_rewrite. exact match_len_spaces. Qed.

Lemma not_gt_head c : not_gt c = true -> c <> ">"%char.
Proof. apply not_gt_true. Qed.

Lemma cleanText_rewrite x :
  cleanText x =
  trim (rewrite f_spaces [sp]
          (rewrite f_entity [sp]
             (rewrite f_nbsp [sp] (replace_all false re_tag [sp] x) 0) 0) 0).
Proof.
  unfold cleanText. change (lit " ") with [sp].
  now rewrite replace_spaces, replace_entity, replace_nbsp.
Qed.

Lemma cleanText_normalized x : normalized (cleanText x).
Proof.
  rewrite cleanText_rewrite.
  set (y1 := replace_all false re_tag [sp] x).
  set (y2 := rewrite f_nbsp [sp] y1 0).
  set (y3 := rewrite f_entity [sp] y2 0).
  set (y4 := rewrite f_spaces [sp] y3 0).
  assert (T1 : tagfree y1 = true) by apply strip_tags_tagfree.
  assert (C2 : cut (fun rs => f_nbsp rs = None) not_gt y1 y2).
  { unfold y2. change y1 with (skipn 0 y1) at 1.
    apply rewrite_cut;
      [apply (rec_nil nbsp_recognised)|exact f_nbsp_len|lia]. }
  assert (C3 : cut (fun rs => f_entity rs = None) not_gt y2 y3).
  { unfold y3. change y2 with (skipn 0 y2) at 1.
    apply rewrite_cut;
      [apply (rec_nil entity_recognised)|exact f_entity_head|lia]. }
  assert (C4 : cut (fun rs => f_spaces rs = None) not_gt y3 y4).
  { unfold y4. change y3 with (skipn 0 y3) at 1.
    apply rewrite_cut; [reflexivity|exact f_spaces_len|lia]. }
  assert (T4 : tagfree y4 = true).
  { eapply cut_tagfree; [exact not_gt_head|exact C4|].
    eapply cut_tagfree; [exact not_gt_head|exact C3|].
    eapply cut_tagfree; [exact not_gt_head|exact C2|exact T1]. }
  assert (N4 : clear f_nbsp y4).
  { eapply (cut_clear_other nbsp_recognised); [exact C4|].
    eapply (cut_clear_other nbsp_recognised); [exact C3|].
    eapply (cut_clear nbsp_recognised); exact C2. }
  assert (E4 : clear f_entity y4).
  { eapply (cut_clear_other entity_recognised); [exact C4|].
    eapply (cut_clear entity_recognised); exact C3. }
  assert (W4 : norm_ws y4 = true) by (apply rewrite_spaces_norm; now left).
  destruct (trim_split y4) as (a & b & E & _).
  repeat split.
  - rewrite E in T4. now apply tagfree_app_r, tagfree_app_l in T4.
  - rewrite E in N4. now apply (clear_mid nbsp_recognised) in N4.
  - rewrite E in E4. now apply (clear_mid entity_recognised) in E4.
  - rewrite E in W4. now apply norm_ws_app_r, norm_ws_app_l in W4.
  - apply trim_trim.
Qed.

Lemma normalized_fixed y : normalized y -> cleanText y = y.
Proof.
  intros (T & N & E & W & R). rewrite cleanText_rewrite.
  rewrite strip_tags_id by exact T.
  rewrite (@rewrite_id f_nbsp (rec_nil nbsp_recognised) y N).
  rewrite (@rewrite_id f_entity (rec_nil entity_recognised) y E).
  now rewrite rewrite_spaces_id by exact W.
Qed.

(** C8.  The Text Normalizer is idempotent: cleaning a cleaned text
    changes nothing. *)
Theorem cleanText_idempotent (x : str) : cleanText (cleanText x) = cleanText x.
Proof. apply normalized_fixed, cleanText_normalized. Qed.

(* ================================================================== *)
(** ** Patterns anchored at both ends *)

Lemma search_bol i r : forall (rs sn : str),
  sn <> [] -> search i (Seq Bol r) sn rs = None.
Proof.
  induction rs as [|c t IH]; intros sn H; cbn [search].
  - unfold match_here. cbn [rmatch seen]. destruct sn; [contradiction|reflexivity].
  - unfold match_here. cbn [rmatch seen]. destruct sn; [contradiction|].
    cbn [is_empty]. apply IH. discriminate.
Qed.

Lemma test_bol i r text :
  test i (Seq Bol r) text = found (rmatch i r Some (MState [] text [])).
Proof.
  unfold test, js_match. destruct text as [|c t]; cbn [search].
  - unfold match_here. cbn [rmatch seen is_empty].
    now destruct (rmatch i r Some (MState [] [] [])).
  - unfold match_here at 1. cbn [rmatch seen is_empty].
    destruct (rmatch i r Some (MState [] (c :: t) [])); [reflexivity|].
    rewrite search_bol; [reflexivity|discriminate].
Qed.

Lemma search_char i k : forall (rs sn : str),
  (match search i (Char k) sn rs with Some _ => true | None => false end)
  = existsb (cmatch i k) rs.
Proof.
  induction rs as [|c t IH]; intros sn; cbn [search existsb].
  - now rewrite match_here_char.
  - rewrite match_here_char. destruct (cmatch i k c); [reflexivity|]. apply IH.
Qed.

Lemma test_char i k text : test i (Char k) text = existsb (cmatch i k) text.
Proof. apply search_char. Qed.

(** A loop whose body reads one code unit of [p] and leaves the groups
    alone is the greedy loop over [p]. *)
Lemma rep_loop_unit (body : cont -> cont) (p : ascii -> bool) k g :
  (forall (k' : cont) sn rs,
      body k' (MState sn rs g) =
      match rs with
      | x :: t => if p x then k' (MState (x :: sn) t g) else None
      | [] => None
      end) ->
  forall n lo sn rs,
    length rs <= n ->
    rep_loop body true k lo n (MState sn rs g) = greedy p k lo sn rs g.
Proof.
  intros Hb. induction n as [|n IH]; intros lo sn rs Hn.
  - destruct rs; [reflexivity|cbn in Hn; lia].
  - destruct rs as [|x t]; cbn [rep_loop greedy]; rewrite Hb.
    + destruct lo; reflexivity.
    + destruct (p x) eqn:C.
      * assert (E : (pos (MState (x :: sn) t g) =? pos (MState sn (x :: t) g))
                    = false)
          by (apply Nat.eqb_neq; unfold pos; cbn; lia).
        rewrite E, andb_false_r, IH by (cbn in Hn |- *; lia).
        destruct lo; [reflexivity|].
        cbn [Nat.ltb Nat.leb Nat.eqb pred].
        now destruct (greedy p k lo (x :: sn) t g).
      * destruct lo; reflexivity.
Qed.

Lemma skipn_run_nil p (l : str) :
  is_empty (skipn (run p l) l) = forallb p l.
Proof.
  induction l as [|x l IH]; [reflexivity|]. cbn [run forallb].
  destruct (p x); [exact IH|reflexivity].
Qed.

(** ^[k]+$ *)
Lemma greedy_to_end p sn rs g :
  found (greedy p (fun s => if is_empty (rest s) then Some s else None)
                  1 sn rs g)
  = negb (is_empty rs) && forallb p rs.
Proof.
  rewrite greedy_end.
  - destruct rs as [|x t]; [reflexivity|]. cbn [run is_empty negb andb forallb].
    destruct (p x) eqn:P; [|reflexivity]. cbn [Nat.leb].
    rewrite rest_advance. change (S (run p t)) with (1 + run p t).
    cbn [Nat.add skipn]. rewrite <- skipn_run_nil.
    now destruct (is_empty (skipn (run p t) t)).
  - intros sn' x t _. reflexivity.
Qed.

Lemma test_all i k text :
  test i (cat [Bol; plus (Char k); Eol]) text =
  negb (is_empty text) && forallb (cmatch i k) text.
Proof.
  cbn [cat fold_right]. rewrite test_bol. cbn [rmatch].
  rewrite rmatch_plus.
  change (fun s => if is_empty (rest s) then rmatch i Empty Some s else None)
    with (fun s => if is_empty (rest s) then Some s else None).
  apply greedy_to_end.
Qed.

Lemma existsb_eq (A : Type) (f g : A -> bool) (l : list A) :
  (forall a, f a = g a) -> existsb f l = existsb g l.
Proof. intros E. induction l as [|x l IH]; cbn; [reflexivity|]. now rewrite E, IH. Qed.

Lemma forallb_eq (A : Type) (f g : A -> bool) (l : list A) :
  (forall a, f a = g a) -> forallb f l = forallb g l.
Proof. intros E. induction l as [|x l IH]; cbn; [reflexivity|]. now rewrite E, IH. Qed.

Lemma existsb_eq_in (A : Type) (f g : A -> bool) (l : list A) :
  (forall a, In a l -> f a = g a) -> existsb f l = existsb g l.
Proof.
  induction l as [|x l IH]; intros E; cbn; [reflexivity|].
  rewrite E, IH; [reflexivity| |now left]. intros a Ha. apply E. now right.
Qed.

Lemma forallb_all (p : ascii -> bool) (l : str) :
  forallb p l = true -> all_are p l.
Proof. intros H. apply Forall_forall. now apply forallb_forall. Qed.

Lemma all_forallb (p : ascii -> bool) (l : str) :
  all_are p l -> forallb p l = true.
Proof. intros H. apply forallb_forall. now apply Forall_forall. Qed.

Lemma forallb_false (p : ascii -> bool) (l : str) :
  forallb p l = false -> exists z, In z l /\ p z = false.
Proof.
  induction l as [|x l IH]; [discriminate|]. cbn [forallb]. intros H.
  destruct (p x) eqn:E.
  - destruct (IH H) as (z & Hz & Pz). exists z. split; [now right|exact Pz].
  - exists x. split; [now left|exact E].
Qed.

Lemma test_alnum (c : str) :
  test false re_alnum c = negb (is_empty c) && forallb is_code_char c.
Proof.
  unfold re_alnum. rewrite test_all. f_equal. apply forallb_eq.
  intros a. cbn. now rewrite !orb_false_r.
Qed.

Lemma test_numeric (c : str) :
  test false re_numeric c = negb (is_empty c) && forallb is_digit c.
Proof. unfold re_numeric, digit. rewrite test_all. reflexivity. Qed.

Lemma isAllZeros_eq (code : str) :
  isAllZeros code = negb (is_empty code) && forallb (Ascii.eqb "0") code.
Proof.
  unfold isAllZeros, re_zeros. cbn [cat fold_right]. rewrite test_bol.
  cbn [rmatch plus rest].
  rewrite (@rep_loop_unit (rmatch false (txt "0")) (Ascii.eqb "0")).
  - apply greedy_to_end.
  - intros k' sn rs. destruct rs as [|x t]; reflexivity.
  - cbn. lia.
Qed.

Lemma rmatch_rep i g lo hi r k s :
  rmatch i (Rep g lo hi r) k s =
  rep_loop (rmatch i r) g k lo
    (match hi with Some h => h | None => lo + length (rest s) end) s.
Proof. reflexivity. Qed.

Lemma rmatch_seq i a b k s :
  rmatch i (Seq a b) k s = rmatch i a (rmatch i b k) s.
Proof. reflexivity. Qed.

Lemma isRepetitive_eq (code : str) :
  isRepetitive code =
  match code with
  | x :: y :: t => negb (is_line_terminator x) && forallb (Ascii.eqb x) (y :: t)
  | _ => false
  end.
Proof.
  unfold isRepetitive. destruct code as [|x [|y t]]; try reflexivity.
  replace (length (x :: y :: t) <? 2) with false
    by (symmetry; apply Nat.ltb_ge; cbn; lia).
  unfold re_repetitive. cbn [cat fold_right]. rewrite test_bol.
  cbn [rmatch rest cmatch]. destruct (is_line_terminator x); [reflexivity|].
  cbn [negb andb].
  change (close_group 1 (MState [] (x :: y :: t) [])
                        (advance 1 (MState [] (x :: y :: t) [])))
    with (MState [x] (y :: t) [(1, (0, [x]))]).
  unfold plus. rewrite rmatch_rep.
  rewrite (@rep_loop_unit (rmatch false (Backref 1)) (Ascii.eqb x)).
  - rewrite greedy_to_end. reflexivity.
  - intros k' sn rs. cbn [rmatch groups lookup Nat.eqb rest].
    destruct rs as [|z u]; [reflexivity|].
    cbn [prefix_canon canon length]. rewrite andb_true_r. reflexivity.
  - cbn. lia.
Qed.

Lemma isValidAlphanumeric_eq (code : str) :
  isValidAlphanumeric code =
  negb (existsb is_letter code) || existsb is_digit code.
Proof.
  unfold isValidAlphanumeric, re_letter, digit. rewrite !test_char.
  rewrite (@existsb_eq _ (cmatch false (COr (CRange "A" "Z") (CRange "a" "z")))
             is_letter)
    by (intros a; cbn; now rewrite !orb_false_r).
  change (cmatch false CDigit) with is_digit.
  destruct (existsb is_letter code), (existsb is_digit code); reflexivity.
Qed.

(* ================================================================== *)
(** ** The rules of the Validator, one by one *)

Lemma first_rejecting_some (r : rule) (c : str) : forall rs,
  In r rs -> rejects r c = true -> first_rejecting rs c <> None.
Proof.
  induction rs as [|x rs IH]; intros Hin Hr; [contradiction|].
  cbn [first_rejecting]. destruct (rejects x c) eqn:E; [discriminate|].
  destruct Hin as [->|Hin]; [congruence|]. now apply IH.
Qed.

Lemma rejected_by (r : rule) (s : str) :
  In r rule_order -> rejects r (clean_code s) = true -> isValidOTP_str s = false.
Proof.
  intros Hin Hr. rewrite valid_no_rejecting.
  pose proof (@first_rejecting_some r (clean_code s) rule_order Hin Hr) as H.
  now destruct (first_rejecting rule_order (clean_code s)).
Qed.

Lemma code_char_kept (c : ascii) :
  is_code_char c = true -> not_dash_space c = true /\ upper c = c.
Proof. each_ascii c; intros _; split; reflexivity. Qed.

Lemma clean_code_fixed (s : str) :
  forallb is_code_char s = true -> clean_code s = s.
Proof.
  rewrite clean_code_filter. induction s as [|c s IH]; [reflexivity|].
  cbn [forallb filter]. intros H. apply andb_true_iff in H as [Hc Hs].
  destruct (@code_char_kept c Hc) as [K U]. rewrite K. cbn [toUpperCase map].
  rewrite U. f_equal. now apply IH.
Qed.

Lemma digits_code_chars (s : str) :
  forallb is_digit s = true -> forallb is_code_char s = true.
Proof.
  induction s as [|c s IH]; [reflexivity|]. cbn [forallb]. intros H.
  apply andb_true_iff in H as [Hc Hs]. unfold is_code_char at 1.
  now rewrite Hc, orb_true_r, IH.
Qed.

Lemma kept_no_line (x : ascii) :
  not_dash_space x = true -> is_line_terminator (upper x) = false.
Proof. each_ascii x. Qed.

Lemma clean_code_repeat (x : ascii) (n : nat) :
  clean_code (repeat x n) =
  if not_dash_space x then repeat (upper x) n else [].
Proof.
  rewrite clean_code_filter. induction n as [|n IH]; cbn [repeat filter].
  - now destruct (not_dash_space x).
  - destruct (not_dash_space x); [|exact IH]. cbn [toUpperCase map].
    f_equal. exact IH.
Qed.

Lemma forallb_repeat (x : ascii) (n : nat) :
  forallb (Ascii.eqb x) (repeat x n) = true.
Proof.
  induction n as [|n IH]; [reflexivity|]. cbn [repeat forallb].
  now rewrite Ascii.eqb_refl, IH.
Qed.

(** X4.  isRepetitive holds exactly of the strings of at least two code
    units that are all equal to the first one, the first one being no
    line terminator.  Hence isValidOTP refuses every string made of one
    code unit repeated, whatever the code unit and the length. *)
Theorem repetitive_rule :
  (forall code,
      isRepetitive code =
      match code with
      | x :: y :: t => negb (is_line_terminator x) && forallb (Ascii.eqb x) (y :: t)
      | _ => false
      end)
  /\ (forall x n, isValidOTP (VString (repeat x n)) = Normal false).
Proof.
  split; [exact isRepetitive_eq|].
  intros x n. rewrite isValidOTP_string. f_equal.
  destruct (n <? 4) eqn:L.
  - apply (@rejected_by (Rule (lit "Too short (min 4 chars)")
                              (fun c => length c <? 4))); [cbn; tauto|].
    cbn [rejects]. rewrite clean_code_repeat.
    destruct (not_dash_space x); [|reflexivity]. now rewrite repeat_length.
  - apply Nat.ltb_ge in L. destruct (not_dash_space x) eqn:K.
    + apply (@rejected_by (Rule (lit "Repetitive pattern") isRepetitive));
        [cbn; tauto|].
      cbn [rejects]. rewrite clean_code_repeat, K, isRepetitive_eq.
      destruct n as [|[|n]]; [lia|lia|]. cbn [repeat].
      rewrite (kept_no_line _ K). apply (forallb_repeat (upper x) (S n)).
    + apply (@rejected_by (Rule (lit "Too short (min 4 chars)")
                                (fun c => length c <? 4))); [cbn; tauto|].
      cbn [rejects]. now rewrite clean_code_repeat, K.
Qed.

(** X5.  isAllZeros holds exactly of the non-empty strings of zeros; on a
    string of at least two code units it implies isRepetitive. *)
Theorem all_zeros_rule (code : str) :
  isAllZeros code = negb (is_empty code) && forallb (Ascii.eqb "0") code
  /\ (2 <= length code -> isAllZeros code = true -> isRepetitive code = true).
Proof.
  split; [apply isAllZeros_eq|]. rewrite isAllZeros_eq, isRepetitive_eq.
  destruct code as [|x [|y t]]; cbn [length]; try lia. intros _ H.
  apply andb_true_iff in H as [_ H].
  change (Ascii.eqb "0" x && forallb (Ascii.eqb "0") (y :: t) = true) in H.
  apply andb_true_iff in H as [Hx H]. apply Ascii.eqb_eq in Hx. subst x.
  now rewrite H.
Qed.

(** Four zeros. *)
Lemma all_zeros_rule_witness :
  isAllZeros (lit "0000") = true /\ isRepetitive (lit "0000") = true.
Proof.
  assert (Z : isAllZeros (lit "0000") = true) by reflexivity.
  split; [exact Z|].
  apply (proj2 (all_zeros_rule (lit "0000"))); [cbn; lia|exact Z].
Defined.

Lemma occurs_trans (a b c : str) : occurs a b -> occurs b c -> occurs a c.
Proof.
  intros (x & y & ->) (u & v & ->). exists (u ++ x), (y ++ v).
  now rewrite <- !app_assoc.
Qed.

(** X3.  isSequential is decided by the fourteen runs of four digits:
    each of the ten runs of six in SEQUENTIAL_PATTERNS contains one of
    them, so that the runs of six never change the answer. *)
Theorem sequential_runs_of_four (code : str) :
  isSequential code = existsb (fun pattern => includes code pattern) runs_of_four.
Proof.
  unfold isSequential.
  change SEQUENTIAL_PATTERNS with (runs_of_four ++ skipn 14 SEQUENTIAL_PATTERNS).
  rewrite existsb_app.
  destruct (existsb (fun pattern => includes code pattern) runs_of_four) eqn:E;
    [reflexivity|]. cbn [orb].
  destruct (existsb _ (skipn 14 SEQUENTIAL_PATTERNS)) eqn:F; [|reflexivity].
  apply existsb_exists in F as (six & Hin & Hinc). apply includes_occurs in Hinc.
  assert (H4 : In (firstn 4 six) runs_of_four).
  { cbn in Hin. repeat (destruct Hin as [<-|Hin]; [cbn; tauto|]). contradiction. }
  assert (O4 : occurs (firstn 4 six) six).
  { exists [], (skipn 4 six). cbn [app]. symmetry. apply firstn_skipn. }
  assert (T : existsb (fun pattern => includes code pattern) runs_of_four = true).
  { apply existsb_exists. exists (firstn 4 six). split; [exact H4|].
    apply includes_occurs. eapply occurs_trans; eassumption. }
  congruence.
Qed.

(* ================================================================== *)
(** ** Dates and years *)

Lemma digit_cases (c : ascii) : is_digit c = true -> In c digits.
Proof. each_ascii c; intros _; cbn; tauto. Qed.

Ltac each_digit c H :=
  apply digit_cases in H; cbn in H;
  repeat (destruct H as [H|H]; [subst c|]); [..|contradiction].

Lemma close_pair n sn a b t g g' :
  close_group n (MState sn (a :: b :: t) g) (MState (b :: a :: sn) t g')
  = MState (b :: a :: sn) t ((n, (length sn, [a; b])) :: g').
Proof.
  unfold close_group, pos. cbn [seen rest groups length].
  replace (S (S (length sn)) - length sn) with 2 by lia. reflexivity.
Qed.

Ltac atoms :=
  cbn [cmatch canon andb]; rewrite ?orb_false_r;
  repeat match goal with
         | |- context [Ascii.eqb ?x ?y] => destruct (Ascii.eqb x y)
         | |- context [in_range ?x ?y ?z] => destruct (in_range x y z)
         | |- context [is_digit ?z] => destruct (is_digit z)
         end;
  cbn [andb orb];
  repeat match goal with
         | |- context [match ?k ?s with _ => _ end] => destruct (k s)
         end;
  reflexivity.

Lemma month_step n : pair_group n
  (alts [cat [txt "0"; Char (CRange "1" "9")]; cat [txt "1"; Char (CRange "0" "2")]]) mm.
Proof.
  intros k sn a b t g. cbn -[cmatch]. rewrite !close_pair. unfold mm. atoms.
Qed.

Lemma day_step n : pair_group n
  (alts [cat [txt "0"; Char (CRange "1" "9")];
         cat [one_of "12"; digit];
         cat [txt "3"; one_of "01"]]) dd.
Proof.
  intros k sn a b t g. cbn -[cmatch]. rewrite !close_pair. unfold dd. atoms.
Qed.

Lemma century_step n : pair_group n (alts [txt "19"; txt "20"]) cc.
Proof.
  intros k sn a b t g. cbn -[cmatch]. rewrite !close_pair. unfold cc. atoms.
Qed.

Lemma year_group n : pair_group n (times 2 2 digit) yy.
Proof.
  intros k sn a b t g. cbn -[cmatch]. rewrite !close_pair. unfold yy. atoms.
Qed.

Lemma year_step : pair_step (times 2 2 digit) yy.
Proof.
  intros k sn a b t g. cbn -[cmatch]. unfold yy. atoms.
Qed.

Ltac pairs :=
  unfold re_month, re_day, re_century;
  repeat (rewrite rmatch_seq
          || rewrite month_step || rewrite day_step || rewrite century_step
          || rewrite year_group || rewrite year_step);
  cbn -[mm dd cc yy];
  repeat match goal with
         | |- context [mm ?x ?y] => destruct (mm x y)
         | |- context [dd ?x ?y] => destruct (dd x y)
         | |- context [cc ?x ?y] => destruct (cc x y)
         | |- context [yy ?x ?y] => destruct (yy x y)
         end;
  reflexivity.

Lemma isDatePattern_6 a b c d e f :
  isDatePattern [a; b; c; d; e; f] = date_shapes6 a b c d e f.
Proof.
  unfold isDatePattern, date_shapes6.
  cbn [length Nat.eqb negb andb datePatterns existsb cat fold_right].
  rewrite !test_bol.
  pairs.
Qed.

Lemma isDatePattern_8 a b c d e f g h :
  isDatePattern [a; b; c; d; e; f; g; h] = date_shapes8 a b c d e f g h.
Proof.
  unfold isDatePattern, date_shapes8.
  cbn [length Nat.eqb negb andb datePatterns existsb cat fold_right].
  rewrite !test_bol.
  pairs.
Qed.

Lemma mm_month a b :
  is_digit a = true -> is_digit b = true -> mm a b = is_month (decimal [a; b]).
Proof. intros Ha Hb. each_digit a Ha; each_digit b Hb; reflexivity. Qed.

Lemma dd_day a b :
  is_digit a = true -> is_digit b = true -> dd a b = is_day (decimal [a; b]).
Proof. intros Ha Hb. each_digit a Ha; each_digit b Hb; reflexivity. Qed.

Lemma cc_century a b :
  is_digit a = true -> is_digit b = true -> cc a b = is_century (decimal [a; b]).
Proof. intros Ha Hb. each_digit a Ha; each_digit b Hb; reflexivity. Qed.

Lemma yy_digits a b : is_digit a = true -> is_digit b = true -> yy a b = true.
Proof. intros Ha Hb. unfold yy. now rewrite Ha, Hb. Qed.

(** X6.  On six digits isDatePattern reads the three pairs as numbers: it
    holds exactly when they read MMDDYY, DDMMYY or YYMMDD with a month in
    1..12 and a day in 1..31, the year pair being free; isValidOTP refuses
    such a code. *)
Theorem date_rule_six_digits (a b c d e f : ascii) :
  forallb is_digit [a; b; c; d; e; f] = true ->
  isDatePattern [a; b; c; d; e; f] =
    (is_month (decimal [a; b]) && is_day (decimal [c; d]))
    || (is_day (decimal [a; b]) && is_month (decimal [c; d]))
    || (is_month (decimal [c; d]) && is_day (decimal [e; f]))
  /\ (isDatePattern [a; b; c; d; e; f] = true ->
      isValidOTP (VString [a; b; c; d; e; f]) = Normal false).
Proof.
  intros H. split.
  - cbn [forallb] in H. repeat (apply andb_true_iff in H as [?D H]).
    rewrite isDatePattern_6. unfold date_shapes6.
    rewrite !mm_month, !dd_day, !yy_digits by assumption.
    now rewrite !andb_true_r.
  - intros Hd. rewrite isValidOTP_string. f_equal.
    apply (@rejected_by (Rule (lit "Date pattern")
             (fun c => test false re_numeric c && isDatePattern c))).
    + cbn. tauto.
    + cbn [rejects]. rewrite (@clean_code_fixed _ (@digits_code_chars _ H)).
      rewrite test_numeric, H, Hd. reflexivity.
Qed.

(** 31 December 1999 written DDMMYY. *)
Lemma date_rule_six_digits_witness :
  isDatePattern (lit "311299") = true
  /\ isValidOTP (VString (lit "311299")) = Normal false.
Proof.
  destruct (@date_rule_six_digits "3" "1" "1" "2" "9" "9" eq_refl) as [E R].
  assert (D : isDatePattern (lit "311299") = true) by (vm_compute; reflexivity).
  split; [exact D|exact (R D)].
Defined.

(** X7.  On eight digits isDatePattern holds exactly when they read
    MMDDYYYY, DDMMYYYY or YYYYMMDD with a month in 1..12, a day in 1..31
    and a year that starts with 19 or 20; isValidOTP refuses such a code. *)
Theorem date_rule_eight_digits (a b c d e f g h : ascii) :
  forallb is_digit [a; b; c; d; e; f; g; h] = true ->
  isDatePattern [a; b; c; d; e; f; g; h] =
    (is_month (decimal [a; b]) && is_day (decimal [c; d])
     && is_century (decimal [e; f]))
    || (is_day (decimal [a; b]) && is_month (decimal [c; d])
        && is_century (decimal [e; f]))
    || (is_century (decimal [a; b]) && is_month (decimal [e; f])
        && is_day (decimal [g; h]))
  /\ (isDatePattern [a; b; c; d; e; f; g; h] = true ->
      isValidOTP (VString [a; b; c; d; e; f; g; h]) = Normal false).
Proof.
  intros H. split.
  - cbn [forallb] in H. repeat (apply andb_true_iff in H as [?D H]).
    rewrite isDatePattern_8. unfold date_shapes8.
    rewrite !mm_month, !dd_day, !cc_century, !yy_digits by assumption.
    now rewrite !andb_true_r.
  - intros Hd. rewrite isValidOTP_string. f_equal.
    apply (@rejected_by (Rule (lit "Date pattern")
             (fun c => test false re_numeric c && isDatePattern c))).
    + cbn. tauto.
    + cbn [rejects]. rewrite (@clean_code_fixed _ (@digits_code_chars _ H)).
      rewrite test_numeric, H, Hd. reflexivity.
Qed.

(** 14 July 2025 written YYYYMMDD. *)
Lemma date_rule_eight_digits_witness :
  isDatePattern (lit "20250714") = true
  /\ isValidOTP (VString (lit "20250714")) = Normal false.
Proof.
  destruct (@date_rule_eight_digits "2" "0" "2" "5" "0" "7" "1" "4" eq_refl)
    as [E R].
  assert (D : isDatePattern (lit "20250714") = true) by (vm_compute; reflexivity).
  split; [exact D|exact (R D)].
Defined.

Lemma digit_not_white (c : ascii) : is_digit c = true -> is_white c = false.
Proof. each_ascii c. Qed.

Lemma leading_digits_all : forall (s : str) (acc : nat),
  forallb is_digit s = true ->
  leading_digits s (Z.of_nat acc) =
  Z.of_nat (fold_left (fun acc c => 10 * acc + (ord c - 48)) s acc).
Proof.
  induction s as [|c s IH]; intros acc H; [reflexivity|].
  cbn [forallb] in H. apply andb_true_iff in H as [Hc Hs].
  cbn [leading_digits fold_left]. rewrite Hc, <- IH by assumption.
  f_equal. lia.
Qed.

Lemma parseInt_digits (s : str) :
  s <> [] -> forallb is_digit s = true -> parseInt s = Some (Z.of_nat (decimal s)).
Proof.
  intros Hne H. destruct s as [|c t]; [contradiction|].
  pose proof H as H'. cbn [forallb] in H'. apply andb_true_iff in H' as [Hc Ht].
  assert (E : parseInt (c :: t) = Some (leading_digits (c :: t) 0)).
  { clear H Ht Hne. each_digit c Hc; reflexivity. }
  rewrite E. unfold decimal.
  now rewrite <- (@leading_digits_all (c :: t) 0 H).
Qed.

(** X8.  On four digits isYearPattern holds exactly when the number they
    spell lies in 1900..2100; isValidOTP refuses such a code. *)
Theorem year_rule (s : str) :
  length s = 4 -> forallb is_digit s = true ->
  isYearPattern s = (1900 <=? decimal s) && (decimal s <=? 2100)
  /\ (isYearPattern s = true -> isValidOTP (VString s) = Normal false).
Proof.
  intros L H.
  assert (E : isYearPattern s = (1900 <=? decimal s) && (decimal s <=? 2100)).
  { unfold isYearPattern. rewrite L. cbn [Nat.eqb negb].
    rewrite parseInt_digits; [|destruct s; [discriminate|discriminate]|exact H].
    destruct (1900 <=? decimal s) eqn:A, (decimal s <=? 2100) eqn:B;
      [apply Nat.leb_le in A, B|apply Nat.leb_le in A; apply Nat.leb_gt in B
      |apply Nat.leb_gt in A; apply Nat.leb_le in B
      |apply Nat.leb_gt in A; apply Nat.leb_gt in B]; cbn [andb].
    - apply andb_true_iff; split; apply Z.leb_le; lia.
    - apply andb_false_iff; right; apply Z.leb_gt; lia.
    - apply andb_false_iff; left; apply Z.leb_gt; lia.
    - apply andb_false_iff; left; apply Z.leb_gt; lia. }
  split; [exact E|].
  intros Hy. rewrite isValidOTP_string. f_equal.
  apply (@rejected_by (Rule (lit "Year pattern")
           (fun c => test false re_numeric c && isYearPattern c))).
  - cbn. tauto.
  - cbn [rejects]. rewrite (@clean_code_fixed _ (@digits_code_chars _ H)).
    rewrite test_numeric, H, Hy. destruct s; [discriminate|reflexivity].
Qed.

(** The year 2024. *)
Lemma year_rule_witness :
  isYearPattern (lit "2024") = true
  /\ isValidOTP (VString (lit "2024")) = Normal false.
Proof.
  destruct (@year_rule (lit "2024") eq_refl eq_refl) as [E R].
  assert (Y : isYearPattern (lit "2024") = true) by (vm_compute; reflexivity).
  split; [exact Y|exact (R Y)].
Defined.

(* ================================================================== *)
(** ** CSS values and colour codes *)

Lemma words_then_end i (K : cont) sn u g :
  (forall s', found (K s') = is_empty (rest s')) ->
  forall ws w,
  found (rmatch i (alts (map word (w :: ws))) K (MState sn u g))
  = existsb (whole i u) (w :: ws).
Proof.
  intros HK ws w. revert w. induction ws as [|w2 ws IH]; intros w;
    pose proof (HK (advance (length w) (MState sn u g))) as HA;
    rewrite rest_advance in HA.
  - cbn [map alts existsb]. unfold word. rewrite rmatch_lits, orb_false_r.
    cbn [rest]. unfold whole. now destruct (prefix_canon i w u).
  - change (alts (map word (w :: w2 :: ws)))
      with (Alt (word w) (alts (map word (w2 :: ws)))).
    cbn [rmatch]. cbn [existsb] in IH |- *. rewrite <- IH.
    unfold word at 1. rewrite rmatch_lits. cbn [rest]. unfold whole.
    destruct (prefix_canon i w u); [|reflexivity]. cbn [andb]. rewrite <- HA.
    now destruct (K (advance (length w) (MState sn u g))).
Qed.

Lemma whole_upper (w : str) : forall u,
  toUpperCase w = w -> whole true u w = str_eqb (toUpperCase u) w.
Proof.
  unfold whole. induction w as [|c w IH]; intros u Hw.
  - destruct u; reflexivity.
  - destruct u as [|x u]; [reflexivity|]. cbn in Hw. injection Hw as Hc Hw.
    cbn [prefix_canon canon length skipn toUpperCase map str_eqb].
    rewrite <- andb_assoc. fold (toUpperCase u). rewrite (IH u Hw), Hc.
    now rewrite Ascii.eqb_sym.
Qed.

Lemma css_no_digit sn' x t :
  is_digit x = true ->
  rmatch true
    (Seq (Group 1 (alts (map word css_units))) (Seq Eol Empty)) Some
    (MState sn' (x :: t) []) = None.
Proof. intros H. each_digit x H; reflexivity. Qed.

Lemma groups_advance : forall n s, groups (advance n s) = groups s.
Proof.
  induction n as [|n IH]; intros s; [reflexivity|].
  destruct s as [sn [|x t] g]; [reflexivity|]. now rewrite advance_cons, IH.
Qed.

Lemma state_eta s : s = MState (seen s) (rest s) (groups s).
Proof. now destruct s. Qed.

Lemma isCSSValue_eq (code : str) :
  isCSSValue code =
  (1 <=? run is_digit code)
  && existsb (str_eqb (toUpperCase (skipn (run is_digit code) code))) css_units.
Proof.
  unfold isCSSValue, re_css. cbn [cat fold_right]. rewrite test_bol, rmatch_seq.
  unfold digit. rewrite rmatch_plus. change (cmatch true CDigit) with is_digit.
  change (rmatch true (Seq (Group 1 _) (Seq Eol Empty)) Some)
    with (rmatch true (Seq (Group 1 (alts (map word css_units))) (Seq Eol Empty)) Some).
  rewrite greedy_end by (intros sn' x t; apply css_no_digit).
  destruct (1 <=? run is_digit code); [|reflexivity]. cbn [andb].
  set (s := advance (run is_digit code) (MState [] code [])).
  rewrite (state_eta s). unfold s at 2 3.
  rewrite rest_advance, groups_advance. cbn [groups].
  rewrite rmatch_seq. cbn [rmatch].
  etransitivity; [apply words_then_end|].
  - intros s'. cbn [close_group rest]. now destruct (is_empty (rest s')).
  - apply existsb_eq_in. intros w Hw. apply whole_upper.
    cbn in Hw. repeat (destruct Hw as [<-|Hw]; [reflexivity|]). contradiction.
Qed.

(** X9.  isCSSValue holds exactly of a non-empty run of digits followed
    by one of the twelve units, in any letter case.  Hence a code whose
    cleaned form is a run of digits followed by a unit is refused by
    isValidOTP. *)
Theorem css_rule :
  (forall code,
      isCSSValue code =
      (1 <=? run is_digit code)
      && existsb (str_eqb (toUpperCase (skipn (run is_digit code) code))) css_units)
  /\ (forall s ds unit,
      ds <> [] -> forallb is_digit ds = true -> In unit css_units ->
      clean_code s = ds ++ unit ->
      isValidOTP (VString s) = Normal false).
Proof.
  split; [exact isCSSValue_eq|].
  intros s ds unit Hne Hd Hu E.
  assert (C : isCSSValue (clean_code s) = true).
  { rewrite E, isCSSValue_eq.
    assert (R : run is_digit (ds ++ unit) = length ds).
    { cbn in Hu.
      repeat (destruct Hu as [<-|Hu];
              [apply run_app_stop; [now apply forallb_all|reflexivity]|]).
      contradiction. }
    rewrite R, skipn_app, skipn_all, Nat.sub_diag. cbn [app skipn].
    apply andb_true_iff. split.
    - destruct ds; [contradiction|reflexivity].
    - apply existsb_exists. exists unit. split; [exact Hu|].
      cbn in Hu. repeat (destruct Hu as [<-|Hu]; [reflexivity|]). contradiction. }
  rewrite isValidOTP_string. f_equal.
  apply (@rejected_by (Rule (lit "CSS value") isCSSValue)); [cbn; tauto|exact C].
Qed.

(** A width in pixels, written with a space. *)
Lemma css_rule_witness :
  isValidOTP (VString (lit "100 px")) = Normal false.
Proof.
  apply (proj2 css_rule (lit "100 px") (lit "100") (lit "PX")).
  - discriminate.
  - reflexivity.
  - cbn. tauto.
  - vm_compute. reflexivity.
Defined.

Lemma hex_class (c : ascii) :
  cmatch true (COr (CRange "0" "9") (CRange "A" "F")) c = is_hex c.
Proof. each_ascii c. Qed.

Ltac shapes :=
  cbn -[cmatch canon Ascii.eqb];
  change (canon true) with upper; unfold same; rewrite <- ?hex_class;
  repeat match goal with
         | |- context [Ascii.eqb ?x ?y] => destruct (Ascii.eqb x y)
         | |- context [cmatch true ?k ?z] => destruct (cmatch true k z)
         end;
  reflexivity.

Lemma pairs_shape (code : str) : test true re_pairs code = pairs3 code.
Proof.
  unfold re_pairs. cbn [cat fold_right]. rewrite test_bol.
  destruct code as [|a [|b [|c [|d [|e [|f [|g t]]]]]]]; shapes.
Qed.

Lemma gray_shape (code : str) : test true re_gray code = pairs3 code.
Proof.
  unfold re_gray. cbn [cat fold_right]. rewrite test_bol.
  destruct code as [|a [|b [|c [|d [|e [|f [|g t]]]]]]]; shapes.
Qed.

Lemma isLikelyColorCode_eq (code : str) :
  isLikelyColorCode code =
  (length code =? 6) && forallb is_hex code
  && (pairs3 code || existsb (str_eqb (toUpperCase code)) commonColors).
Proof.
  unfold isLikelyColorCode. rewrite gray_shape, pairs_shape.
  unfold re_hex, hex. rewrite test_all, (forallb_eq _ _ code hex_class).
  destruct (length code =? 6) eqn:L; [|reflexivity]. cbn [negb andb].
  destruct code as [|a t]; [discriminate|]. cbn [is_empty negb andb].
  destruct (forallb is_hex (a :: t)); [|reflexivity]. cbn [negb andb].
  destruct (pairs3 (a :: t)); [reflexivity|].
  now destruct (existsb _ commonColors).
Qed.

Lemma hex_kept (c : ascii) :
  is_hex c = true -> not_dash_space c = true /\ is_hex (upper c) = true.
Proof. each_ascii c; intros _; split; reflexivity. Qed.

Lemma same_upper (a : ascii) : same (upper a) (upper a) = true.
Proof. apply Ascii.eqb_refl. Qed.

(** X10.  isLikelyColorCode holds exactly of the strings of six
    hexadecimal digits that read xyxyxy up to case or that are, once
    upper-cased, one of the listed colours.  The grayscale test accepts
    the same strings as the repeating-pair test, so that it never decides.
    Hence isValidOTP refuses every code xyxyxy made of two hexadecimal
    digits. *)
Theorem color_rule :
  (forall code,
      isLikelyColorCode code =
      (length code =? 6) && forallb is_hex code
      && (pairs3 code || existsb (str_eqb (toUpperCase code)) commonColors))
  /\ (forall code, test true re_gray code = test true re_pairs code)
  /\ (forall x y,
      is_hex x = true -> is_hex y = true ->
      isValidOTP (VString [x; y; x; y; x; y]) = Normal false).
Proof.
  split; [exact isLikelyColorCode_eq|].
  split; [intros code; now rewrite gray_shape, pairs_shape|].
  intros x y Hx Hy. rewrite isValidOTP_string. f_equal.
  apply (@rejected_by (Rule (lit "Likely color code") isLikelyColorCode));
    [cbn; tauto|]. cbn [rejects].
  destruct (hex_kept _ Hx) as [Kx Ux], (hex_kept _ Hy) as [Ky Uy].
  rewrite clean_code_filter. cbn [filter]. rewrite Kx, Ky.
  cbn [toUpperCase map]. rewrite isLikelyColorCode_eq.
  cbn [length Nat.eqb forallb pairs3]. rewrite Ux, Uy, !same_upper. reflexivity.
Qed.

(** A grey, written in lower case. *)
Lemma color_rule_witness :
  isValidOTP (VString (lit "a7a7a7")) = Normal false.
Proof.
  apply (proj2 (proj2 color_rule) "a"%char "7"%char); reflexivity.
Defined.

(* ================================================================== *)
(** ** The Validator and the form of its input *)






Lemma clean_code_separator (a b : str) (sep : ascii) :
  not_dash_space sep = false -> clean_code (a ++ sep :: b) = clean_code (a ++ b).
Proof.
  intros H. rewrite !clean_code_filter, !filter_app. cbn [filter]. now rewrite H.
Qed.

Lemma same_clean_same_validity (s s' : str) :
  clean_code s = clean_code s' -> isValidOTP (VString s) = isValidOTP (VString s').
Proof.
  intros E. rewrite !isValidOTP_string. unfold isValidOTP_str. now rewrite E.
Qed.



Lemma code_char_line (c : ascii) :
  is_code_char c = true -> is_line_terminator c = false.
Proof. each_ascii c. Qed.

Lemma code_char_cases (c : ascii) :
  is_code_char c = true -> is_letter c = true \/ is_digit c = true.
Proof. each_ascii c; intros _; tauto. Qed.

(** X2.  A string that isValidOTP accepts has a cleaned form of 4 to 8
    code units, all of them in A-Z and 0-9, at least one of them a digit,
    and not all of them equal. *)
Theorem accepted_code_shape (s : str) :
  isValidOTP (VString s) = Normal true ->
  4 <= length (clean_code s) <= 8
  /\ all_are is_code_char (clean_code s)
  /\ (exists x, In x (clean_code s) /\ is_digit x = true)
  /\ (exists x y, In x (clean_code s) /\ In y (clean_code s) /\ x <> y).
Proof.
  rewrite isValidOTP_string. intros H. injection H as H. revert H.
  unfold isValidOTP_str. set (c := clean_code s).
  destruct ((length c <? 4) || (8 <? length c)) eqn:L; [discriminate|].
  destruct (negb (test false re_alnum c)) eqn:A; [discriminate|].
  destruct (isAllZeros c); [discriminate|].
  destruct (isSequential c); [discriminate|].
  destruct (isRepetitive c) eqn:R; [discriminate|].
  destruct (test false re_numeric c && isDatePattern c); [discriminate|].
  destruct (test false re_numeric c && isYearPattern c); [discriminate|].
  destruct (negb (isValidAlphanumeric c)) eqn:V; [discriminate|].
  intros _.
  apply orb_false_iff in L as [L1 L2]. apply Nat.ltb_ge in L1, L2.
  apply negb_false_iff in A. rewrite test_alnum in A.
  apply andb_true_iff in A as [_ A].
  apply negb_false_iff in V. rewrite isValidAlphanumeric_eq in V.
  rewrite isRepetitive_eq in R.
  destruct c as [|x [|y t]]; [cbn in L1; lia|cbn in L1; lia|].
  assert (Hx : is_code_char x = true)
    by (cbn [forallb] in A; now apply andb_true_iff in A as [A _]).
  split; [lia|]. split; [now apply forallb_all|]. split.
  - apply orb_true_iff in V as [V|V].
    + apply negb_true_iff in V. cbn [existsb] in V.
      apply orb_false_iff in V as [V _].
      destruct (code_char_cases _ Hx) as [K|K]; [congruence|].
      exists x. split; [now left|exact K].
    + apply existsb_exists in V as (z & Hz & Dz). now exists z.
  - rewrite (code_char_line _ Hx) in R. cbn [negb andb] in R.
    apply forallb_false in R as (z & Hz & Ez).
    exists x, z. split; [now left|]. split; [now right|].
    intros ->. now rewrite Ascii.eqb_refl in Ez.
Qed.

(** A code with letters, written with a dash. *)
Lemma accepted_code_shape_witness :
  4 <= length (clean_code (lit "a1b-2c3")) <= 8
  /\ all_are is_code_char (clean_code (lit "a1b-2c3"))
  /\ (exists x, In x (clean_code (lit "a1b-2c3")) /\ is_digit x = true)
  /\ (exists x y, In x (clean_code (lit "a1b-2c3"))
                  /\ In y (clean_code (lit "a1b-2c3")) /\ x <> y).
Proof.
  apply (@accepted_code_shape (lit "a1b-2c3")). vm_compute. reflexivity.
Defined.

(* ================================================================== *)
(** ** The Resolver on its own results *)

Lemma digit_upper_digit (c : ascii) : is_digit (upper c) = is_digit c.
Proof. each_ascii c. Qed.

Lemma code_char_alnum (c : ascii) : is_code_char c = true -> is_alnum c = true.
Proof. each_ascii c. Qed.

Lemma digits_only_upper_alnum (g : str) :
  digits_only (toUpperCase (alnum_only g)) = digits_only g.
Proof.
  unfold digits_only, toUpperCase, alnum_only.
  induction g as [|c g IH]; [reflexivity|]. cbn [filter].
  destruct (is_alnum c) eqn:A.
  - cbn [map filter]. rewrite digit_upper_digit, IH.
    destruct (is_digit c) eqn:D; [|reflexivity]. now rewrite (upper_digit _ D).
  - rewrite IH. destruct (is_digit c) eqn:D; [|reflexivity].
    now rewrite (digit_alnum _ D) in A.
Qed.

Lemma digits_only_fixed (c : str) : forallb is_digit c = true -> digits_only c = c.
Proof.
  unfold digits_only. induction c as [|x c IH]; [reflexivity|]. cbn.
  intros H. apply andb_true_iff in H as [Hx Hc]. now rewrite Hx, IH.
Qed.

Lemma digits_only_digits (g : str) : forallb is_digit (digits_only g) = true.
Proof. apply forallb_forall. intros x Hx. now apply filter_In in Hx. Qed.

Lemma upper_alnum_fixed (c : str) :
  all_are is_code_char c -> toUpperCase (alnum_only c) = c.
Proof.
  unfold toUpperCase, alnum_only. induction 1 as [|x c Hx Hc IH]; [reflexivity|].
  cbn [filter]. rewrite (code_char_alnum _ Hx). cbn [map].
  destruct (@code_char_kept x Hx) as [_ U]. now rewrite U, IH.
Qed.

(** X11.  The Resolver is idempotent: a code it returns is returned
    unchanged when it is resolved again. *)
Theorem processCode_idempotent (g c : str) :
  processCode g = Some c -> processCode c = Some c.
Proof.
  rewrite !processCode_eq.
  destruct (len48 (digits_only g) && passes (digits_only g)) eqn:E1.
  - intros [= <-]. rewrite (digits_only_fixed _ (digits_only_digits g)).
    now rewrite E1.
  - destruct (len48 (toUpperCase (alnum_only g))
              && passes (toUpperCase (alnum_only g))) eqn:E2; [|discriminate].
    intros [= <-]. rewrite digits_only_upper_alnum, E1.
    rewrite (upper_alnum_fixed (upper_alnum_code_chars g)). now rewrite E2.
Qed.

(** A code with letters, written with separators. *)
Lemma processCode_idempotent_witness :
  processCode (lit "a1-b2 c3") = Some (lit "A1B2C3")
  /\ processCode (lit "A1B2C3") = Some (lit "A1B2C3").
Proof.
  assert (E : processCode (lit "a1-b2 c3") = Some (lit "A1B2C3"))
    by (vm_compute; reflexivity).
  split; [exact E|]. exact (processCode_idempotent _ E).
Defined.

Lemma processCode_valid (g c : str) :
  processCode g = Some c -> len48 c = true /\ passes c = true.
Proof.
  rewrite processCode_eq.
  destruct (len48 (digits_only g) && passes (digits_only g)) eqn:E1.
  - intros [= <-]. now apply andb_true_iff in E1.
  - destruct (len48 (toUpperCase (alnum_only g))
              && passes (toUpperCase (alnum_only g))) eqn:E2; [|discriminate].
    intros [= <-]. now apply andb_true_iff in E2.
Qed.

(* ================================================================== *)
(** ** Where an extracted code comes from *)

Lemma passed_occurs s w s' : passed s w s' -> occurs w (subject s).
Proof.
  intros [R _]. exists (rev (seen s)), (rest s'). unfold subject. now rewrite R.
Qed.

Lemma mrel_group_in i n r s s' :
  mrel i r s s' ->
  caps_in (subject s) n (groups s) -> caps_in (subject s) n (groups s').
Proof.
  induction 1; intros C; try assumption.
  - destruct (advance_passed 1 s) as (w & _ & G & _). now rewrite G.
  - rewrite <- (mrel_subject H). apply IHmrel2. rewrite (mrel_subject H). auto.
  - auto.
  - auto.
  - rewrite <- (mrel_subject H0). apply IHmrel2. rewrite (mrel_subject H0). auto.
  - unfold caps_in, close_group. cbn [groups lookup].
    destruct (n =? n0) eqn:E.
    + destruct (mrel_passed H) as (w & Pw).
      rewrite (passed_firstn Pw). now apply passed_occurs with (s' := s').
    + now apply IHmrel.
  - destruct (advance_passed (length v) s) as (w & _ & G & _). now rewrite G.
Qed.

Lemma match_here_group_in i n r sn rs m g :
  match_here i r sn rs = Some m -> group n m = Some g ->
  occurs g (rev sn ++ rs).
Proof.
  intros H G. apply match_here_sound in H as (s' & M & ->).
  pose proof (@mrel_group_in i n r _ _ M I) as C.
  unfold caps_in in C. unfold group in G. cbn [m_groups groups] in *.
  destruct (lookup n (groups s')) as [[a v]|]; [|discriminate].
  now injection G as <-.
Qed.

Lemma match_here_text_in i r sn rs m :
  match_here i r sn rs = Some m -> occurs (m_text m) (rev sn ++ rs).
Proof.
  intros H. apply match_here_sound in H as (s' & M & ->). cbn [m_text].
  destruct (mrel_passed M) as (w & Pw).
  pose proof (passed_firstn Pw) as F. unfold pos at 2 in F. cbn [seen rest] in F.
  rewrite F. exact (passed_occurs Pw).
Qed.

Lemma substring_occurs (s : str) (from to : nat) : occurs (substring s from to) s.
Proof.
  unfold substring. exists (firstn from s), (skipn (to - from) (skipn from s)).
  now rewrite firstn_skipn, firstn_skipn.
Qed.

Lemma first_code_from (clean : str) (cands : list str) (c : str) :
  Forall (fun g => occurs g clean /\ all_are digit_dash_space g) cands ->
  first_code cands = Some c -> from_text clean c.
Proof.
  induction 1 as [|g cands [Hg Ag] Hc IH]; cbn [first_code]; [discriminate|].
  destruct (processCode g) as [c'|] eqn:E; [|assumption].
  destruct (is_empty c'); [assumption|]. intros [= <-]. now exists g.
Qed.

Lemma try_patterns_from (clean : str) (ps : list pattern) (c : str) :
  forallb plain_group ps = true -> try_patterns clean ps = Some c ->
  from_text clean c.
Proof.
  induction ps as [|[i p] ps IH]; cbn [try_patterns forallb]; [discriminate|].
  intros H. apply andb_true_iff in H as [Hp Hps]. specialize (IH Hps).
  destruct (js_match i p clean) as [m|] eqn:M; [|assumption].
  destruct (group 1 m) as [g|] eqn:G; [|assumption].
  destruct (is_empty g); [assumption|].
  destruct (processCode g) as [c'|] eqn:E; [|assumption].
  destruct (is_empty c'); [assumption|]. intros [= <-].
  apply search_sound in M as (sn' & rs' & S & M). cbn [rev app] in S.
  exists g. split; [|split; [|exact E]].
  - rewrite <- S. eapply match_here_group_in; eassumption.
  - eapply match_here_group_only; [exact M|exact Hp|exact G].
Qed.

Lemma smartContext_from (clean lowerClean : str) (phrases : list str) (c : str) :
  smartContext clean lowerClean phrases = Some c -> from_text clean c.
Proof.
  induction phrases as [|ph phs IH]; cbn [smartContext]; [discriminate|].
  destruct (indexOf lowerClean ph) as [index|]; [|assumption].
  destruct (first_code _) as [c'|] eqn:E; [|assumption].
  intros [= <-]. apply first_code_from with (clean := clean) in E; [assumption|].
  apply Forall_forall. intros g Hg. unfold match_g in Hg.
  apply in_map_iff in Hg as (m & <- & Hm).
  apply scan_sound in Hm as (sn' & rs' & S & M). cbn [rev app] in S. split.
  - eapply occurs_trans; [|apply substring_occurs].
    rewrite <- S. eapply match_here_text_in; eassumption.
  - apply all_are_weaken with (P := is_digit); [apply digit_is_plain|].
    eapply match_here_only; [exact M|]. vm_compute. reflexivity.
Qed.

Lemma fallback_from (clean : str) (lengths : list nat) (c : str) :
  fallback clean lengths = Some c -> from_text clean c.
Proof.
  induction lengths as [|len ls IH]; cbn [fallback]; [discriminate|].
  destruct (first_code _) as [c'|] eqn:E; [|assumption].
  intros [= <-]. apply first_code_from with (clean := clean) in E; [assumption|].
  apply Forall_forall. intros g Hg.
  apply in_flat_map in Hg as (m & Hm & Hg). unfold group1_of in Hg.
  destruct (group 1 m) as [g'|] eqn:G; [|contradiction].
  destruct (is_empty g'); [contradiction|]. destruct Hg as [<-|[]].
  apply scan_sound in Hm as (sn' & rs' & S & M). cbn [rev app] in S. split.
  - rewrite <- S. eapply match_here_group_in; eassumption.
  - apply all_are_weaken with (P := is_digit); [apply digit_is_plain|].
    eapply match_here_group_only; [exact M| |exact G]. vm_compute. reflexivity.
Qed.

Lemma extractOTP_str_from (text : str) (r : otp) :
  extractOTP_str text = Some r -> from_text (cleanText text) (otp_code r).
Proof.
  unfold extractOTP_str.
  destruct (negb (hasVerificationContext (cleanText text))); [discriminate|].
  repeat match goal with
  | |- context [try_patterns ?c ?ps] =>
      let E := fresh "E" in
      destruct (try_patterns c ps) eqn:E;
      [intros [= <-]; apply try_patterns_from in E; [exact E|vm_compute; reflexivity]|]
  end.
  destruct (smartContext _ _ _) eqn:E6;
    [intros [= <-]; now apply smartContext_from in E6|].
  destruct (fallback _ _) eqn:E7; [|discriminate].
  intros [= <-]. now apply fallback_from in E7.
Qed.

Lemma extractOTP_string (text : str) (r : otp) :
  extractOTP (VString text) = Normal (Some r) -> extractOTP_str text = Some r.
Proof.
  unfold extractOTP. cbn [truthy typeof_string negb orb as_string].
  rewrite orb_false_r. destruct text as [|c t]; [discriminate|].
  cbn [is_empty negb]. now intros [= ->].
Qed.

Lemma extractOTP_is_string (v : value) (r : otp) :
  extractOTP v = Normal (Some r) -> exists text, v = VString text.
Proof.
  unfold extractOTP. destruct v as [| | b | z | | s |];
    cbn [truthy typeof_string negb orb]; rewrite ?orb_true_r; try discriminate.
  intros _. now exists s.
Qed.

Lemma from_text_valid (clean c : str) :
  from_text clean c -> isValidOTP (VString c) = Normal true.
Proof.
  intros (g & _ & _ & E). apply processCode_valid in E as [_ V].
  rewrite passes_body in V. now rewrite isValidOTP_string, V.
Qed.

Lemma from_text_digits (clean c : str) :
  from_text clean c ->
  exists g, occurs g clean /\ all_are digit_dash_space g /\ c = digits_only g.
Proof.
  intros (g & O & A & E). exists g. split; [exact O|]. split; [exact A|].
  rewrite (processCode_plain A) in E.
  destruct (len48 (digits_only g) && passes (digits_only g)); [|discriminate].
  now injection E.
Qed.

Lemma pipeline_from (v : value) (r : otp) :
  pipeline v = Some r ->
  exists text, v = VString text /\ from_text (cleanText text) (otp_code r).
Proof.
  intros H. assert (E : extractOTP v = Normal (Some r))
    by (rewrite extractOTP_total; now f_equal).
  destruct (extractOTP_is_string _ E) as (text & ->). exists text.
  split; [reflexivity|]. now apply extractOTP_str_from, extractOTP_string.
Qed.

(** X12.  Every code that extractOTP or extractOTPFromEmail returns is
    accepted by isValidOTP. *)
Theorem extracted_code_is_valid :
  (forall text r,
      extractOTP text = Normal (Some r) ->
      isValidOTP (VString (otp_code r)) = Normal true)
  /\ (forall subject body e,
      extractOTPFromEmail subject body = Normal (Some e) ->
      isValidOTP (VString (code e)) = Normal true).
Proof.
  assert (P : forall v r, pipeline v = Some r ->
                          isValidOTP (VString (otp_code r)) = Normal true).
  { intros v r H. destruct (pipeline_from _ H) as (text & _ & F).
    exact (from_text_valid F). }
  split.
  - intros text r H. apply (P text). rewrite extractOTP_total in H. congruence.
  - intros subject body e. rewrite email_result.
    destruct (pipeline subject) as [r|] eqn:S.
    + intros [= <-]. exact (P _ _ S).
    + destruct (pipeline body) as [r|] eqn:B; [|discriminate].
      intros [= <-]. exact (P _ _ B).
Qed.

(** The body of Scenario B. *)
Lemma extracted_code_is_valid_witness :
  extractOTP (VString (lit "Your verification code: 58-19-02"))
    = Normal (Some (Otp (lit "581902") high))
  /\ isValidOTP (VString (lit "581902")) = Normal true.
Proof.
  split; [vm_compute; reflexivity|].
  apply (proj1 extracted_code_is_valid
               (VString (lit "Your verification code: 58-19-02"))
               (Otp (lit "581902") high)).
  vm_compute. reflexivity.
Defined.

(** X13.  The code extractOTP returns is read off the normalized text: it
    is the digits of one segment of that text, and the segment holds
    nothing but digits, dashes and white space. *)
Theorem extracted_code_lies_in_text (text : str) (r : otp) :
  extractOTP (VString text) = Normal (Some r) ->
  exists g, occurs g (cleanText text)
            /\ all_are digit_dash_space g
            /\ otp_code r = digits_only g.
Proof.
  intros H. apply extractOTP_string, extractOTP_str_from in H.
  exact (from_text_digits H).
Qed.

(** A code written in two groups after a marked-up label. *)
Lemma extracted_code_lies_in_text_witness :
  exists g, occurs g (cleanText (lit "<b>PIN</b>: 731 904"))
            /\ all_are digit_dash_space g
            /\ lit "731904" = digits_only g.
Proof.
  apply (@extracted_code_lies_in_text (lit "<b>PIN</b>: 731 904")
           (Otp (lit "731904") high)).
  vm_compute. reflexivity.
Defined.

Lemma fallback_group (len : nat) sn rs m g :
  match_here false (fallbackPattern len) sn rs = Some m ->
  group 1 m = Some g -> length g = len /\ all_are is_digit g.
Proof.
  intros H G. apply match_here_sound in H as (s' & M & ->).
  unfold fallbackPattern in M. cbn [cat fold_right] in M.
  apply mrel_seq_inv in M as (s1 & Mb & M). apply mrel_wordb_inv in Mb as ->.
  apply mrel_seq_inv in M as (s2 & Mg & M).
  apply mrel_seq_inv in M as (s3 & Mb & M). apply mrel_wordb_inv in Mb as ->.
  apply mrel_empty_inv in M as ->.
  apply mrel_group_inv in Mg as (s1 & Mr & ->).
  apply rep_char in Mr as (w & Pw & L & A & _).
  unfold group, close_group in G. cbn [m_groups groups lookup Nat.eqb] in G.
  rewrite (passed_firstn Pw) in G. injection G as <-.
  split; [lia|]. revert A. apply all_are_weaken, d09_digit.
Qed.

Lemma first_code_length (lens : list nat) (cands : list str) (c : str) :
  Forall (fun g => In (length g) lens /\ all_are is_digit g) cands ->
  first_code cands = Some c -> In (length c) lens.
Proof.
  induction 1 as [|g cands [Lg Ag] Hc IH]; cbn [first_code]; [discriminate|].
  destruct (processCode g) as [c'|] eqn:E; [|assumption].
  destruct (is_empty c'); [assumption|]. intros [= <-].
  destruct (processCode_letter_free (digits_letter_free Ag) E) as [-> _].
  now rewrite (digits_only_fixed _ (all_forallb Ag)).
Qed.

Lemma fallback_length (clean : str) (lengths : list nat) (c : str) :
  fallback clean lengths = Some c -> In (length c) lengths.
Proof.
  induction lengths as [|len ls IH]; cbn [fallback]; [discriminate|].
  destruct (first_code _) as [c'|] eqn:E; [|right; auto].
  intros [= <-]. left. 
  apply first_code_length with (lens := [len]) in E; [cbn in E; tauto|].
  apply Forall_forall. intros g Hg.
  apply in_flat_map in Hg as (m & Hm & Hg). unfold group1_of in Hg.
  destruct (group 1 m) as [g'|] eqn:G; [|contradiction].
  destruct (is_empty g'); [contradiction|]. destruct Hg as [<-|[]].
  apply scan_sound in Hm as (sn' & rs' & _ & M).
  destruct (fallback_group _ _ _ M G) as [L A]. split; [now left|exact A].
Qed.

(** X14.  A code returned with confidence "low" has 6, 4, 5 or 8 digits:
    the generic fallback never returns a code of 7 digits. *)
Theorem low_confidence_lengths (text : value) (r : otp) :
  extractOTP text = Normal (Some r) -> otp_confidence r = low ->
  In (length (otp_code r)) fallbackLengths /\ length (otp_code r) <> 7.
Proof.
  intros H Hl.
  assert (L : In (length (otp_code r)) fallbackLengths).
  { destruct (extractOTP_is_string _ H) as (s & ->).
    apply extractOTP_string in H. revert H. unfold extractOTP_str.
    destruct (negb (hasVerificationContext (cleanText s))); [discriminate|].
    repeat match goal with
    | |- context [try_patterns ?c ?ps] =>
        destruct (try_patterns c ps);
        [intros [= <-]; discriminate|]
    end.
    destruct (smartContext _ _ _); [intros [= <-]; discriminate|].
    destruct (fallback _ _) eqn:E7; [|discriminate].
    intros [= <-]. now apply fallback_length in E7. }
  split; [exact L|]. cbn in L. lia.
Qed.

(** A six-digit token next to a keyword that no pattern names. *)
Lemma low_confidence_lengths_witness :
  extractOTP (VString (lit "token 482915")) = Normal (Some (Otp (lit "482915") low))
  /\ In 6 fallbackLengths /\ 6 <> 7.
Proof.
  assert (E : extractOTP (VString (lit "token 482915"))
              = Normal (Some (Otp (lit "482915") low)))
    by (vm_compute; reflexivity).
  split; [exact E|].
  exact (@low_confidence_lengths _ _ E eq_refl).
Defined.

(* ================================================================== *)
(** ** The Context Gate and the labelled patterns *)

Lemma lower_upper (c : ascii) : lower (upper c) = lower c.
Proof. each_ascii c. Qed.

Lemma canon_lower i (a b : ascii) : canon i a = canon i b -> lower a = lower b.
Proof.
  destruct i; cbn [canon]; [|congruence].
  intros H. now rewrite <- (lower_upper a), <- (lower_upper b), H.
Qed.

Lemma context_case (a b : str) :
  toLowerCase a = toLowerCase b ->
  hasVerificationContext a = hasVerificationContext b.
Proof. unfold hasVerificationContext. now intros ->. Qed.

Lemma context_grows (w text : str) :
  occurs w text -> hasVerificationContext w = true ->
  hasVerificationContext text = true.
Proof.
  intros (a & b & ->) H. unfold hasVerificationContext in *.
  apply existsb_exists in H as (kw & Hin & Hk). apply existsb_exists.
  exists kw. split; [exact Hin|]. apply includes_occurs.
  apply includes_occurs in Hk. eapply occurs_trans; [exact Hk|].
  unfold toLowerCase. rewrite !map_app. now exists (map lower a), (map lower b).
Qed.

Lemma literal_spelled i r s s' :
  mrel i r s s' -> forall p, literal r = Some p ->
  exists w, passed s w s' /\ toLowerCase w = toLowerCase p.
Proof.
  induction 1; cbn [literal]; intros p L; try discriminate.
  - injection L as <-. exists []. split; [apply passed_refl|reflexivity].
  - destruct k; try discriminate. injection L as <-.
    destruct (rest s) as [|y t] eqn:E; [discriminate|]. cbn in H. injection H as ->.
    exists [x]. split.
    + cbn [advance]. rewrite E. split; cbn [rest seen]; [now rewrite E|reflexivity].
    + cbn [cmatch] in H0. apply Ascii.eqb_eq in H0. cbn.
      now rewrite (canon_lower _ _ _ H0).
  - destruct (literal r1) as [x|]; [|discriminate].
    destruct (literal r2) as [y|]; [|discriminate]. injection L as <-.
    destruct (IHmrel1 _ eq_refl) as (w1 & P1 & E1).
    destruct (IHmrel2 _ eq_refl) as (w2 & P2 & E2).
    exists (w1 ++ w2). split; [eapply passed_trans; eassumption|].
    unfold toLowerCase in *. now rewrite !map_app, E1, E2.
Qed.

Lemma names_keyword_sound i r s s' :
  mrel i r s s' -> names_keyword r = true ->
  exists w, passed s w s' /\ hasVerificationContext w = true.
Proof.
  assert (Lit : forall r s s' p, mrel i r s s' -> literal r = Some p ->
                hasVerificationContext p = true ->
                exists w, passed s w s' /\ hasVerificationContext w = true).
  { intros r0 s0 s0' p M L C.
    destruct (literal_spelled M L) as (w & Pw & E).
    exists w. split; [exact Pw|]. now rewrite (context_case _ _ E). }
  assert (Left : forall s0 s1 s2 w, passed s0 w s1 ->
                 hasVerificationContext w = true ->
                 (exists w2, passed s1 w2 s2) ->
                 exists w', passed s0 w' s2 /\ hasVerificationContext w' = true).
  { intros s0 s1 s2 w P C (w2 & P2). exists (w ++ w2).
    split; [eapply passed_trans; eassumption|].
    apply context_grows with (w := w); [now exists [], w2|exact C]. }
  assert (Right : forall s0 s1 s2 w, passed s1 w s2 ->
                 hasVerificationContext w = true ->
                 (exists w1, passed s0 w1 s1) ->
                 exists w', passed s0 w' s2 /\ hasVerificationContext w' = true).
  { intros s0 s1 s2 w P C (w1 & P1). exists (w1 ++ w).
    split; [eapply passed_trans; eassumption|].
    apply context_grows with (w := w); [|exact C].
    exists w1, []. now rewrite app_nil_r. }
  induction 1 as [s|k x s Hx Hc|r1 r2 s s1 s2 M1 IH1 M2 IH2|r1 r2 s s' M IH
                  |r1 r2 s s' M IH|g hi r s|g lo hi r s s1 s2 Hhi M1 IH1 M2 IH2
                  |n r s s' M IH|n s Hn|n a v s Hn Hp|s Hs|s Hs|s Hs];
    intros N.
  - discriminate.
  - cbn [names_keyword] in N. destruct (literal (Char k)) as [p|] eqn:L;
      [|discriminate].
    exact (Lit _ _ _ _ (M_char _ _ _ Hx Hc) L N).
  - cbn [names_keyword] in N. destruct (literal (Seq r1 r2)) as [p|] eqn:L.
    + exact (Lit _ _ _ _ (M_seq M1 M2) L N).
    + apply orb_true_iff in N as [N|N].
      * destruct (IH1 N) as (w & Pw & C).
        exact (Left _ _ _ _ Pw C (mrel_passed M2)).
      * destruct (IH2 N) as (w & Pw & C).
        exact (Right _ _ _ _ Pw C (mrel_passed M1)).
  - cbn in N. apply andb_true_iff in N as [N _]. auto.
  - cbn in N. apply andb_true_iff in N as [_ N]. auto.
  - cbn in N. discriminate.
  - cbn in N. apply andb_true_iff in N as [_ N].
    destruct (IH1 N) as (w & Pw & C).
    exact (Left _ _ _ _ Pw C (mrel_passed M2)).
  - cbn in N. destruct (IH N) as (w & [R S] & C).
    exists w. split; [|exact C]. split; assumption.
  - discriminate.
  - discriminate.
  - discriminate.
  - discriminate.
  - discriminate.
Qed.

(** X15.  Whenever a pattern of tier 1 or of tier 2 matches a text, the
    text has verification context: each of these patterns spells a
    verification keyword.  The Context Gate therefore never stops a
    labelled match. *)
Theorem labelled_match_has_context (p : pattern) (clean : str) (m : match_result) :
  In p labelled -> js_match (fst p) (snd p) clean = Some m ->
  hasVerificationContext clean = true.
Proof.
  intros Hp M.
  assert (N : forallb (fun q => names_keyword (snd q)) labelled = true)
    by (vm_compute; reflexivity).
  rewrite forallb_forall in N. specialize (N p Hp).
  apply js_match_sound in M as (s0 & s' & M & S & _).
  destruct (names_keyword_sound M N) as (w & Pw & C).
  apply context_grows with (w := w); [|exact C].
  rewrite <- S. exact (passed_occurs Pw).
Qed.

(** The third pattern of tier 1 on a text in capitals. *)
Lemma labelled_match_has_context_witness :
  hasVerificationContext (lit "Your PIN: 7319") = true.
Proof.
  eapply (@labelled_match_has_context
            (true, cat [WordB; code_pin_otp_passcode; ws0; one_of ":="; ws0;
                        digits48; WordB])
            (lit "Your PIN: 7319")).
  - cbn. tauto.
  - vm_compute. reflexivity.
Defined.



(* ================================================================== *)
(** ** What cleanText leaves, and what it leaves alone *)

Lemma clear_no_word f L y :
  recognises f L -> clear f y -> forall w, occurs w y -> ~ L w.
Proof.
  intros R C w (a & b & ->) Lw.
  exact (rec_complete R w b Lw (C a (w ++ b) eq_refl)).
Qed.

(** X17.  What cleanText returns is trimmed, holds white space as single
    spaces only, holds no [<] followed by a code unit other than [>], and
    contains neither the entity nbsp, in any letter case, nor a numeric
    entity. *)
Theorem cleanText_normal_form (text : str) :
  trim (cleanText text) = cleanText text
  /\ norm_ws (cleanText text) = true
  /\ tagfree (cleanText text) = true
  /\ (forall w, occurs w (cleanText text) -> ~ L_nbsp w)
  /\ (forall w, occurs w (cleanText text) -> ~ L_entity w).
Proof.
  destruct (cleanText_normalized text) as (T & N & E & W & R).
  split; [exact R|]. split; [exact W|]. split; [exact T|]. split.
  - exact (clear_no_word nbsp_recognised N).
  - exact (clear_no_word entity_recognised E).
Qed.

(** A paragraph with an entity in it. *)
Lemma cleanText_normal_form_witness :
  cleanText (lit "<p>Code:&nbsp;294817 </p>") = lit "Code: 294817"
  /\ ~ L_nbsp (lit "Code").
Proof.
  split; [vm_compute; reflexivity|].
  apply (proj1 (proj2 (proj2 (proj2
           (cleanText_normal_form (lit "<p>Code:&nbsp;294817 </p>")))))).
  exists [], (lit ": 294817"). vm_compute. reflexivity.
Defined.

Lemma no_lt_tagfree (y : str) : ~ In "<"%char y -> tagfree y = true.
Proof.
  induction y as [|c t IH]; [reflexivity|]. intros H. cbn [tagfree].
  destruct (Ascii.eqb c "<") eqn:E.
  - apply Ascii.eqb_eq in E. exfalso. apply H. now left.
  - cbn [andb]. apply IH. intros K. apply H. now right.
Qed.

Lemma amp_upper (x : ascii) : upper "&" = upper x -> x = "&"%char.
Proof. each_ascii x. Qed.

Lemma f_nbsp_amp (rs : str) (n : nat) :
  f_nbsp rs = Some n -> exists t, rs = "&"%char :: t.
Proof.
  unfold f_nbsp. destruct rs as [|x t]; [discriminate|].
  cbn [prefix_canon lit String.list_ascii_of_string canon].
  destruct (Ascii.eqb (upper "&") (upper x)) eqn:E; [|discriminate].
  intros _. apply Ascii.eqb_eq, amp_upper in E. subst x. now exists t.
Qed.

Lemma f_entity_amp (rs : str) (n : nat) :
  f_entity rs = Some n -> exists t, rs = "&"%char :: t.
Proof.
  destruct rs as [|a [|b t]]; try discriminate. cbn [f_entity].
  destruct (Ascii.eqb "&" a) eqn:E; [|discriminate].
  intros _. apply Ascii.eqb_eq in E. subst a. now eexists.
Qed.

Lemma no_amp_clear (f : str -> option nat) (y : str) :
  (forall rs n, f rs = Some n -> exists t, rs = "&"%char :: t) ->
  ~ In "&"%char y -> clear f y.
Proof.
  intros Hf H a rs ->. destruct (f rs) as [n|] eqn:E; [|reflexivity].
  destruct (Hf _ _ E) as (t & ->). exfalso. apply H.
  apply in_or_app. right. now left.
Qed.

(** X18.  cleanText leaves alone a text without [<] and without [&] that
    is trimmed and whose white space is single spaces. *)
Theorem cleanText_keeps_plain_text (text : str) :
  ~ In "<"%char text -> ~ In "&"%char text ->
  norm_ws text = true -> trim text = text ->
  cleanText text = text.
Proof.
  intros Hlt Hamp W T. apply normalized_fixed. repeat split.
  - now apply no_lt_tagfree.
  - exact (no_amp_clear f_nbsp f_nbsp_amp Hamp).
  - exact (no_amp_clear f_entity f_entity_amp Hamp).
  - exact W.
  - exact T.
Qed.

Lemma not_in_dec_str (c : ascii) (s : str) :
  existsb (Ascii.eqb c) s = false -> ~ In c s.
Proof.
  intros H K. assert (E : existsb (Ascii.eqb c) s = true).
  { apply existsb_exists. exists c. split; [exact K|apply Ascii.eqb_refl]. }
  congruence.
Qed.

(** A plain sentence. *)
Lemma cleanText_keeps_plain_text_witness :
  cleanText (lit "Your code is 294817. It expires soon")
  = lit "Your code is 294817. It expires soon".
Proof.
  apply cleanText_keeps_plain_text.
  - apply not_in_dec_str. reflexivity.
  - apply not_in_dec_str. reflexivity.
  - reflexivity.
  - reflexivity.
Defined.

Lemma cleanText_twice (text : str) : cleanText (cleanText text) = cleanText text.
Proof. apply normalized_fixed, cleanText_normalized. Qed.

Lemma extractOTP_str_clean (text : str) :
  extractOTP_str (cleanText text) = extractOTP_str text.
Proof. unfold extractOTP_str. now rewrite cleanText_twice. Qed.

Lemma pipeline_clean (text : str) :
  pipeline (VString (cleanText text)) = pipeline (VString text).
Proof.
  unfold pipeline, extractOTP.
  cbn [truthy typeof_string negb orb as_string]. rewrite !orb_false_r.
  destruct text as [|c t]; [reflexivity|]. cbn [is_empty negb].
  destruct (cleanText (c :: t)) as [|c' t'] eqn:E.
  - cbn [is_empty negb]. unfold extractOTP_str. now rewrite E.
  - cbn [is_empty negb]. rewrite <- E. now rewrite extractOTP_str_clean.
Qed.

(** X19.  Normalizing a text beforehand does not change what extractOTP
    and extractOTPFromEmail return. *)
Theorem extraction_ignores_normalization (subject body : str) :
  extractOTP (VString (cleanText body)) = extractOTP (VString body)
  /\ extractOTPFromEmail (VString (cleanText subject)) (VString (cleanText body))
     = extractOTPFromEmail (VString subject) (VString body).
Proof.
  split.
  - now rewrite !extractOTP_total, pipeline_clean.
  - now rewrite !email_result, !pipeline_clean.
Qed.

(* ================================================================== *)
(** ** formatCode *)

Lemma clean_code_formatCode (c : str) :
  clean_code (formatCode (Some c)) = clean_code c.
Proof.
  unfold formatCode. destruct c as [|x t]; [reflexivity|]. cbn [is_empty].
  destruct (length (x :: t) =? 6); [|reflexivity].
  change (lit " ") with [" "%char].
  change (firstn 3 (x :: t) ++ [" "%char] ++ skipn 3 (x :: t))
    with (firstn 3 (x :: t) ++ " "%char :: skipn 3 (x :: t)).
  rewrite clean_code_separator by reflexivity. now rewrite firstn_skipn.
Qed.

Lemma numeric_code_digits (c : str) :
  numeric_code c = true -> len48 c = true /\ forallb is_digit c = true.
Proof. unfold numeric_code. intros H. now apply andb_true_iff in H. Qed.

Lemma digits_only_formatCode (c : str) :
  forallb is_digit c = true -> digits_only (formatCode (Some c)) = c.
Proof.
  intros D. unfold formatCode. destruct c as [|x t]; [reflexivity|].
  cbn [is_empty]. destruct (length (x :: t) =? 6).
  - unfold digits_only. rewrite !filter_app. cbn [lit String.list_ascii_of_string filter].
    change (is_digit " ") with false. cbn [app]. rewrite <- filter_app, firstn_skipn.
    now apply digits_only_fixed.
  - now apply digits_only_fixed.
Qed.

(** X20.  formatCode only inserts a space: what it displays has the
    cleaned form and the validity of the code, and for a code returned by
    extractOTP the Resolver reads the displayed string back to the code. *)
Theorem formatCode_reads_back :
  (forall c, clean_code (formatCode (Some c)) = clean_code c
             /\ isValidOTP (VString (formatCode (Some c))) = isValidOTP (VString c))
  /\ (forall text r,
        extractOTP text = Normal (Some r) ->
        processCode (formatCode (Some (otp_code r))) = Some (otp_code r)).
Proof.
  split.
  - intros c. split; [apply clean_code_formatCode|].
    apply same_clean_same_validity, clean_code_formatCode.
  - intros text r H.
    assert (N : numeric_code (otp_code r) = true).
    { apply pipeline_numeric with (v := text). rewrite extractOTP_total in H.
      congruence. }
    assert (V : passes (otp_code r) = true).
    { rewrite extractOTP_total in H. injection H as H.
      destruct (pipeline_from _ H) as (t & _ & (g & _ & _ & E)).
      now apply processCode_valid in E. }
    destruct (numeric_code_digits _ N) as [L D].
    rewrite processCode_eq, (digits_only_formatCode _ D), L, V. reflexivity.
Qed.

(** Scenario A, displayed and read back. *)
Lemma formatCode_reads_back_witness :
  formatCode (Some (lit "294817")) = lit "294 817"
  /\ processCode (lit "294 817") = Some (lit "294817").
Proof.
  split; [reflexivity|].
  apply (proj2 formatCode_reads_back (VString (lit "Your OTP is 294817"))
               (Otp (lit "294817") high)).
  vm_compute. reflexivity.
Defined.

(* ================================================================== *)
(** ** A labelled code is found *)

Lemma first_explicit_split (k : cont) (s : mstate) :
  rmatch true first_explicit k s
  = rmatch true explicit_head (rmatch true explicit_tail k) s.
Proof. reflexivity. Qed.

Lemma head_hit (K : cont) (c : str) (s' : mstate) :
  K (MState (rev (lit "Your verification code is")) (" "%char :: c) []) = Some s' ->
  rmatch true explicit_head K
    (MState (rev (lit "Your ")) (lit "verification code is " ++ c) []) = Some s'.
Proof.
  intros H. vm_compute in H |- *. rewrite H. reflexivity.
Qed.

Lemma head_skip (K : cont) (c : str) :
  rmatch true explicit_head K
    (MState [] (lit "Your verification code is " ++ c) []) = None
  /\ rmatch true explicit_head K
    (MState (rev (lit "Y")) (lit "our verification code is " ++ c) []) = None
  /\ rmatch true explicit_head K
    (MState (rev (lit "Yo")) (lit "ur verification code is " ++ c) []) = None
  /\ rmatch true explicit_head K
    (MState (rev (lit "You")) (lit "r verification code is " ++ c) []) = None
  /\ rmatch true explicit_head K
    (MState (rev (lit "Your")) (lit " verification code is " ++ c) []) = None.
Proof. vm_compute. repeat split; reflexivity. Qed.

Lemma rmatch_char i c (k' : cont) sn rs g :
  rmatch i (Char c) k' (MState sn rs g) =
  match rs with
  | x :: t => if cmatch i c x then k' (MState (x :: sn) t g) else None
  | [] => None
  end.
Proof. destruct rs; reflexivity. Qed.

(** The greedy loop takes a whole text of [p] when the continuation
    accepts its end. *)
Lemma greedy_whole p (k : cont) g r : forall rs lo sn,
  forallb p rs = true -> lo <= length rs ->
  k (MState (rev rs ++ sn) [] g) = Some r ->
  greedy p k lo sn rs g = Some r.
Proof.
  induction rs as [|x t IH]; intros lo sn A L K; cbn [greedy].
  - cbn in L. assert (lo = 0) by lia. subst lo. exact K.
  - cbn [forallb] in A. apply andb_true_iff in A as [Ax At]. rewrite Ax.
    rewrite (IH (pred lo) (x :: sn)); [reflexivity|exact At|cbn in L; lia|].
    cbn [rev] in K. now rewrite <- app_assoc in K.
Qed.

Lemma white_no_digit (x : ascii) :
  is_white x = true -> cmatch true (CRange "0" "9") x = false.
Proof. each_ascii x. Qed.

Lemma digit_d09 (x : ascii) :
  is_digit x = true -> cmatch true (CRange "0" "9") x = true.
Proof. each_ascii x. Qed.

Lemma token_at_end (c : str) sn g :
  numeric_code c = true ->
  rmatch true (Seq digits48 Empty) Some (MState sn c g)
  = Some (MState (rev c ++ sn) [] ((1, (length sn, c)) :: g)).
Proof.
  intros N. destruct (numeric_code_digits _ N) as [L D].
  unfold len48 in L. apply andb_true_iff in L as [L1 L2].
  apply Nat.leb_le in L1, L2.
  rewrite rmatch_seq. unfold digits48. cbn [rmatch]. unfold times, d09.
  rewrite rmatch_rep.
  rewrite (@rep_loop_unit (rmatch true (Char (CRange "0" "9")))
             (cmatch true (CRange "0" "9")))
    by (first [intros; apply rmatch_char | exact L2]).
  apply greedy_whole; [|exact L1|].
  - apply forallb_forall. intros x Hx.
    apply digit_d09. rewrite forallb_forall in D. now apply D.
  - unfold close_group, pos. cbn [seen rest groups].
    rewrite length_app, length_rev.
    replace (length c + length sn - length sn) with (length c) by lia.
    now rewrite firstn_all.
Qed.

Lemma tail_hit (c : str) sn g :
  numeric_code c = true ->
  rmatch true explicit_tail Some (MState sn (" "%char :: c) g)
  = Some (MState (rev c ++ " "%char :: sn) [] ((1, (S (length sn), c)) :: g)).
Proof.
  intros N. unfold explicit_tail. cbn [cat fold_right]. rewrite rmatch_seq.
  unfold ws0, star, ws. rewrite rmatch_rep.
  rewrite rep_loop_greedy by (cbn; lia).
  rewrite greedy_end.
  - destruct (numeric_code_digits _ N) as [L D].
    destruct c as [|d c']; [discriminate|].
    pose proof D as D'. cbn [forallb] in D'. apply andb_true_iff in D' as [Dd _].
    cbn [run]. change (cmatch true CWhite " ") with true. cbn [cmatch].
    rewrite (digit_not_white _ Dd). cbn [Nat.leb advance rest seen groups].
    now rewrite token_at_end.
  - intros sn' x t W. rewrite rmatch_seq. unfold digits48. cbn [rmatch].
    unfold times, d09. cbn [rep_loop Nat.ltb Nat.leb rmatch rest].
    cbn [cmatch] in W. now rewrite (white_no_digit _ W).
Qed.

Lemma search_eq i r sn rs :
  search i r sn rs =
  match match_here i r sn rs with
  | Some m => Some m
  | None => match rs with
            | [] => None
            | c :: t => search i r (c :: sn) t
            end
  end.
Proof. destruct rs; reflexivity. Qed.

Lemma search_skip i r sn x t :
  rmatch i r Some (MState sn (x :: t) []) = None ->
  search i r sn (x :: t) = search i r (x :: sn) t.
Proof. intros H. rewrite search_eq. unfold match_here. now rewrite H. Qed.

Lemma labelled_match (c : str) :
  numeric_code c = true ->
  exists m, js_match true first_explicit (labelled_sentence c) = Some m
            /\ group 1 m = Some c.
Proof.
  intros N. unfold js_match, labelled_sentence.
  destruct (head_skip (rmatch true explicit_tail Some) c) as (H0 & H1 & H2 & H3 & H4).
  change (lit "Your verification code is " ++ c)
    with ("Y"%char :: lit "our verification code is " ++ c).
  rewrite search_skip by exact H0.
  change (lit "our verification code is " ++ c)
    with ("o"%char :: lit "ur verification code is " ++ c).
  rewrite search_skip by exact H1.
  change (lit "ur verification code is " ++ c)
    with ("u"%char :: lit "r verification code is " ++ c).
  rewrite search_skip by exact H2.
  change (lit "r verification code is " ++ c)
    with ("r"%char :: lit " verification code is " ++ c).
  rewrite search_skip by exact H3.
  change (lit " verification code is " ++ c)
    with (" "%char :: lit "verification code is " ++ c).
  rewrite search_skip by exact H4.
  rewrite search_eq. unfold match_here. rewrite first_explicit_split.
  change [" "%char; "r"%char; "u"%char; "o"%char; "Y"%char] with (rev (lit "Your ")).
  rewrite (@head_hit _ c _ (@tail_hit c _ _ N)).
  eexists. split; [reflexivity|]. reflexivity.
Qed.

Lemma digits_not (x : ascii) (c : str) :
  forallb is_digit c = true -> is_digit x = false -> ~ In x c.
Proof.
  intros D X K. rewrite forallb_forall in D. rewrite (D x K) in X. discriminate.
Qed.

Lemma norm_ws_digits (c : str) : forallb is_digit c = true -> norm_ws c = true.
Proof.
  induction c as [|x c IH]; [reflexivity|]. cbn [forallb norm_ws]. intros D.
  apply andb_true_iff in D as [Dx Dc]. now rewrite (digit_not_white _ Dx), IH.
Qed.

Lemma norm_ws_app (a b : str) :
  norm_ws a = true -> norm_ws b = true -> head_white b = false ->
  norm_ws (a ++ b) = true.
Proof.
  intros A B Hb. induction a as [|x a IH]; [exact B|].
  cbn [app norm_ws] in A |- *. apply andb_true_iff in A as [A1 A2].
  rewrite (IH A2), andb_true_r.
  destruct (is_white x); [|reflexivity].
  destruct a as [|y a]; [|exact A1].
  cbn [app]. rewrite Hb. apply andb_true_iff in A1 as [A1 _]. now rewrite A1.
Qed.

Lemma digits_head (c z : str) :
  forallb is_digit c = true -> c <> [] -> head_white (c ++ z) = false.
Proof.
  intros D Hne. destruct c as [|x c]; [contradiction|]. cbn [forallb] in D.
  apply andb_true_iff in D as [Dx _]. cbn. now apply digit_not_white.
Qed.

Lemma labelled_sentence_plain (c : str) :
  numeric_code c = true -> cleanText (labelled_sentence c) = labelled_sentence c.
Proof.
  intros N. destruct (numeric_code_digits _ N) as [L D].
  assert (Hne : c <> []) by (intros ->; discriminate).
  unfold labelled_sentence. apply cleanText_keeps_plain_text.
  - intros K. apply in_app_or in K as [K|K].
    + revert K. apply not_in_dec_str. reflexivity.
    + revert K. now apply digits_not.
  - intros K. apply in_app_or in K as [K|K].
    + revert K. apply not_in_dec_str. reflexivity.
    + revert K. now apply digits_not.
  - apply norm_ws_app; [reflexivity|now apply norm_ws_digits|].
    rewrite <- (app_nil_r c). now apply digits_head.
  - apply trim_id; [reflexivity|]. rewrite rev_app_distr.
    apply digits_head.
    + apply forallb_forall. intros x Hx. apply in_rev in Hx.
      rewrite forallb_forall in D. now apply D.
    + intros E. apply Hne. rewrite <- (rev_involutive c), E. reflexivity.
Qed.

(** X21.  A code of 4 to 8 digits that the Validator accepts is found
    under an explicit label: from the text "Your verification code is "
    followed by the code, extractOTP returns the code with confidence
    "high", and extractOTPFromEmail returns it from a subject of that
    form whatever the body is. *)
Theorem labelled_code_is_found (c : str) (body : value) :
  numeric_code c = true -> passes c = true ->
  extractOTP (VString (labelled_sentence c)) = Normal (Some (Otp c high))
  /\ extractOTPFromEmail (VString (labelled_sentence c)) body
     = Normal (Some (EmailOtp c high from_subject)).
Proof.
  intros N V. destruct (numeric_code_digits _ N) as [L D].
  assert (Hne : is_empty c = false) by (destruct c; [discriminate|reflexivity]).
  assert (E : extractOTP (VString (labelled_sentence c))
              = Normal (Some (Otp c high))).
  { unfold extractOTP. cbn [truthy typeof_string negb orb as_string].
    change (negb (is_empty (labelled_sentence c))) with true.
    cbn [negb orb]. f_equal. unfold extractOTP_str.
    rewrite (@labelled_sentence_plain c N).
    assert (G : hasVerificationContext (labelled_sentence c) = true).
    { apply context_grows with (w := lit "verification"); [|reflexivity].
      exists (lit "Your "), (lit " code is " ++ c). reflexivity. }
    rewrite G. cbn [negb].
    change explicitPatterns with ((true, first_explicit) :: skipn 1 explicitPatterns).
    cbn [try_patterns]. destruct (@labelled_match c N) as (m & M & G1).
    rewrite M, G1, Hne, processCode_eq, (digits_only_fixed _ D), L, V.
    cbn [andb]. now rewrite Hne. }
  split; [exact E|].
  rewrite email_result. rewrite extractOTP_total in E. injection E as ->.
  reflexivity.
Qed.

(** Scenario A with another label, and a missing body. *)
Lemma labelled_code_is_found_witness :
  extractOTP (VString (lit "Your verification code is 294817"))
  = Normal (Some (Otp (lit "294817") high))
  /\ extractOTPFromEmail (VString (lit "Your verification code is 294817")) VNull
     = Normal (Some (EmailOtp (lit "294817") high from_subject)).
Proof.
  apply (@labelled_code_is_found (lit "294817") VNull); vm_compute; reflexivity.
Defined.
